(** * gogcli: the Google Docs commands ([internal/cmd/docs.go])

    A shallow embedding of the document commands of gogcli and the
    properties its specification states about them:

    - bounded plain-text extraction ([appendLimited],
      [appendDocsElementText], [docsPlainText], [tabPlainText]);
    - tab flattening and lookup ([flattenTabs], [findTab]);
    - the request list and the deferred table pass of
      [DocsUpdateCmd.Run];
    - the image pass [DocsCreateCmd.insertImages].

    Conventions.  A Go [string] is a byte sequence and is modelled by
    [string] (a list of 8-bit characters).  A pointer the source tests
    against [nil] is an [option]; a pointer the source dereferences without
    a test (paragraph elements, table rows, table cells, the tabs handed to
    [findTab]) is the value itself, so the run-time panic of a [nil] there
    is outside the model.  [int64] values are integers of [Z]; where an
    operation can leave the 64-bit range its wrap-around is written out
    with [wrap64].  Go's [int] is taken to be 64 bits wide, so
    [int(maxBytes)] is the identity. *)

From stdpp Require Import gmap strings list sorting.
From Stdlib Require Import ZArith Ascii Lia.

Set Warnings "-register-all".

Local Open Scope string_scope.
Local Open Scope list_scope.

(** * The model *)

(** ** Go strings *)

Module GoString.

(** [len(s)] *)
Definition len (s : string) : Z := Z.of_nat (String.length s).

(** [s[:n]] for [0 <= n <= len(s)]; outside that range Go panics, the
    callers below stay inside it. *)
Fixpoint slice_to (s : string) (n : nat) {struct n} : string :=
  match n with
  | O => EmptyString
  | S n' =>
      match s with
      | EmptyString => EmptyString
      | String c s' => String c (slice_to s' n')
      end
  end.

Definition newline : string := String "010"%char EmptyString.
Definition tab : string := String "009"%char EmptyString.

(** [strings.Join(l, sep)] *)
Definition Join (l : list string) (sep : string) : string :=
  String.concat sep l.

End GoString.

(** ** [bytes.Buffer]: the bytes written so far *)

Definition Buffer := string.

Definition Buffer_WriteString (buf : Buffer) (s : string) : Buffer := buf +:+ s.
Definition Buffer_Len (buf : Buffer) : Z := GoString.len buf.
Definition Buffer_String (buf : Buffer) : string := buf.

(** ** The document model ([google.golang.org/api/docs/v1]), restricted to
    the fields the commands read *)

Record TextRun := mkTextRun { TextRun_Content : string }.

Record ParagraphElement := mkParagraphElement {
  ParagraphElement_TextRun : option TextRun }.

Record Paragraph := mkParagraph {
  Paragraph_Elements : list ParagraphElement }.

Record TableCell (E : Type) := mkTableCell {
  TableCell_Content : list (option E) }.
Arguments mkTableCell {E} _.
Arguments TableCell_Content {E} _.

Record TableRow (E : Type) := mkTableRow {
  TableRow_TableCells : list (TableCell E) }.
Arguments mkTableRow {E} _.
Arguments TableRow_TableCells {E} _.

Record Table (E : Type) := mkTable {
  Table_TableRows : list (TableRow E) }.
Arguments mkTable {E} _.
Arguments Table_TableRows {E} _.

Record TableOfContents (E : Type) := mkTableOfContents {
  TableOfContents_Content : list (option E) }.
Arguments mkTableOfContents {E} _.
Arguments TableOfContents_Content {E} _.

(** [docs.StructuralElement]: the three content pointers are independent
    fields of the Go struct; the extraction takes the first that is set. *)
Inductive StructuralElement := mkStructuralElement {
  StructuralElement_StartIndex : Z;
  StructuralElement_EndIndex : Z;
  StructuralElement_Paragraph : option Paragraph;
  StructuralElement_Table : option (Table StructuralElement);
  StructuralElement_TableOfContents : option (TableOfContents StructuralElement) }.

Record Body := mkBody { Body_Content : list (option StructuralElement) }.

Record Document := mkDocument { Document_Body : option Body }.

Record TabProperties := mkTabProperties {
  TabProperties_TabId : string;
  TabProperties_Title : string;
  TabProperties_Index : Z }.

Record DocumentTab := mkDocumentTab { DocumentTab_Body : option Body }.

Inductive Tab := mkTab {
  Tab_TabProperties : option TabProperties;
  Tab_DocumentTab : option DocumentTab;
  Tab_ChildTabs : list (option Tab) }.

(** ** Bounded plain-text extraction *)

(** [appendLimited] (docs.go, 669-685). *)
Definition appendLimited (buf : Buffer) (maxBytes : Z) (s : string) : Buffer * bool :=
  if (maxBytes <=? 0)%Z then (Buffer_WriteString buf s, true)
  else
    let remaining := (maxBytes - Buffer_Len buf)%Z in
    if (remaining <=? 0)%Z then (buf, false)
    else if (GoString.len s >? remaining)%Z
         then (Buffer_WriteString buf (GoString.slice_to s (Z.to_nat remaining)), false)
         else (Buffer_WriteString buf s, true).

(** A [for i, x := range l] loop over the buffer whose body either goes on
    to the next element ([true]) or makes the enclosing function return
    [false]. *)
Section RangeLoop.
Context {A : Type} (body : nat -> A -> Buffer -> Buffer * bool).

Fixpoint rangeLoop (i : nat) (l : list A) (buf : Buffer) : Buffer * bool :=
  match l with
  | [] => (buf, true)
  | x :: rest =>
      let '(buf', ok) := body i x buf in
      if ok then rangeLoop (S i) rest buf' else (buf', false)
  end.
End RangeLoop.

(** The separator written before every row or cell but the first:
    [if idx > 0 { if !appendLimited(buf, maxBytes, sep) { return false } }]. *)
Definition appendSeparator (maxBytes : Z) (idx : nat) (sep : string) (buf : Buffer)
  : Buffer * bool :=
  if (0 <? idx)%nat then appendLimited buf maxBytes sep else (buf, true).

(** [appendDocsElementText] (docs.go, 623-667) on a non-nil element. *)
Fixpoint appendDocsElementText_at (maxBytes : Z) (el : StructuralElement)
    (buf : Buffer) {struct el} : Buffer * bool :=
  let content := fun (_ : nat) (c : option StructuralElement) (buf : Buffer) =>
    match c with
    | None => (buf, true)
    | Some e => appendDocsElementText_at maxBytes e buf
    end in
  match StructuralElement_Paragraph el,
        StructuralElement_Table el,
        StructuralElement_TableOfContents el with
  | Some para, _, _ =>
      rangeLoop (fun _ p buf =>
        match ParagraphElement_TextRun p with
        | None => (buf, true)
        | Some run => appendLimited buf maxBytes (TextRun_Content run)
        end) 0 (Paragraph_Elements para) buf
  | None, Some tbl, _ =>
      rangeLoop (fun rowIdx row buf =>
        let '(buf, ok) := appendSeparator maxBytes rowIdx GoString.newline buf in
        if negb ok then (buf, false) else
        rangeLoop (fun cellIdx cell buf =>
          let '(buf, ok) := appendSeparator maxBytes cellIdx GoString.tab buf in
          if negb ok then (buf, false) else
          rangeLoop content 0 (TableCell_Content cell) buf)
          0 (TableRow_TableCells row) buf)
        0 (Table_TableRows tbl) buf
  | None, None, Some toc =>
      rangeLoop content 0 (TableOfContents_Content toc) buf
  | None, None, None => (buf, true)
  end.

(** [appendDocsElementText]: the [nil] element is skipped. *)
Definition appendDocsElementText (buf : Buffer) (maxBytes : Z)
    (el : option StructuralElement) : Buffer * bool :=
  match el with
  | None => (buf, true)
  | Some e => appendDocsElementText_at maxBytes e buf
  end.

(** The loop shared by [docsPlainText] and [tabPlainText]:
    [for _, el := range content { if !appendDocsElementText(&buf, maxBytes, el) { break } }]. *)
Definition bodyPlainText (b : Body) (maxBytes : Z) : string :=
  Buffer_String
    (fst (rangeLoop (fun _ el buf => appendDocsElementText buf maxBytes el)
            0 (Body_Content b) EmptyString)).

(** [docsPlainText] (docs.go, 608-621). *)
Definition docsPlainText (doc : option Document) (maxBytes : Z) : string :=
  match doc with
  | None => ""
  | Some d =>
      match Document_Body d with
      | None => ""
      | Some b => bodyPlainText b maxBytes
      end
  end.

(** [tabPlainText] (docs.go, 731-742). *)
Definition tabPlainText (tab : option Tab) (maxBytes : Z) : string :=
  match tab with
  | None => ""
  | Some t =>
      match Tab_DocumentTab t with
      | None => ""
      | Some dt =>
          match DocumentTab_Body dt with
          | None => ""
          | Some b => bodyPlainText b maxBytes
          end
      end
  end.

(** ** The text an element stands for

    This definition follows the specification's words, not the loops of the
    source: a paragraph is the concatenation of its text runs, a table is
    its rows joined by a newline, a row is its cells joined by a tab, a
    cell and a table of contents are the concatenation of their nested
    content.  The extraction above is compared with it below. *)

Definition runText (p : ParagraphElement) : string :=
  match ParagraphElement_TextRun p with
  | None => ""
  | Some run => TextRun_Content run
  end.

Definition concatText {A : Type} (f : A -> string) (l : list A) : string :=
  GoString.Join (map f l) "".

Fixpoint specElementText (el : StructuralElement) : string :=
  let nested := fun c : option StructuralElement =>
    match c with None => "" | Some e => specElementText e end in
  match StructuralElement_Paragraph el,
        StructuralElement_Table el,
        StructuralElement_TableOfContents el with
  | Some para, _, _ => concatText runText (Paragraph_Elements para)
  | None, Some tbl, _ =>
      GoString.Join
        (map (fun row =>
                GoString.Join
                  (map (fun cell => concatText nested (TableCell_Content cell))
                       (TableRow_TableCells row))
                  GoString.tab)
             (Table_TableRows tbl))
        GoString.newline
  | None, None, Some toc => concatText nested (TableOfContents_Content toc)
  | None, None, None => ""
  end.

Definition specNestedText (c : option StructuralElement) : string :=
  match c with None => "" | Some e => specElementText e end.

Definition specBodyText (b : Body) : string :=
  concatText specNestedText (Body_Content b).

(** The full text of a document and of a tab: empty at a [nil] boundary. *)
Definition specDocText (doc : option Document) : string :=
  match doc with
  | Some {| Document_Body := Some b |} => specBodyText b
  | _ => ""
  end.

Definition specTabText (tab : option Tab) : string :=
  match tab with
  | Some {| Tab_DocumentTab := Some {| DocumentTab_Body := Some b |} |} =>
      specBodyText b
  | _ => ""
  end.

(** ** Tabs *)

(** One iteration of the loop of [flattenTabs] for a non-nil [tab]: the
    tab itself, then, when it has child tabs, their flattening. *)
Fixpoint flattenTab (tab : Tab) : list Tab :=
  tab ::
    (if (0 <? length (Tab_ChildTabs tab))%nat
     then flat_map (fun c => match c with None => [] | Some t => flattenTab t end)
                   (Tab_ChildTabs tab)
     else []).

(** [flattenTabs] (docs.go, 689-701): [nil] entries are skipped. *)
Definition flattenTabs (tabs : list (option Tab)) : list Tab :=
  flat_map (fun c => match c with None => [] | Some t => flattenTab t end) tabs.

Section FindTab.
(** [strings.TrimSpace] and [strings.ToLower] of the Go standard library. *)
Variables TrimSpace ToLower : string -> string.

Definition idMatches (query : string) (tab : Tab) : bool :=
  match Tab_TabProperties tab with
  | Some props => String.eqb (TabProperties_TabId props) query
  | None => false
  end.

Definition titleMatches (lower : string) (tab : Tab) : bool :=
  match Tab_TabProperties tab with
  | Some props => String.eqb (ToLower (TabProperties_Title props)) lower
  | None => false
  end.

(** [findTab] (docs.go, 704-720).  [List.find] is the loop
    [for _, tab := range tabs { if cond { return tab } }]. *)
Definition findTab (tabs : list Tab) (query : string) : option Tab :=
  let query := TrimSpace query in
  match List.find (idMatches query) tabs with
  | Some tab => Some tab
  | None =>
      let lower := ToLower query in
      List.find (titleMatches lower) tabs
  end.
End FindTab.

(** [strings.ToLower] and [strings.TrimSpace] on strings of ASCII bytes
    (bytes of 128 and above belong to multi-byte runes and are left
    alone here). *)
Module Ascii7.

Definition lowerChar (c : ascii) : ascii :=
  let n := nat_of_ascii c in
  if ((65 <=? n) && (n <=? 90))%nat then ascii_of_nat (n + 32) else c.

Fixpoint ToLower (s : string) : string :=
  match s with
  | EmptyString => EmptyString
  | String c s' => String (lowerChar c) (ToLower s')
  end.

(** ['\t'], ['\n'], ['\v'], ['\f'], ['\r'], [' '] *)
Definition isSpace (c : ascii) : bool :=
  let n := nat_of_ascii c in
  ((9 <=? n) && (n <=? 13) || (n =? 32))%nat.

Fixpoint trimLeft (s : string) : string :=
  match s with
  | EmptyString => EmptyString
  | String c s' => if isSpace c then trimLeft s' else s
  end.

Fixpoint trimRight (s : string) : string :=
  match s with
  | EmptyString => EmptyString
  | String c s' =>
      match trimRight s' with
      | EmptyString => if isSpace c then EmptyString else String c EmptyString
      | t => String c t
      end
  end.

Definition TrimSpace (s : string) : string := trimRight (trimLeft s).

End Ascii7.

(** ** Requests, errors and the remote services *)

(** Go's [error]; [Errorf prefix e] is [fmt.Errorf(prefix + ": %w", e)]. *)
Inductive error :=
| ErrorString (msg : string)
| Errorf (prefix : string) (wrapped : error).

(** A Go result pair [(value, err)]. *)
Inductive Result (A : Type) :=
| Ok (value : A)
| Fail (err : error).
Arguments Ok {A} _.
Arguments Fail {A} _.

(** [docs.Request].  [InsertText] and [DeleteContentRange] are the two
    requests the update command builds itself.

    Modelled from the spec: the requests of the markdown formatter and of
    the image pass, which are built outside [docs.go] ("ApplyTextStyle
    {startOffset, endOffset, style}", "InsertInlineImage {offset,
    sourceURL}"). *)
Inductive Request :=
| InsertText (locationIndex : Z) (text : string)
| DeleteContentRange (startIndex endIndex : Z)
| UpdateTextStyle (startIndex endIndex : Z) (style : string)
| InsertInlineImage (locationIndex : Z) (uri : string).

Definition isDeleteContentRange (r : Request) : bool :=
  match r with DeleteContentRange _ _ => true | _ => false end.

Definition isTextStyle (r : Request) : bool :=
  match r with UpdateTextStyle _ _ _ => true | _ => false end.

(** The lowest document index a request addresses. *)
Definition lowestIndex (r : Request) : Z :=
  match r with
  | InsertText i _ => i
  | DeleteContentRange s _ => s
  | UpdateTextStyle s _ _ => s
  | InsertInlineImage i _ => i
  end.

(** Modelled from the spec: [TableData], the table descriptor of the
    markdown formatter ("{startOffset (relative to compilation base),
    cells}"); [Run] reads its fields [StartIndex] and [Cells]. *)
Record TableData := mkTableData {
  TableData_StartIndex : Z;
  TableData_Cells : list (list string) }.

(** What the command did to the outside world, in order, with the answer
    it got. *)
Inductive Event :=
| EvNewDocsService (account : string) (err : option error)
| EvDocumentsGet (docID : string) (res : Result (option Document))
| EvBatchUpdate (docID : string) (requests : list Request) (err : option error)
| EvInsertNativeTable (docID : string) (tableIndex : Z)
    (cells : list (list string)) (res : Result Z)
| EvUploadLocalImage (path : string) (res : Result (string * string))
| EvCleanupDriveFileIDs (ids : list string).

Definition History := list Event.

(** The remote services: each answer may depend on everything that
    happened before. *)
Record Remote := mkRemote {
  remote_NewDocsService : History -> string -> option error;
  remote_DocumentsGet : History -> string -> Result (option Document);
  remote_BatchUpdate : History -> string -> list Request -> option error;
  remote_InsertNativeTable : History -> string -> Z -> list (list string) -> Result Z;
  remote_UploadLocalImage : History -> string -> Result (string * string) }.

(** Commands thread the history. *)
Definition M (A : Type) : Type := History -> A * History.

#[global] Instance M_ret : MRet M := fun A a h => (a, h).
#[global] Instance M_bind : MBind M :=
  fun A B f m h => let '(a, h') := m h in f a h'.

Definition call {A : Type} (answer : History -> A) (ev : A -> Event) : M A :=
  fun h => let a := answer h in (a, h ++ [ev a]).

(** Go's [defer f(args)]: the arguments are evaluated when the [defer]
    statement runs, the call is made when the surrounding function
    returns, whatever it returns. *)
Definition defer {A : Type} (deferred : M unit) (body : M A) : M A :=
  r ← body; _ ← deferred; mret r.

(** ** 64-bit integers *)

Definition wrap64 (z : Z) : Z :=
  ((z + 2 ^ 63) mod 2 ^ 64 - 2 ^ 63)%Z.

Definition inInt64 (z : Z) : Prop := (- 2 ^ 63 <= z < 2 ^ 63)%Z.

(** ** [DocsUpdateCmd.Run] (docs.go, 382-540)

    The model starts where the document has been fetched (line 441): the
    account, the arguments and the format have been validated, [content]
    and [doc] are in hand.  [report] is what writing the final report to
    standard output returns. *)

Inductive ContentFormat := FormatPlain | FormatMarkdown.

Section DocsUpdate.
(** The markdown formatter lives outside [docs.go]. *)
Context {MarkdownElement : Type}.
Variable ParseMarkdown : string -> list MarkdownElement.
Variable MarkdownToDocsRequests :
  list MarkdownElement -> Z -> list Request * string * list TableData.
Variable remote : Remote.

(** [doc.Body.Content[len(doc.Body.Content)-1]], when the body is set,
    has content, and that last element is not nil. *)
Definition lastElement (doc : Document) : option StructuralElement :=
  match Document_Body doc with
  | None => None
  | Some body =>
      match last (Body_Content body) with
      | Some (Some lastEl) => Some lastEl
      | _ => None
      end
  end.

(** Lines 441-447.  The subtraction cannot leave the 64-bit range: it is
    made on an end index above 1. *)
Definition insertIndex (append : bool) (doc : Document) : Z :=
  if append then
    match lastElement doc with
    | Some lastEl =>
        if (StructuralElement_EndIndex lastEl >? 1)%Z
        then (StructuralElement_EndIndex lastEl - 1)%Z
        else 1%Z
    | None => 1%Z
    end
  else 1%Z.

(** Lines 449-452. *)
Definition baseIndex (append : bool) (doc : Document) : Z :=
  if append then insertIndex append doc else 1%Z.

(** Lines 454-464: [(formattingRequests, textToInsert, tables)]. *)
Definition compileContent (format : ContentFormat) (content : string) (base : Z)
  : list Request * string * list TableData :=
  match format with
  | FormatMarkdown => MarkdownToDocsRequests (ParseMarkdown content) base
  | FormatPlain => ([], content, [])
  end.

(** Lines 477-490: the request that clears the document in replace mode
    (again no wrap-around: the end index is above 2). *)
Definition deleteExisting (doc : Document) : list Request :=
  match lastElement doc with
  | Some lastEl =>
      if (StructuralElement_EndIndex lastEl >? 2)%Z
      then [DeleteContentRange 1 (StructuralElement_EndIndex lastEl - 1)]
      else []
  | None => []
  end.

(** Lines 466-502: [requests]. *)
Definition buildRequests (append : bool) (format : ContentFormat) (doc : Document)
    (formattingRequests : list Request) (textToInsert : string) : list Request :=
  let formatting :=
    match format with
    | FormatMarkdown => formattingRequests
    | FormatPlain => []
    end in
  if append then
    [InsertText (insertIndex append doc) textToInsert] ++ formatting
  else
    deleteExisting doc ++ [InsertText 1 textToInsert] ++ formatting.

Definition InsertNativeTable (id : string) (tableIndex : Z)
    (cells : list (list string)) : M (Result Z) :=
  call (fun h => remote_InsertNativeTable remote h id tableIndex cells)
       (EvInsertNativeTable id tableIndex cells).

Definition BatchUpdate (id : string) (requests : list Request) : M (option error) :=
  call (fun h => remote_BatchUpdate remote h id requests)
       (EvBatchUpdate id requests).

(** Lines 514-523: the loop over the deferred tables, [int64] arithmetic
    written out. *)
Fixpoint insertTables (id : string) (tables : list TableData) (tableOffset : Z)
  : M (option error) :=
  match tables with
  | [] => mret None
  | table :: rest =>
      let tableIndex := wrap64 (TableData_StartIndex table + tableOffset) in
      res ← InsertNativeTable id tableIndex (TableData_Cells table);
      match res with
      | Fail err => mret (Some (Errorf "insert native table" err))
      | Ok tableEnd =>
          let tableOffset :=
            if (tableEnd >? tableIndex)%Z
            then wrap64 (tableOffset + wrap64 (wrap64 (tableEnd - tableIndex) - 1))
            else tableOffset in
          insertTables id rest tableOffset
      end
  end.

(** Lines 441-540. *)
Definition Run (id : string) (append : bool) (format : ContentFormat)
    (content : string) (doc : Document) (report : option error) : M (option error) :=
  let '(formattingRequests, textToInsert, tables) :=
    compileContent format content (baseIndex append doc) in
  let requests := buildRequests append format doc formattingRequests textToInsert in
  err ← BatchUpdate id requests;
  match err with
  | Some e => mret (Some (Errorf "update document" e))
  | None =>
      err ← (if (0 <? length tables)%nat then insertTables id tables 0%Z
             else mret None);
      match err with
      | Some e => mret (Some e)
      | None => mret report
      end
  end.
End DocsUpdate.

(** ** [DocsCreateCmd.insertImages] (docs.go, 195-248) *)

Section InsertImages.
(** [markdownImage], the placeholder scan, the path resolution and the
    request builder live outside [docs.go]; they are parameters. *)
Context {markdownImage PlaceholderRange : Type}.
Variable image_index : markdownImage -> Z.
Variable image_originalRef : markdownImage -> string.
Variable image_placeholder : markdownImage -> string.
Variable image_isRemote : markdownImage -> bool.
Variable findPlaceholderIndices :
  option Document -> nat -> gmap string PlaceholderRange.
Variable resolveMarkdownImagePath : string -> string -> Result string.
Variable buildImageInsertRequests :
  gmap string PlaceholderRange -> list markdownImage -> gmap Z string -> list Request.
Variable remote : Remote.

Definition newDocsService (account : string) : M (option error) :=
  call (fun h => remote_NewDocsService remote h account) (EvNewDocsService account).

Definition DocumentsGet (docID : string) : M (Result (option Document)) :=
  call (fun h => remote_DocumentsGet remote h docID) (EvDocumentsGet docID).

Definition uploadLocalImage (realPath : string) : M (Result (string * string)) :=
  call (fun h => remote_UploadLocalImage remote h realPath) (EvUploadLocalImage realPath).

(** Modelled from the spec: [cleanupDriveFileIDsBestEffort] attempts the
    deletion of every file id it is handed and swallows failures; the
    model records the ids it was handed. *)
Definition cleanupDriveFileIDsBestEffort (ids : list string) : M unit :=
  fun h => (tt, h ++ [EvCleanupDriveFileIDs ids]).

(** Lines 217-237: the loop over the images.  It ends with the error
    that made [insertImages] return, or with [imageURLs] and
    [tempFileIDs]. *)
Fixpoint resolveImages (c_File : string) (placeholders : gmap string PlaceholderRange)
    (images : list markdownImage) (imageURLs : gmap Z string)
    (tempFileIDs : list string) : M (Result (gmap Z string * list string)) :=
  match images with
  | [] => mret (Ok (imageURLs, tempFileIDs))
  | img :: rest =>
      match placeholders !! image_placeholder img with
      | None => resolveImages c_File placeholders rest imageURLs tempFileIDs
      | Some _ =>
          if image_isRemote img then
            resolveImages c_File placeholders rest
              (<[image_index img := image_originalRef img]> imageURLs) tempFileIDs
          else
            match resolveMarkdownImagePath c_File (image_originalRef img) with
            | Fail resolveErr => mret (Fail resolveErr)
            | Ok realPath =>
                up ← uploadLocalImage realPath;
                match up with
                | Fail uploadErr => mret (Fail uploadErr)
                | Ok (url, fileID) =>
                    resolveImages c_File placeholders rest
                      (<[image_index img := url]> imageURLs)
                      (tempFileIDs ++ [fileID])
                end
            end
      end
  end.

Definition insertImages (c_File account docID : string)
    (images : list markdownImage) : M (option error) :=
  err ← newDocsService account;
  match err with
  | Some e => mret (Some e)
  | None =>
      got ← DocumentsGet docID;
      match got with
      | Fail e => mret (Some (Errorf "read back document" e))
      | Ok doc =>
          let placeholders := findPlaceholderIndices doc (length images) in
          if (size placeholders =? 0)%nat then mret None else
          let imageURLs : gmap Z string := ∅ in
          let tempFileIDs : list string := [] in
          (* defer cleanupDriveFileIDsBestEffort(ctx, driveSvc, tempFileIDs) *)
          defer (cleanupDriveFileIDsBestEffort tempFileIDs)
            (resolved ← resolveImages c_File placeholders images imageURLs tempFileIDs;
             match resolved with
             | Fail e => mret (Some e)
             | Ok (imageURLs, tempFileIDs) =>
                 let reqs := buildImageInsertRequests placeholders images imageURLs in
                 if (length reqs =? 0)%nat then mret None else
                 call (fun h => remote_BatchUpdate remote h docID reqs)
                      (EvBatchUpdate docID reqs)
             end)
      end
  end.

(** The file ids the uploads of a history returned. *)
Definition uploadedFileIDs (h : History) : list string :=
  flat_map (fun ev =>
    match ev with
    | EvUploadLocalImage _ (Ok (_, fileID)) => [fileID]
    | _ => []
    end) h.

(** The file ids a history handed to the cleanup routine. *)
Definition cleanedFileIDs (h : History) : list string :=
  flat_map (fun ev =>
    match ev with
    | EvCleanupDriveFileIDs ids => ids
    | _ => []
    end) h.
End InsertImages.

(** * Vocabulary of the properties *)

(** ** What a walk step does to the buffer

    [Appended maxBytes buf s r]: [r] is a correct outcome of appending the
    text [s] to [buf] under the budget.  Without a budget all of [s] is
    written.  With one, either all of [s] fitted and the walk goes on, or
    the buffer holds exactly the first [maxBytes] bytes of [buf +:+ s] and
    the walk stops. *)
Definition Appended (maxBytes : Z) (buf : Buffer) (s : string) (r : Buffer * bool) : Prop :=
  if (maxBytes <=? 0)%Z then r = (buf +:+ s, true)
  else
    (GoString.len buf <= maxBytes)%Z ->
    (r = (buf +:+ s, true) /\ (GoString.len (buf +:+ s) <= maxBytes)%Z)
    \/ (r = (GoString.slice_to (buf +:+ s) (Z.to_nat maxBytes), false)
        /\ (maxBytes <= GoString.len (buf +:+ s))%Z).

(** The text a [rangeLoop] stands for when its body at index [i] stands
    for [text i x]. *)
Fixpoint loopText {A : Type} (text : nat -> A -> string) (i : nat) (l : list A) : string :=
  match l with
  | [] => ""
  | x :: rest => text i x +:+ loopText text (S i) rest
  end.

Definition separatorText (idx : nat) (sep : string) : string :=
  if (0 <? idx)%nat then sep else "".

(** ** Induction over nested content *)

Definition onNested (P : StructuralElement -> Prop) (c : option StructuralElement) : Prop :=
  match c with
  | None => True
  | Some e => P e
  end.

Definition onCells (P : StructuralElement -> Prop) (tbl : Table StructuralElement) : Prop :=
  Forall (fun row =>
    Forall (fun cell => Forall (onNested P) (TableCell_Content cell))
           (TableRow_TableCells row))
    (Table_TableRows tbl).

(** [Forall] from a proof for every element, as a structural recursion
    that nested proofs can go through. *)
Definition ForallBy {A : Type} (Q : A -> Prop) (q : forall a, Q a)
  : forall l : list A, Forall Q l :=
  fix go (l : list A) : Forall Q l :=
    match l with
    | [] => List.Forall_nil Q
    | a :: rest => List.Forall_cons Q a rest (q a) (go rest)
    end.

(** The text the walk writes for an element into an empty buffer. *)
Definition extractedText (maxBytes : Z) (c : option StructuralElement) : string :=
  Buffer_String (fst (appendDocsElementText EmptyString maxBytes c)).

(** ** A sample document

    A two-by-two table whose last cell holds a table of contents, a nil
    element, and a paragraph of two runs around an element that is not a
    text run. *)

Definition sampleParagraph (runs : list (option string)) : option StructuralElement :=
  Some (mkStructuralElement 0 0
          (Some (mkParagraph
                   (map (fun r => mkParagraphElement (mkTextRun <$> r)) runs)))
          None None).

Definition sampleTable : option StructuralElement :=
  Some (mkStructuralElement 0 0 None
    (Some (mkTable
       [ mkTableRow [ mkTableCell [sampleParagraph [Some "a"]];
                      mkTableCell [sampleParagraph [Some "b"]] ];
         mkTableRow [ mkTableCell [None; sampleParagraph [Some "1"]];
                      mkTableCell
                        [Some (mkStructuralElement 0 0 None None
                           (Some (mkTableOfContents
                              [sampleParagraph [Some "2"; None; Some "3"]])))] ] ]))
    None).

Definition sampleDocument : option Document :=
  Some (mkDocument (Some (mkBody
    [sampleTable; None; sampleParagraph [Some "xy"; None; Some "z"]]))).

Definition sampleTab : option Tab :=
  Some (mkTab None
          (Some (mkDocumentTab (Some (mkBody
             [sampleTable; None; sampleParagraph [Some "xy"; None; Some "z"]]))))
          []).

(** ** Positions in a tab tree

    A position is the list of child indices that leads from the top-level
    list to a tab ([nil] entries count in the indices).  [subtab] reads
    the tab at a position.  [pathBefore] is the pre-order of positions: a
    tab is before its descendants, and the subtree of a sibling with a
    smaller index is before the subtree of one with a larger index. *)

Fixpoint subtab (tabs : list (option Tab)) (path : list nat) {struct path} : option Tab :=
  match path with
  | [] => None
  | i :: rest =>
      match tabs !! i with
      | Some (Some t) =>
          match rest with
          | [] => Some t
          | _ :: _ => subtab (Tab_ChildTabs t) rest
          end
      | _ => None
      end
  end.

(** The tab at position [rest] relative to [t]. *)
Definition descend (t : Tab) (rest : list nat) : option Tab :=
  match rest with
  | [] => Some t
  | _ :: _ => subtab (Tab_ChildTabs t) rest
  end.

Fixpoint pathBefore (p q : list nat) : Prop :=
  match p, q with
  | [], [] => False
  | [], _ :: _ => True
  | _ :: _, [] => False
  | i :: p', j :: q' => i < j \/ (i = j /\ pathBefore p' q')
  end.

Section FlatMapIdx.
Context {A B : Type} (f : nat -> A -> list B).

Fixpoint flatMapIdx (i : nat) (l : list A) : list B :=
  match l with
  | [] => []
  | x :: rest => f i x ++ flatMapIdx (S i) rest
  end.
End FlatMapIdx.

(** The positions of the non-nil tabs below [tab], relative to it and
    starting with [tab] itself, listed subtree by subtree. *)
Fixpoint tabPositions (tab : Tab) : list (list nat) :=
  [] :: flatMapIdx (fun i c =>
          match c with
          | None => []
          | Some t => map (cons i) (tabPositions t)
          end) 0 (Tab_ChildTabs tab).

Definition childPositions (i : nat) (c : option Tab) : list (list nat) :=
  match c with
  | None => []
  | Some t => map (cons i) (tabPositions t)
  end.

Definition forestPositions (tabs : list (option Tab)) : list (list nat) :=
  flatMapIdx childPositions 0 tabs.

Definition onTab (P : Tab -> Prop) (c : option Tab) : Prop :=
  match c with
  | None => True
  | Some t => P t
  end.

(** What is to be shown of every tab: reading the positions below it
    gives its flattening, the positions are exactly those that hold a
    tab, and they are listed in pre-order. *)
Definition PositionsOk (t : Tab) : Prop :=
  map (descend t) (tabPositions t) = map Some (flattenTab t)
  /\ (forall p, In p (tabPositions t) <-> is_Some (descend t p))
  /\ StronglySorted pathBefore (tabPositions t).

(** The tree [A[B[D,E],C]]. *)
Definition leafTab (id : string) : Tab :=
  mkTab (Some (mkTabProperties id id 0)) None [].

Definition tabD : Tab := leafTab "D".
Definition tabE : Tab := leafTab "E".
Definition tabC : Tab := leafTab "C".
Definition tabB : Tab :=
  mkTab (Some (mkTabProperties "B" "B" 0)) None [Some tabD; Some tabE].
Definition tabA : Tab :=
  mkTab (Some (mkTabProperties "A" "A" 0)) None [Some tabB; Some tabC].

(** ** The contract of [findTab] *)

(** [tab] carries the identifier [q]. *)
Definition hasId (q : string) (tab : Tab) : Prop :=
  exists props, Tab_TabProperties tab = Some props /\ TabProperties_TabId props = q.

(** The title of [tab] equals [q] up to case, case being folded by
    [ToLower]. *)
Definition hasTitle (ToLower : string -> string) (q : string) (tab : Tab) : Prop :=
  exists props, Tab_TabProperties tab = Some props
                /\ ToLower (TabProperties_Title props) = ToLower q.

(** [firstWith P tabs t]: [t] is the first tab of [tabs] that satisfies [P]. *)
Definition firstWith (P : Tab -> Prop) (tabs : list Tab) (t : Tab) : Prop :=
  exists before after,
    tabs = before ++ t :: after /\ P t /\ Forall (fun u => ~ P u) before.

(** The contract of the lookup for the query text [q] that is compared:
    the first tab with identifier [q] wins, whatever the titles; without
    one, the first tab titled [q] up to case; without either, no tab. *)
Definition FindTabContract (ToLower : string -> string) (q : string)
    (tabs : list Tab) (result : option Tab) : Prop :=
  (forall t, firstWith (hasId q) tabs t -> result = Some t)
  /\ (Forall (fun u => ~ hasId q u) tabs ->
      forall t, firstWith (hasTitle ToLower q) tabs t -> result = Some t)
  /\ (Forall (fun u => ~ hasId q u) tabs ->
      Forall (fun u => ~ hasTitle ToLower q u) tabs ->
      result = None).

Definition tabIntro : Tab :=
  mkTab (Some (mkTabProperties "t1" "T2" 0)) None [].

Definition tabNotes : Tab :=
  mkTab (Some (mkTabProperties "t2" "Notes" 1)) None [].

(** ** Runs of the deferred table pass *)

(** One call of [InsertNativeTable]: where the table was placed, its
    cells, and the answer. *)
Definition TableCall : Type := Z * list (list string) * Result Z.

Definition callCells (c : TableCall) : list (list string) := c.1.2.

Definition insertEvent (id : string) (c : TableCall) : Event :=
  let '(tableIndex, cells, res) := c in EvInsertNativeTable id tableIndex cells res.

(** The offset after a table placed at [tableIndex] ended at [tableEnd]
    (docs.go, 520-522). *)
Definition nextTableOffset (tableOffset tableIndex tableEnd : Z) : Z :=
  if (tableEnd >? tableIndex)%Z
  then wrap64 (tableOffset + wrap64 (wrap64 (tableEnd - tableIndex) - 1))
  else tableOffset.

(** The runs of the loop, as a relation between the tables left, the
    running offset, the calls made and the error returned. *)
Inductive TableRun : list TableData -> Z -> list TableCall -> option error -> Prop :=
| TableRun_done (tableOffset : Z) :
    TableRun [] tableOffset [] None
| TableRun_fail (table : TableData) (rest : list TableData) (tableOffset : Z) (err : error) :
    TableRun (table :: rest) tableOffset
      [(wrap64 (TableData_StartIndex table + tableOffset), TableData_Cells table, Fail err)]
      (Some (Errorf "insert native table" err))
| TableRun_next (table : TableData) (rest : list TableData) (tableOffset tableEnd : Z)
    (calls : list TableCall) (result : option error) :
    let tableIndex := wrap64 (TableData_StartIndex table + tableOffset) in
    TableRun rest (nextTableOffset tableOffset tableIndex tableEnd) calls result ->
    TableRun (table :: rest) tableOffset
      ((tableIndex, TableData_Cells table, Ok tableEnd) :: calls) result.

(** The net drift of the calls made so far: for each table that was
    inserted, the end index returned less the index it was placed at, less
    the one anchor unit. *)
Definition callDrift (c : TableCall) : Z :=
  match c with
  | (tableIndex, _, Ok tableEnd) => (tableEnd - tableIndex - 1)%Z
  | (_, _, Fail _) => 0%Z
  end.

Definition netDrift (calls : list TableCall) : Z :=
  foldr (fun c acc => (callDrift c + acc)%Z) 0%Z calls.

(** The answer of a call ends beyond the index the table was placed at. *)
Definition endsBeyond (c : TableCall) : Prop :=
  match c with
  | (tableIndex, _, Ok tableEnd) => (tableIndex < tableEnd)%Z
  | (_, _, Fail _) => True
  end.

(** The drift as the specification's formula has it: end index less the
    start offset of the descriptor, less one. *)
Fixpoint driftFromStarts (tables : list TableData) (calls : list TableCall) : Z :=
  match tables, calls with
  | table :: tables', (_, _, Ok tableEnd) :: calls' =>
      (tableEnd - TableData_StartIndex table - 1 + driftFromStarts tables' calls')%Z
  | _, _ => 0%Z
  end.

(** ** Sample services and inputs *)

(** A service in which every call succeeds; an inserted table ends five
    units after the index it was placed at. *)
Definition obligingRemote : Remote := {|
  remote_NewDocsService := fun _ _ => None;
  remote_DocumentsGet := fun _ _ => Ok (Some (mkDocument None));
  remote_BatchUpdate := fun _ _ _ => None;
  remote_InsertNativeTable := fun _ _ tableIndex _ => Ok (tableIndex + 5)%Z;
  remote_UploadLocalImage := fun _ path => Ok ("https://drive" +:+ path, "tmp:" +:+ path) |}.

(** The same service, except that a table insertion fails once something
    has been placed at index 20 or beyond. *)
Definition failingRemote : Remote := {|
  remote_NewDocsService := fun _ _ => None;
  remote_DocumentsGet := fun _ _ => Ok (Some (mkDocument None));
  remote_BatchUpdate := fun _ _ _ => None;
  remote_InsertNativeTable := fun _ _ tableIndex _ =>
    if (tableIndex <? 20)%Z then Ok (tableIndex + 5)%Z else Fail (ErrorString "quota");
  remote_UploadLocalImage := fun _ path => Ok ("https://drive" +:+ path, "tmp:" +:+ path) |}.

Definition threeTables : list TableData :=
  [mkTableData 10 [["a"]]; mkTableData 20 [["b"]]; mkTableData 30 [["c"]]].

Definition threeCalls : list TableCall :=
  [(10, [["a"]], Ok 15); (24, [["b"]], Ok 29); (38, [["c"]], Ok 43)]%Z.

(** A formatter that styles the first five units after the base and
    defers the three tables. *)
Definition sampleParse (content : string) : list string := [content].

Definition sampleFormatter (elements : list string) (base : Z)
  : list Request * string * list TableData :=
  ([UpdateTextStyle base (base + 5) "bold"], "Hello", threeTables).

(** A document whose body ends at index 12. *)
Definition sampleLiveDocument : Document :=
  mkDocument (Some (mkBody
    [Some (mkStructuralElement 1 12
             (Some (mkParagraph [mkParagraphElement (Some (mkTextRun "0123456789"))]))
             None None)])).

(** The placement rule with the drift computed by [drift]: in a run of the
    loop from offset 0 over descriptors with increasing start offsets, the
    [k]-th call places its table at the start offset of the [k]-th
    descriptor plus the drift of the calls before it, provided each of
    those ended beyond the index it was placed at. *)
Definition PlacementRule (drift : list TableData -> list TableCall -> Z)
    (remote : Remote) (id : string) (tables : list TableData) (h : History) : Prop :=
  StronglySorted Z.lt (map TableData_StartIndex tables) ->
  forall calls result,
    insertTables remote id tables 0 h = (result, h ++ map (insertEvent id) calls) ->
    forall k tableIndex cells res,
      calls !! k = Some (tableIndex, cells, res) ->
      Forall endsBeyond (take k calls) ->
      exists table,
        tables !! k = Some table
        /\ tableIndex
           = (TableData_StartIndex table + drift (take k tables) (take k calls))%Z.

(** A note with one local image whose placeholder is in the document. *)
Definition sampleImages : list (Z * string) := [(0%Z, "fig.png")].

Definition samplePlaceholders (doc : option Document) (n : nat) : gmap string (Z * Z) :=
  {[ "fig.png" := (5%Z, 12%Z) ]}.

Definition sampleIsRemote (img : Z * string) : bool := String.prefix "https://" img.2.

Definition sampleResolvePath (file ref : string) : Result string := Ok ("/notes/" +:+ ref).

Definition sampleImageRequests (placeholders : gmap string (Z * Z))
    (images : list (Z * string)) (imageURLs : gmap Z string) : list Request :=
  match imageURLs !! 0%Z with
  | Some url => [InsertInlineImage 5 url]
  | None => []
  end.

(** [tempFileIDs] when the loop of that pass ends. *)
Definition sampleTrackedFileIDs : option (list string) :=
  match
    (resolveImages fst snd snd sampleIsRemote sampleResolvePath obligingRemote
       "/notes/post.md" (samplePlaceholders None 1) sampleImages ∅ []
       [ EvNewDocsService "me@example.com" None;
         EvDocumentsGet "doc" (Ok (Some (mkDocument None))) ]).1
  with
  | Ok (_, tempFileIDs) => Some tempFileIDs
  | Fail _ => None
  end.

Definition sampleInsertImages : M (option error) :=
  insertImages fst snd snd sampleIsRemote samplePlaceholders sampleResolvePath
    sampleImageRequests obligingRemote "/notes/post.md" "me@example.com" "doc" sampleImages.

(** * More of [docs.go]: links, titles and the [cat] command *)

Module GoStrings.

(** [s[n:]] for [0 <= n <= len(s)]. *)
Fixpoint slice_from (s : string) (n : nat) {struct n} : string :=
  match n with
  | O => s
  | S n' =>
      match s with
      | EmptyString => EmptyString
      | String _ s' => slice_from s' n'
      end
  end.

(** [strings.HasSuffix]:
    [len(s) >= len(suffix) && s[len(s)-len(suffix):] == suffix]. *)
Definition HasSuffix (s suffix : string) : bool :=
  (String.length suffix <=? String.length s)%nat
  && String.eqb (slice_from s (String.length s - String.length suffix)) suffix.

End GoStrings.

Section DocsLinks.
Variable TrimSpace : string -> string.

(** [docsWebViewLink] (docs.go, 600-606). *)
Definition docsWebViewLink (id : string) : string :=
  let id := TrimSpace id in
  if String.eqb id "" then ""
  else "https://docs.google.com/document/d/" +:+ id +:+ "/edit".
End DocsLinks.

(** [tabTitle] (docs.go, 723-728). *)
Definition tabTitle (tab : Tab) : string :=
  match Tab_TabProperties tab with
  | Some props =>
      if negb (String.eqb (TabProperties_Title props) "")
      then TabProperties_Title props
      else "(untitled)"
  | None => "(untitled)"
  end.

(** The values of the [map[string]any] objects the commands print. *)
Inductive JSONValue :=
| JSONString (s : string)
| JSONNumber (n : Z).

(** [tabJSON] (docs.go, 745-753). *)
Definition tabJSON (tab : Tab) (text : string) : gmap string JSONValue :=
  let m : gmap string JSONValue := {[ "text" := JSONString text ]} in
  match Tab_TabProperties tab with
  | Some props =>
      <["index" := JSONNumber (TabProperties_Index props)]>
        (<["title" := JSONString (TabProperties_Title props)]>
           (<["id" := JSONString (TabProperties_TabId props)]> m))
  | None => m
  end.

(** What [DocsCatCmd.Run] writes to standard output: a string
    ([io.WriteString], [fmt.Fprintf], [fmt.Fprintln]) or one of its three
    JSON objects ([outfmt.WriteJSON]): [{"text": ...}], [{"tab": ...}],
    [{"tabs": [...]}]. *)
Inductive StdoutWrite :=
| OutString (s : string)
| OutJSONText (text : string)
| OutJSONTab (tab : gmap string JSONValue)
| OutJSONTabs (tabs : option (list (gmap string JSONValue))).

(** A Go slice that may be nil: [None] is the nil slice of [var out []T],
    which [encoding/json] prints as [null] and not as an empty array.
    [slice_append] is Go's [append(out, x)]: its result is never nil. *)
Definition slice_append {A : Type} (out : option (list A)) (x : A) : option (list A) :=
  Some (match out with Some l => l | None => [] end ++ [x]).

Section DocsCat.
Variables TrimSpace ToLower : string -> string.
(** What a write to standard output returns. *)
Variable stdout : StdoutWrite -> option error.

(** The body of the text loop of [--all-tabs] (docs.go, 330-341) for the
    tab at index [i]: the writes it makes. *)
Definition catTabSection (maxBytes : Z) (i : nat) (tab : Tab) : list string :=
  let title := tabTitle tab in
  let text := tabPlainText (Some tab) maxBytes in
  (if (0 <? i)%nat then [GoString.newline] else [])
  ++ ["=== Tab: " +:+ title +:+ " ===" +:+ GoString.newline]
  ++ [text]
  ++ (if negb (String.eqb text "") && negb (GoStrings.HasSuffix text GoString.newline)
      then [GoString.newline] else []).

(** [DocsCatCmd.Run] (docs.go, 271-366) from the point where the document
    has been fetched: [doc] is the fetched document ([nil] possible),
    [doc_Tabs] its [Tabs] field (the [Document] record above holds the
    body only), [isJSON] is [outfmt.IsJSON(ctx)].  The result is the list
    of writes made and the error returned. *)
Definition DocsCatCmd_Run (c_Tab : string) (c_AllTabs : bool) (c_MaxBytes : Z)
    (isJSON : bool) (doc : option Document) (doc_Tabs : list (option Tab))
  : list StdoutWrite * option error :=
  if negb (String.eqb c_Tab "") || c_AllTabs then
    match doc with
    | None => ([], Some (ErrorString "doc not found"))
    | Some _ =>
        let tabs := flattenTabs doc_Tabs in
        if negb (String.eqb c_Tab "") then
          match findTab TrimSpace ToLower tabs c_Tab with
          | None => ([], Some (ErrorString ("tab not found: " +:+ c_Tab)))
          | Some tab =>
              let text := tabPlainText (Some tab) c_MaxBytes in
              let w := if isJSON then OutJSONTab (tabJSON tab text) else OutString text in
              ([w], stdout w)
          end
        else if isJSON then
          let out :=
            foldl (fun out tab =>
                     let text := tabPlainText (Some tab) c_MaxBytes in
                     slice_append out (tabJSON tab text))
                  None tabs in
          ([OutJSONTabs out], stdout (OutJSONTabs out))
        else
          (map OutString (flatMapIdx (catTabSection c_MaxBytes) 0 tabs), None)
    end
  else
    match doc with
    | None => ([], Some (ErrorString "doc not found"))
    | Some _ =>
        let text := docsPlainText doc c_MaxBytes in
        let w := if isJSON then OutJSONText text else OutString text in
        ([w], stdout w)
    end.
End DocsCat.

(** The bytes a list of writes puts on standard output in text mode. *)
Definition writtenText (ws : list StdoutWrite) : string :=
  GoString.Join
    (map (fun w => match w with OutString s => s | _ => EmptyString end) ws)
    EmptyString.

(** * Tracking configuration (package [tracking]: [docs.go], 779-922, and
    [internal/tracking/secrets.go]) *)

(** [Config] (docs.go, 792-798). *)
Record Config := mkConfig {
  Config_Enabled : bool;
  Config_WorkerURL : string;
  Config_SecretsInKeyring : bool;
  Config_TrackingKey : string;
  Config_AdminKey : string }.

(** [IsConfigured] (docs.go, 920-922). *)
Definition IsConfigured (c : Config) : bool :=
  Config_Enabled c
  && negb (String.eqb (Config_WorkerURL c) "")
  && negb (String.eqb (Config_TrackingKey c) "").

(** Error values are compared by what they say: a sentinel such as
    [keyring.ErrKeyNotFound] is the one error with its message. *)
Fixpoint error_eqb (a b : error) : bool :=
  match a, b with
  | ErrorString m, ErrorString m' => String.eqb m m'
  | Errorf p w, Errorf p' w' => String.eqb p p' && error_eqb w w'
  | _, _ => false
  end.

(** [errors.Is]: [err] or an error it wraps is [target]. *)
Fixpoint errors_Is (err target : error) : bool :=
  error_eqb err target
  || match err with
     | Errorf _ wrapped => errors_Is wrapped target
     | ErrorString _ => false
     end.

(** [secrets.go], 12-20. *)
Definition errMissingTrackingKey : error := ErrorString "missing tracking key".
Definition errMissingAdminKey : error := ErrorString "missing admin key".
Definition trackingKeySecretKey : string := "tracking/tracking_key".
Definition adminKeySecretKey : string := "tracking/admin_key".

(** [keyring.ErrKeyNotFound]. *)
Definition ErrKeyNotFound : error :=
  ErrorString "The specified item could not be found in the keyring".

(** The files on disk and the items of the keyring: an entry holds the
    bytes stored, or the error that reading it gives (an error other than
    "does not exist" / [ErrKeyNotFound]); without an entry the file does
    not exist and the item is not found. *)
Definition Disk := gmap string (Result string).
Definition Keyring := gmap string (Result string).

(** The three outcomes of [os.ReadFile] the code tells apart:
    [err == nil], [os.IsNotExist(err)], any other error. *)
Inductive ReadOutcome :=
| ReadData (data : string)
| ReadNotExist
| ReadError (err : error).

Definition os_ReadFile (disk : Disk) (path : string) : ReadOutcome :=
  match disk !! path with
  | None => ReadNotExist
  | Some (Ok data) => ReadData data
  | Some (Fail err) => ReadError err
  end.

(** [secrets.GetSecret], as the callers use it. *)
Definition secrets_GetSecret (keyring : Keyring) (key : string) : Result string :=
  match keyring !! key with
  | None => Fail ErrKeyNotFound
  | Some item => item
  end.

Section Tracking.
(** The standard library, the [config] and [secrets] packages and the
    host: what they return is a parameter. *)
Variable TrimSpace : string -> string.
Variable filepath_Join : list string -> string.
(** [config.Dir()], [config.EnsureDir()], [os.UserConfigDir()]. *)
Variable config_Dir : Result string.
Variable config_EnsureDir : Result string.
Variable os_UserConfigDir : Result string.
Variable json_Unmarshal : string -> Result Config.
Variable json_MarshalIndent : Config -> Result string.
(** The error of [os.WriteFile] and of [secrets.SetSecret], if any; without
    one the bytes are stored. *)
Variable os_WriteFile_err : Disk -> string -> string -> option error.
Variable secrets_SetSecret_err : Keyring -> string -> string -> option error.

Definition secrets_SetSecret (keyring : Keyring) (key value : string)
  : option error * Keyring :=
  match secrets_SetSecret_err keyring key value with
  | Some err => (Some err, keyring)
  | None => (None, <[key := Ok value]> keyring)
  end.

Definition os_WriteFile (disk : Disk) (path data : string) : option error * Disk :=
  match os_WriteFile_err disk path data with
  | Some err => (Some err, disk)
  | None => (None, <[path := Ok data]> disk)
  end.

(** [ConfigPath] (docs.go, 801-808). *)
Definition ConfigPath : Result string :=
  match config_Dir with
  | Fail err => Fail (Errorf "config dir" err)
  | Ok dir => Ok (filepath_Join [dir; "tracking.json"])
  end.

(** [legacyConfigPath] (docs.go, 810-817). *)
Definition legacyConfigPath : Result string :=
  match os_UserConfigDir with
  | Fail err => Fail (Errorf "user config dir" err)
  | Ok configDir => Ok (filepath_Join [configDir; "gog"; "tracking.json"])
  end.

(** [readConfigBytes] (docs.go, 819-846): [Ok (Some data)] is
    [(data, true, nil)], [Ok None] is [(nil, false, nil)]. *)
Definition readConfigBytes (disk : Disk) (path : string) : Result (option string) :=
  match os_ReadFile disk path with
  | ReadData data => Ok (Some data)
  | ReadError readErr => Fail (Errorf "read tracking config" readErr)
  | ReadNotExist =>
      match legacyConfigPath with
      | Fail legacyErr => Fail (Errorf "legacy config path" legacyErr)
      | Ok legacyPath =>
          match os_ReadFile disk legacyPath with
          | ReadData legacyData => Ok (Some legacyData)
          | ReadNotExist => Ok None
          | ReadError legacyReadErr =>
              Fail (Errorf "read legacy tracking config" legacyReadErr)
          end
      end
  end.

(** [SaveSecrets] (secrets.go, 22-40). *)
Definition SaveSecrets (keyring : Keyring) (trackingKey adminKey : string)
  : option error * Keyring :=
  if String.eqb trackingKey "" then (Some errMissingTrackingKey, keyring)
  else if String.eqb adminKey "" then (Some errMissingAdminKey, keyring)
  else
    match secrets_SetSecret keyring trackingKeySecretKey trackingKey with
    | (Some err, keyring) => (Some (Errorf "store tracking key" err), keyring)
    | (None, keyring) =>
        match secrets_SetSecret keyring adminKeySecretKey adminKey with
        | (Some err, keyring) => (Some (Errorf "store admin key" err), keyring)
        | (None, keyring) => (None, keyring)
        end
    end.

(** [LoadSecrets] (secrets.go, 42-62). *)
Definition LoadSecrets (keyring : Keyring) : Result (string * string) :=
  match secrets_GetSecret keyring trackingKeySecretKey with
  | Fail err =>
      if errors_Is err ErrKeyNotFound then Ok ("", "")
      else Fail (Errorf "read tracking key" err)
  | Ok b =>
      match secrets_GetSecret keyring adminKeySecretKey with
      | Fail err =>
          if errors_Is err ErrKeyNotFound then Ok ("", "")
          else Fail (Errorf "read admin key" err)
      | Ok ab => Ok (b, ab)
      end
  end.

(** [LoadConfig] (docs.go, 849-885). *)
Definition LoadConfig (disk : Disk) (keyring : Keyring) : Result Config :=
  match ConfigPath with
  | Fail err => Fail err
  | Ok path =>
      match readConfigBytes disk path with
      | Fail err => Fail err
      | Ok None => Ok (mkConfig false "" false "" "")
      | Ok (Some data) =>
          match json_Unmarshal data with
          | Fail err => Fail (Errorf "parse tracking config" err)
          | Ok cfg =>
              if String.eqb (TrimSpace (Config_TrackingKey cfg)) ""
                 || String.eqb (TrimSpace (Config_AdminKey cfg)) ""
                 || Config_SecretsInKeyring cfg
              then
                match LoadSecrets keyring with
                | Fail secretErr => Fail secretErr
                | Ok (trackingKey, adminKey) =>
                    let cfgTrackingKey :=
                      if String.eqb (TrimSpace (Config_TrackingKey cfg)) ""
                      then trackingKey else Config_TrackingKey cfg in
                    let cfgAdminKey :=
                      if String.eqb (TrimSpace (Config_AdminKey cfg)) ""
                      then adminKey else Config_AdminKey cfg in
                    Ok (mkConfig (Config_Enabled cfg) (Config_WorkerURL cfg)
                          (Config_SecretsInKeyring cfg) cfgTrackingKey cfgAdminKey)
                end
              else Ok cfg
          end
      end
  end.

(** What [SaveConfig] marshals: without the keys when they live in the
    keyring (docs.go, 899-905). *)
Definition toSave (cfg : Config) : Config :=
  if Config_SecretsInKeyring cfg
  then mkConfig (Config_Enabled cfg) (Config_WorkerURL cfg)
                (Config_SecretsInKeyring cfg) "" ""
  else cfg.

(** [SaveConfig] (docs.go, 888-917). *)
Definition SaveConfig (disk : Disk) (cfg : Config) : option error * Disk :=
  match ConfigPath with
  | Fail err => (Some err, disk)
  | Ok path =>
      match config_EnsureDir with
      | Fail mkErr => (Some (Errorf "ensure config dir" mkErr), disk)
      | Ok _ =>
          match json_MarshalIndent (toSave cfg) with
          | Fail err => (Some (Errorf "marshal tracking config" err), disk)
          | Ok data =>
              match os_WriteFile disk path data with
              | (Some writeErr, disk) =>
                  (Some (Errorf "write tracking config" writeErr), disk)
              | (None, disk) => (None, disk)
              end
          end
      end
  end.
End Tracking.

(** * More vocabulary: requests, table calls and uploads *)


Definition callSucceeded (c : TableCall) : Prop := exists tableEnd, c.2 = Ok tableEnd.

(** What a call adds to the running offset (docs.go, 520-522): nothing
    when the end index returned is not beyond the index the table was
    placed at. *)
Definition guardedDrift (c : TableCall) : Z :=
  match c with
  | (tableIndex, _, Ok tableEnd) =>
      if (tableEnd >? tableIndex)%Z then (tableEnd - tableIndex - 1)%Z else 0%Z
  | (_, _, Fail _) => 0%Z
  end.

Definition netGuardedDrift (calls : list TableCall) : Z :=
  foldr (fun c acc => (guardedDrift c + acc)%Z) 0%Z calls.

(** A service whose table insertions answer with end index 0 whatever
    the placement. *)
Definition stallingRemote : Remote := {|
  remote_NewDocsService := fun _ _ => None;
  remote_DocumentsGet := fun _ _ => Ok (Some (mkDocument None));
  remote_BatchUpdate := fun _ _ _ => None;
  remote_InsertNativeTable := fun _ _ _ _ => Ok 0%Z;
  remote_UploadLocalImage := fun _ path => Ok ("https://drive" +:+ path, "tmp:" +:+ path) |}.

(** ** The uploads of the image pass *)

(** An upload call: the path and the answer. *)
Definition UploadCall : Type := string * Result (string * string).

Definition uploadEvent (c : UploadCall) : Event := EvUploadLocalImage c.1 c.2.

Definition uploadSucceeded (c : UploadCall) : Prop :=
  exists url fileID, c.2 = Ok (url, fileID).

(** The upload calls of a history, in order. *)
Definition uploadsOf (h : History) : list UploadCall :=
  flat_map (fun ev =>
    match ev with
    | EvUploadLocalImage path res => [(path, res)]
    | _ => []
    end) h.

Section ImagePass.
Context {markdownImage PlaceholderRange : Type}.
Variable image_index : markdownImage -> Z.
Variable image_originalRef : markdownImage -> string.
Variable image_placeholder : markdownImage -> string.
Variable image_isRemote : markdownImage -> bool.
Variable resolveMarkdownImagePath : string -> string -> Result string.
Variable c_File : string.
Variable placeholders : gmap string PlaceholderRange.

(** The placeholder of the image was found in the document. *)
Definition placed (img : markdownImage) : bool :=
  match placeholders !! image_placeholder img with
  | Some _ => true
  | None => false
  end.

(** The images the pass has to upload: placed and not remote. *)
Definition toUpload (images : list markdownImage) : list markdownImage :=
  List.filter (fun img => placed img && negb (image_isRemote img)) images.

(** The runs of the loop (docs.go, 217-237), as a relation between the
    images left, [imageURLs] and [tempFileIDs] before them, the uploads
    made and the outcome. *)
Inductive ImageRun :
  list markdownImage -> gmap Z string -> list string -> list UploadCall ->
  Result (gmap Z string * list string) -> Prop :=
| ImageRun_done (imageURLs : gmap Z string) (tempFileIDs : list string) :
    ImageRun [] imageURLs tempFileIDs [] (Ok (imageURLs, tempFileIDs))
| ImageRun_skip (img : markdownImage) (rest : list markdownImage)
    (imageURLs : gmap Z string) (tempFileIDs : list string)
    (ups : list UploadCall) (result : Result (gmap Z string * list string)) :
    placed img = false ->
    ImageRun rest imageURLs tempFileIDs ups result ->
    ImageRun (img :: rest) imageURLs tempFileIDs ups result
| ImageRun_remote (img : markdownImage) (rest : list markdownImage)
    (imageURLs : gmap Z string) (tempFileIDs : list string)
    (ups : list UploadCall) (result : Result (gmap Z string * list string)) :
    placed img = true -> image_isRemote img = true ->
    ImageRun rest (<[image_index img := image_originalRef img]> imageURLs)
      tempFileIDs ups result ->
    ImageRun (img :: rest) imageURLs tempFileIDs ups result
| ImageRun_unresolved (img : markdownImage) (rest : list markdownImage)
    (imageURLs : gmap Z string) (tempFileIDs : list string) (err : error) :
    placed img = true -> image_isRemote img = false ->
    resolveMarkdownImagePath c_File (image_originalRef img) = Fail err ->
    ImageRun (img :: rest) imageURLs tempFileIDs [] (Fail err)
| ImageRun_refused (img : markdownImage) (rest : list markdownImage)
    (imageURLs : gmap Z string) (tempFileIDs : list string)
    (realPath : string) (err : error) :
    placed img = true -> image_isRemote img = false ->
    resolveMarkdownImagePath c_File (image_originalRef img) = Ok realPath ->
    ImageRun (img :: rest) imageURLs tempFileIDs [(realPath, Fail err)] (Fail err)
| ImageRun_uploaded (img : markdownImage) (rest : list markdownImage)
    (imageURLs : gmap Z string) (tempFileIDs : list string)
    (realPath url fileID : string)
    (ups : list UploadCall) (result : Result (gmap Z string * list string)) :
    placed img = true -> image_isRemote img = false ->
    resolveMarkdownImagePath c_File (image_originalRef img) = Ok realPath ->
    ImageRun rest (<[image_index img := url]> imageURLs) (tempFileIDs ++ [fileID])
      ups result ->
    ImageRun (img :: rest) imageURLs tempFileIDs
      ((realPath, Ok (url, fileID)) :: ups) result.
End ImagePass.

(** A note with a local image, a remote image and an image whose
    placeholder is not in the document. *)
Definition mixedImages : list (Z * string) :=
  [(0%Z, "fig.png"); (1%Z, "https://example.com/logo.png"); (2%Z, "gone.png")].

Definition mixedPlaceholders (doc : option Document) (n : nat) : gmap string (Z * Z) :=
  {[ "fig.png" := (5%Z, 12%Z); "https://example.com/logo.png" := (20%Z, 48%Z) ]}.

Definition mixedImageRequests (placeholders : gmap string (Z * Z))
    (images : list (Z * string)) (imageURLs : gmap Z string) : list Request :=
  omap (fun img : Z * string =>
          match placeholders !! img.2, imageURLs !! img.1 with
          | Some (at_, _), Some url => Some (InsertInlineImage at_ url)
          | _, _ => None
          end) images.

Definition mixedInsertImages : M (option error) :=
  insertImages fst snd snd sampleIsRemote mixedPlaceholders sampleResolvePath
    mixedImageRequests obligingRemote "/notes/post.md" "me@example.com" "doc" mixedImages.

(** What that pass does, from an empty history. *)
Definition mixedEvents : History :=
  [ EvNewDocsService "me@example.com" None;
    EvDocumentsGet "doc" (Ok (Some (mkDocument None)));
    EvUploadLocalImage "/notes/fig.png"
      (Ok ("https://drive/notes/fig.png", "tmp:/notes/fig.png"));
    EvBatchUpdate "doc"
      [InsertInlineImage 5 "https://drive/notes/fig.png";
       InsertInlineImage 20 "https://example.com/logo.png"]
      None;
    EvCleanupDriveFileIDs [] ].

(** ** A sample host for the tracking configuration *)

Definition samplePathJoin (parts : list string) : string := GoString.Join parts "/".

Definition sampleConfigDir : Result string := Ok "/home/u/.config/gogcli".

Definition sampleUserConfigDir : Result string := Ok "/home/u/.config".

Definition showBool (b : bool) : string := if b then "true" else "false".

(** A stand-in for [json.MarshalIndent]: the fields, one after the other. *)
Definition sampleMarshal (cfg : Config) : Result string :=
  Ok ("enabled=" +:+ showBool (Config_Enabled cfg)
      +:+ " worker_url=" +:+ Config_WorkerURL cfg
      +:+ " secrets_in_keyring=" +:+ showBool (Config_SecretsInKeyring cfg)
      +:+ " tracking_key=" +:+ Config_TrackingKey cfg
      +:+ " admin_key=" +:+ Config_AdminKey cfg).

(** A stand-in for [json.Unmarshal] that reads back the configurations it
    knows. *)
Definition sampleUnmarshal (known : list Config) (data : string) : Result Config :=
  match List.find (fun cfg => match sampleMarshal cfg with
                              | Ok d => String.eqb d data
                              | Fail _ => false
                              end) known with
  | Some cfg => Ok cfg
  | None => Fail (ErrorString "unexpected end of JSON input")
  end.

(** A disk and a keyring that take every write. *)
Definition alwaysWrites : gmap string (Result string) -> string -> string -> option error :=
  fun _ _ _ => None.

(** The configuration of [TestConfigRoundTrip]. *)
Definition sampleConfig : Config :=
  mkConfig true "https://test.workers.dev" true "" "".

(** A configuration that carries its keys itself. *)
Definition sampleFileConfig : Config :=
  mkConfig true "https://test.workers.dev" false "testkey123" "adminkey456".

Definition samplePrimaryPath : string := "/home/u/.config/gogcli/tracking.json".

Definition sampleLegacyPath : string := "/home/u/.config/gog/tracking.json".

(** * [DocsUpdateCmd.Run] from its first line (docs.go, 382-540)

    The account has been resolved ([requireAccount] succeeded).  [usage]
    builds the usage error of a message, [isDocsNotFound] (docs.go,
    772-778) tells the "not found" answers of the service apart,
    [ReadFile] is [os.ReadFile] on the content file.  The [--debug] flag
    only switches on the tracing of the markdown formatter, which is a
    parameter here. *)

Section DocsUpdateCommand.
Context {MarkdownElement : Type}.
Variable ParseMarkdown : string -> list MarkdownElement.
Variable MarkdownToDocsRequests :
  list MarkdownElement -> Z -> list Request * string * list TableData.
Variable remote : Remote.
Variables TrimSpace ToLower : string -> string.
Variable usage : string -> error.
Variable isDocsNotFound : error -> bool.
Variable ReadFile : string -> Result string.

(** Lines 398-411: the content to insert. *)
Definition updateContent (c_Content c_ContentFile : string) : Result string :=
  if negb (String.eqb c_ContentFile "") then
    match ReadFile c_ContentFile with
    | Fail err => Fail (Errorf "read content file" err)
    | Ok data => Ok data
    end
  else if negb (String.eqb c_Content "") then Ok c_Content
  else Fail (usage "either --content or --content-file is required").

(** Lines 413-421: the content format. *)
Definition updateFormat (c_Format : string) : Result ContentFormat :=
  let format := ToLower (TrimSpace c_Format) in
  let format := if String.eqb format "" then "plain" else format in
  if String.eqb format "plain" then Ok FormatPlain
  else if String.eqb format "markdown" then Ok FormatMarkdown
  else Fail (usage "format must be plain or markdown").

Definition DocsUpdateCmd_Run (account c_DocID c_Content c_ContentFile c_Format : string)
    (c_Append : bool) (report : option error) : M (option error) :=
  let id := TrimSpace c_DocID in
  if String.eqb id "" then mret (Some (usage "empty docId")) else
  match updateContent c_Content c_ContentFile with
  | Fail err => mret (Some err)
  | Ok content =>
      match updateFormat c_Format with
      | Fail err => mret (Some err)
      | Ok format =>
          err ← newDocsService remote account;
          match err with
          | Some e => mret (Some e)
          | None =>
              got ← DocumentsGet remote id;
              match got with
              | Fail e =>
                  if isDocsNotFound e
                  then mret (Some (ErrorString
                         ("doc not found or not a Google Doc (id=" +:+ id +:+ ")")))
                  else mret (Some e)
              | Ok None => mret (Some (ErrorString "doc not found"))
              | Ok (Some doc) =>
                  Run ParseMarkdown MarkdownToDocsRequests remote id c_Append format
                      content doc report
              end
          end
      end
  end.
End DocsUpdateCommand.

(** The event is a call for this account, or on this document. *)
Definition addressedTo (account id : string) (ev : Event) : Prop :=
  match ev with
  | EvNewDocsService a _ => a = account
  | EvDocumentsGet docID _ => docID = id
  | EvBatchUpdate docID _ _ => docID = id
  | EvInsertNativeTable docID _ _ _ => docID = id
  | EvUploadLocalImage _ _ => False
  | EvCleanupDriveFileIDs _ => False
  end.

(** A service that answers the fetch with the sample document. *)
Definition liveRemote : Remote := {|
  remote_NewDocsService := fun _ _ => None;
  remote_DocumentsGet := fun _ _ => Ok (Some sampleLiveDocument);
  remote_BatchUpdate := fun _ _ _ => None;
  remote_InsertNativeTable := fun _ _ tableIndex _ => Ok (tableIndex + 5)%Z;
  remote_UploadLocalImage := fun _ path => Ok ("https://drive" +:+ path, "tmp:" +:+ path) |}.

Definition sampleUsage (msg : string) : error := Errorf "usage" (ErrorString msg).

Definition sampleReadFile (path : string) : Result string :=
  if String.eqb path "notes.md" then Ok "# From the file"
  else Fail (ErrorString "no such file or directory").

(** * Properties *)

(** ** Facts about strings *)

Module GoStringFacts.
Import GoString.

Lemma app_empty_l (t : string) : "" +:+ t = t.
Proof. reflexivity. Qed.

Lemma app_cons (c : ascii) (s t : string) :
  String c s +:+ t = String c (s +:+ t).
Proof. reflexivity. Qed.

Lemma app_empty_r (s : string) : s +:+ "" = s.
Proof.
  induction s as [|c s IH]; [reflexivity|]. now rewrite app_cons, IH.
Qed.

Lemma app_assoc (s t u : string) : (s +:+ t) +:+ u = s +:+ (t +:+ u).
Proof.
  induction s as [|c s IH]; [reflexivity|]. now rewrite !app_cons, IH.
Qed.

Lemma length_app (s t : string) :
  String.length (s +:+ t) = String.length s + String.length t.
Proof.
  induction s as [|c s IH]; [reflexivity|]. rewrite app_cons. simpl.
  now rewrite IH.
Qed.

Lemma len_app (s t : string) : len (s +:+ t) = (len s + len t)%Z.
Proof. unfold len. rewrite length_app. lia. Qed.

Lemma len_nonneg (s : string) : (0 <= len s)%Z.
Proof. unfold len. lia. Qed.

Lemma slice_to_empty (n : nat) : slice_to "" n = "".
Proof. destruct n; reflexivity. Qed.

Lemma slice_to_length (s : string) (n : nat) :
  String.length (slice_to s n) = Nat.min n (String.length s).
Proof.
  revert n. induction s as [|c s IH]; intros [|n]; simpl; try reflexivity.
  now rewrite IH.
Qed.

Lemma slice_to_all (s : string) (n : nat) :
  String.length s <= n -> slice_to s n = s.
Proof.
  revert n. induction s as [|c s IH]; intros [|n] Hn; simpl in *;
    try reflexivity; try lia.
  rewrite IH by lia. reflexivity.
Qed.

Lemma slice_to_app_l (s t : string) (n : nat) :
  n <= String.length s -> slice_to (s +:+ t) n = slice_to s n.
Proof.
  revert n. induction s as [|c s IH]; intros [|n] Hn;
    rewrite ?app_cons, ?app_empty_l; simpl in *; try reflexivity; try lia.
  rewrite IH by lia. reflexivity.
Qed.

Lemma slice_to_app_r (s t : string) (n : nat) :
  String.length s <= n ->
  slice_to (s +:+ t) n = s +:+ slice_to t (n - String.length s).
Proof.
  revert n. induction s as [|c s IH]; intros n Hn;
    rewrite ?app_cons, ?app_empty_l; simpl in *.
  - now rewrite Nat.sub_0_r.
  - destruct n as [|n]; [lia|]. simpl. rewrite IH by lia. reflexivity.
Qed.

Lemma Join_cons (sep x : string) (l : list string) :
  Join (x :: l) sep =
  x +:+ match l with [] => "" | _ :: _ => sep +:+ Join l sep end.
Proof.
  unfold Join. destruct l; simpl; [symmetry; apply app_empty_r | reflexivity].
Qed.

Lemma Join_empty_sep_cons (x : string) (l : list string) :
  Join (x :: l) "" = x +:+ Join l "".
Proof. rewrite Join_cons. destruct l; reflexivity. Qed.

End GoStringFacts.

Section AppendedFacts.
Import GoString GoStringFacts.
Variable maxBytes : Z.

Lemma appendLimited_appended (buf : Buffer) (s : string) :
  Appended maxBytes buf s (appendLimited buf maxBytes s).
Proof.
  unfold Appended, appendLimited, Buffer_WriteString, Buffer_Len.
  destruct (Z.leb_spec maxBytes 0) as [Hle|Hgt]; [reflexivity|].
  intros Hbuf. rewrite len_app.
  destruct (Z.leb_spec (maxBytes - len buf) 0) as [Hfull|Hroom].
  - right. split; [|pose proof (len_nonneg s); lia].
    rewrite slice_to_app_l by (unfold len in *; lia).
    rewrite slice_to_all by (unfold len in *; lia). reflexivity.
  - destruct (Z.gtb_spec (len s) (maxBytes - len buf)) as [Hlong|Hfits].
    + right. split; [|lia].
      rewrite slice_to_app_r by (unfold len in *; lia).
      do 3 f_equal. unfold len. lia.
    + left. split; [reflexivity | lia].
Qed.

Lemma appended_nothing (buf : Buffer) : Appended maxBytes buf "" (buf, true).
Proof.
  unfold Appended. rewrite app_empty_r.
  destruct (maxBytes <=? 0)%Z; [reflexivity|]. intros H. left. now split.
Qed.

Lemma appended_then (buf b1 : Buffer) (ok : bool) (s1 s2 : string) (r2 : Buffer * bool) :
  Appended maxBytes buf s1 (b1, ok) ->
  (ok = true -> Appended maxBytes b1 s2 r2) ->
  Appended maxBytes buf (s1 +:+ s2) (if ok then r2 else (b1, false)).
Proof.
  unfold Appended. destruct (Z.leb_spec maxBytes 0) as [Hle|Hgt].
  - intros [= -> ->] H2. rewrite (H2 eq_refl), app_assoc. reflexivity.
  - intros H1 H2 Hbuf. rewrite <- app_assoc.
    destruct (H1 Hbuf) as [[[= -> ->] Hlen]|[[= -> ->] Hlen]].
    + exact (H2 eq_refl Hlen).
    + right. rewrite len_app. split; [|pose proof (len_nonneg s2); lia].
      rewrite (slice_to_app_l (buf +:+ s1) s2) by (unfold len in *; lia).
      reflexivity.
Qed.

Lemma appendSeparator_appended (idx : nat) (sep : string) (buf : Buffer) :
  Appended maxBytes buf (separatorText idx sep) (appendSeparator maxBytes idx sep buf).
Proof.
  unfold separatorText, appendSeparator. destruct (0 <? idx)%nat.
  - apply appendLimited_appended.
  - apply appended_nothing.
Qed.

Lemma rangeLoop_appended {A : Type} (body : nat -> A -> Buffer -> Buffer * bool)
    (text : nat -> A -> string) (l : list A) :
  Forall (fun x => forall i buf, Appended maxBytes buf (text i x) (body i x buf)) l ->
  forall i buf, Appended maxBytes buf (loopText text i l) (rangeLoop body i l buf).
Proof.
  induction 1 as [|x rest Hx _ IH]; intros i buf; simpl.
  - apply appended_nothing.
  - specialize (Hx i buf). destruct (body i x buf) as [b1 ok].
    apply appended_then; [exact Hx | intros _; apply IH].
Qed.

(** A body that writes a separator and then runs an inner step. *)
Lemma separated_appended (idx : nat) (sep s : string) (buf : Buffer)
    (inner : Buffer -> Buffer * bool) :
  (forall b, Appended maxBytes b s (inner b)) ->
  Appended maxBytes buf (separatorText idx sep +:+ s)
    (let '(b, ok) := appendSeparator maxBytes idx sep buf in
     if negb ok then (b, false) else inner b).
Proof.
  intros Hinner. pose proof (appendSeparator_appended idx sep buf) as Hsep.
  destruct (appendSeparator maxBytes idx sep buf) as [b ok].
  pose proof (appended_then _ _ _ _ s (inner b) Hsep (fun _ => Hinner b)) as H.
  destruct ok; exact H.
Qed.
End AppendedFacts.

Section LoopTextFacts.
Import GoString GoStringFacts.
Context {A : Type}.

Lemma loopText_plain (f : A -> string) (l : list A) (i : nat) :
  loopText (fun _ x => f x) i l = concatText f l.
Proof.
  revert i. unfold concatText.
  induction l as [|x l IH]; intros i; simpl loopText; [reflexivity|].
  rewrite IH. simpl map. now rewrite Join_empty_sep_cons.
Qed.

Lemma loopText_separated_from (sep : string) (f : A -> string) (l : list A) :
  forall (i : nat) (x : A), (0 < i)%nat ->
    Join (map f (x :: l)) sep =
    f x +:+ loopText (fun idx y => separatorText idx sep +:+ f y) i l.
Proof.
  induction l as [|y l IH]; intros i x Hi.
  - simpl. now rewrite app_empty_r.
  - simpl map. rewrite Join_cons. simpl map in IH.
    rewrite (IH (S i) y) by lia. simpl loopText.
    replace (separatorText i sep) with sep; [now rewrite app_assoc|].
    unfold separatorText. destruct (Nat.ltb_spec 0 i); [reflexivity | lia].
Qed.

Lemma loopText_separated (sep : string) (f : A -> string) (l : list A) :
  loopText (fun idx y => separatorText idx sep +:+ f y) 0 l = Join (map f l) sep.
Proof.
  destruct l as [|x l]; [reflexivity|].
  rewrite (loopText_separated_from sep f l 1 x) by lia. reflexivity.
Qed.
End LoopTextFacts.

(** Induction on a structural element with the property at hand for all
    the content nested in its table cells and its table of contents. *)
Lemma StructuralElement_nested_ind (P : StructuralElement -> Prop) :
  (forall si ei para tbl toc,
      match tbl with Some t => onCells P t | None => True end ->
      match toc with
      | Some c => Forall (onNested P) (TableOfContents_Content c)
      | None => True
      end ->
      P (mkStructuralElement si ei para tbl toc)) ->
  forall el, P el.
Proof.
  intros step. fix IH 1. intros [si ei para tbl toc].
  assert (nested : forall c, onNested P c).
  { intros [e|]; [exact (IH e) | exact I]. }
  apply step.
  - destruct tbl as [t|]; [|exact I].
    apply ForallBy. intros row. apply ForallBy. intros cell.
    apply ForallBy. exact nested.
  - destruct toc as [c|]; [|exact I]. apply ForallBy. exact nested.
Qed.

(** ** The walk appends the text of the element, within the budget *)

Section ExtractionFacts.
Import GoString GoStringFacts.
Variable maxBytes : Z.

Lemma nested_appended (c : option StructuralElement) :
  onNested (fun e => forall buf,
    Appended maxBytes buf (specElementText e) (appendDocsElementText_at maxBytes e buf)) c ->
  forall (i : nat) (buf : Buffer),
    Appended maxBytes buf (specNestedText c)
      (match c with
       | None => (buf, true)
       | Some e => appendDocsElementText_at maxBytes e buf
       end).
Proof.
  destruct c as [e|]; simpl; intros H i buf.
  - apply H.
  - apply appended_nothing.
Qed.

Lemma appendDocsElementText_at_appended (el : StructuralElement) :
  forall buf, Appended maxBytes buf (specElementText el)
                (appendDocsElementText_at maxBytes el buf).
Proof.
  induction el as [si ei para tbl toc Htbl Htoc] using StructuralElement_nested_ind.
  intros buf. destruct para as [para|]; [|destruct tbl as [tbl|]; [|destruct toc as [toc|]]];
    simpl.
  - (* Paragraph *)
    rewrite <- (loopText_plain runText _ 0).
    apply rangeLoop_appended. apply Forall_forall. intros p _ i b.
    unfold runText. destruct (ParagraphElement_TextRun p).
    + apply appendLimited_appended.
    + apply appended_nothing.
  - (* Table *)
    rewrite <- loopText_separated.
    apply rangeLoop_appended.
    eapply Forall_impl; [exact Htbl|]. intros row Hrow rowIdx b. simpl in Hrow.
    apply separated_appended. intros b1.
    rewrite <- loopText_separated.
    apply rangeLoop_appended.
    eapply Forall_impl; [exact Hrow|]. intros cell Hcell cellIdx b2. simpl in Hcell.
    apply separated_appended. intros b3.
    rewrite <- (loopText_plain _ _ 0).
    apply rangeLoop_appended.
    eapply Forall_impl; [exact Hcell|]. intros c Hc i b4.
    exact (nested_appended c Hc i b4).
  - (* TableOfContents *)
    rewrite <- (loopText_plain _ _ 0).
    apply rangeLoop_appended.
    eapply Forall_impl; [exact Htoc|]. intros c Hc i b.
    exact (nested_appended c Hc i b).
  - apply appended_nothing.
Qed.

Lemma appendDocsElementText_appended (el : option StructuralElement) (buf : Buffer) :
  Appended maxBytes buf (specNestedText el) (appendDocsElementText buf maxBytes el).
Proof.
  destruct el as [e|]; simpl.
  - apply appendDocsElementText_at_appended.
  - apply appended_nothing.
Qed.

Lemma bodyPlainText_spec (b : Body) :
  bodyPlainText b maxBytes =
  if (maxBytes <=? 0)%Z then specBodyText b
  else slice_to (specBodyText b) (Z.to_nat maxBytes).
Proof.
  unfold bodyPlainText, Buffer_String, specBodyText.
  rewrite <- (loopText_plain specNestedText _ 0).
  pose proof (rangeLoop_appended maxBytes
                (fun _ el buf => appendDocsElementText buf maxBytes el)
                (fun _ x => specNestedText x) (Body_Content b)) as H.
  specialize (H ltac:(apply Forall_forall; intros; apply appendDocsElementText_appended)
                0%nat EmptyString).
  unfold Appended in H. rewrite app_empty_l in H.
  destruct (Z.leb_spec maxBytes 0) as [Hle|Hgt].
  - now rewrite H.
  - assert (Hpre : (len "" <= maxBytes)%Z) by (unfold len; simpl; lia).
    destruct (H Hpre) as [[-> Hlen]|[-> Hlen]]; simpl.
    + rewrite slice_to_all by (unfold len in Hlen; lia). reflexivity.
    + reflexivity.
Qed.
End ExtractionFacts.

(** ** [appendLimited] at the boundary *)

(** A fragment that does not fit is cut
    to fill the budget, one that fits exactly is written whole and lets
    the walk go on, and a full buffer stops the walk. *)
Example appendLimited_cuts :
  appendLimited "abc" 5 "defg" = ("abcde", false).
Proof. reflexivity. Qed.

Example appendLimited_fills :
  appendLimited "abc" 5 "de" = ("abcde", true).
Proof. reflexivity. Qed.

Example appendLimited_full :
  appendLimited "abcde" 5 "" = ("abcde", false).
Proof. reflexivity. Qed.

Example appendLimited_unlimited :
  appendLimited "abc" 0 "defg" = ("abcdefg", true).
Proof. reflexivity. Qed.

Lemma unlimited_appendDocsElementText (maxBytes : Z) (c : option StructuralElement)
    (buf : Buffer) :
  (maxBytes <= 0)%Z ->
  appendDocsElementText buf maxBytes c = (buf +:+ specNestedText c, true).
Proof.
  intros Hle. pose proof (appendDocsElementText_appended maxBytes c buf) as H.
  unfold Appended in H. destruct (Z.leb_spec maxBytes 0); [exact H | lia].
Qed.

Lemma unlimited_extractedText (maxBytes : Z) (c : option StructuralElement) :
  (maxBytes <= 0)%Z -> extractedText maxBytes c = specNestedText c.
Proof.
  intros Hle. unfold extractedText.
  now rewrite unlimited_appendDocsElementText.
Qed.

Lemma unlimited_concatText (maxBytes : Z) (l : list (option StructuralElement)) :
  (maxBytes <= 0)%Z ->
  concatText (extractedText maxBytes) l = concatText specNestedText l.
Proof.
  intros Hle. unfold concatText. f_equal. apply map_ext.
  intros c. now apply unlimited_extractedText.
Qed.

(** ** The text of an element (C9) *)

(** C9.  With an unlimited budget ([maxBytes <= 0]) the walk writes the
    whole text of an element after what the buffer holds and goes on; that
    text is, for a paragraph, the concatenation of its text runs in order
    (an element without a text run adds nothing); for a table, its rows
    joined by a newline, each row being its cells joined by a tab and each
    cell the concatenation of the extractions of its content; for a table
    of contents, the concatenation of the extractions of its content. *)
Theorem unlimited_extraction_by_kind (maxBytes : Z) :
  (maxBytes <= 0)%Z ->
  (forall c buf,
      appendDocsElementText buf maxBytes c = (buf +:+ extractedText maxBytes c, true))
  /\ (forall si ei para tbl toc,
        extractedText maxBytes (Some (mkStructuralElement si ei (Some para) tbl toc))
        = concatText runText (Paragraph_Elements para))
  /\ (forall si ei tbl toc,
        extractedText maxBytes (Some (mkStructuralElement si ei None (Some tbl) toc))
        = GoString.Join
            (map (fun row =>
                    GoString.Join
                      (map (fun cell =>
                              concatText (extractedText maxBytes) (TableCell_Content cell))
                           (TableRow_TableCells row))
                      GoString.tab)
                 (Table_TableRows tbl))
            GoString.newline)
  /\ (forall si ei toc,
        extractedText maxBytes (Some (mkStructuralElement si ei None None (Some toc)))
        = concatText (extractedText maxBytes) (TableOfContents_Content toc))
  /\ (forall si ei,
        extractedText maxBytes (Some (mkStructuralElement si ei None None None)) = "")
  /\ extractedText maxBytes None = "".
Proof.
  intros Hle. split_and!.
  - intros c buf. rewrite unlimited_extractedText by assumption.
    now apply unlimited_appendDocsElementText.
  - intros. now rewrite unlimited_extractedText.
  - intros. rewrite unlimited_extractedText by assumption. simpl.
    f_equal. apply map_ext. intros row. f_equal. apply map_ext. intros cell.
    symmetry. now apply unlimited_concatText.
  - intros. rewrite unlimited_extractedText by assumption. simpl.
    symmetry. now apply unlimited_concatText.
  - intros. now rewrite unlimited_extractedText.
  - now rewrite unlimited_extractedText.
Qed.

Example docsPlainText_sample :
  docsPlainText sampleDocument 0
  = "a" +:+ GoString.tab +:+ "b" +:+ GoString.newline
    +:+ "1" +:+ GoString.tab +:+ "23" +:+ "xyz".
Proof. reflexivity. Qed.

Example docsPlainText_sample_cut :
  docsPlainText sampleDocument 6
  = "a" +:+ GoString.tab +:+ "b" +:+ GoString.newline +:+ "1" +:+ GoString.tab.
Proof. reflexivity. Qed.

Lemma unlimited_extraction_by_kind_witness :
  (0 <= 0)%Z /\
  appendDocsElementText "> " 0 sampleTable
  = ("> " +:+ extractedText 0 sampleTable, true).
Proof.
  split; [lia|]. apply (unlimited_extraction_by_kind 0). lia.
Defined.

(** ** The budget (C1) *)

(** C1.  Without a budget ([N <= 0]) [docsPlainText] and [tabPlainText]
    return the full text.  With a budget [N > 0] they return exactly its
    first [min N L] bytes, [L] being the length of the full text, hence
    never more than [N] bytes; and at every level of the walk a step within
    the budget either wrote all of its text and lets the walk go on, or
    filled the buffer to exactly the first [N] bytes and stops the walk. *)
Theorem extraction_respects_budget (doc : option Document) (tab : option Tab) (N : Z) :
  ((N <= 0)%Z ->
     docsPlainText doc N = specDocText doc /\ tabPlainText tab N = specTabText tab)
  /\ ((0 < N)%Z ->
        docsPlainText doc N
        = GoString.slice_to (specDocText doc)
            (Nat.min (Z.to_nat N) (String.length (specDocText doc)))
        /\ tabPlainText tab N
           = GoString.slice_to (specTabText tab)
               (Nat.min (Z.to_nat N) (String.length (specTabText tab)))
        /\ (GoString.len (docsPlainText doc N) <= N)%Z
        /\ (GoString.len (tabPlainText tab N) <= N)%Z
        /\ forall (el : option StructuralElement) (buf : Buffer),
             (GoString.len buf <= N)%Z ->
             let '(buf', ok) := appendDocsElementText buf N el in
             if ok
             then buf' = buf +:+ specNestedText el /\ (GoString.len buf' <= N)%Z
             else buf' = GoString.slice_to (buf +:+ specNestedText el) (Z.to_nat N)
                  /\ GoString.len buf' = N).
Proof.
  assert (Hslice : forall s, (0 < N)%Z ->
            GoString.slice_to s (Z.to_nat N)
            = GoString.slice_to s (Nat.min (Z.to_nat N) (String.length s))).
  { intros s HN. destruct (Nat.le_gt_cases (Z.to_nat N) (String.length s)).
    - now rewrite Nat.min_l.
    - rewrite Nat.min_r by lia.
      now rewrite !GoStringFacts.slice_to_all by lia. }
  assert (Hbody : forall b, (0 < N)%Z ->
            bodyPlainText b N = GoString.slice_to (specBodyText b)
              (Nat.min (Z.to_nat N) (String.length (specBodyText b)))).
  { intros b HN. rewrite bodyPlainText_spec.
    destruct (Z.leb_spec N 0); [lia|]. now apply Hslice. }
  assert (Hdoc : (0 < N)%Z ->
            docsPlainText doc N = GoString.slice_to (specDocText doc)
              (Nat.min (Z.to_nat N) (String.length (specDocText doc)))).
  { intros HN. destruct doc as [[[b|]]|]; simpl;
      rewrite ?GoStringFacts.slice_to_empty; auto. }
  assert (Htab : (0 < N)%Z ->
            tabPlainText tab N = GoString.slice_to (specTabText tab)
              (Nat.min (Z.to_nat N) (String.length (specTabText tab)))).
  { intros HN. destruct tab as [[props [[[b|]]|] children]|]; simpl;
      rewrite ?GoStringFacts.slice_to_empty; auto. }
  split.
  - intros HN. split.
    + destruct doc as [[[b|]]|]; simpl; try reflexivity.
      rewrite bodyPlainText_spec. now destruct (Z.leb_spec N 0); [|lia].
    + destruct tab as [[props [[[b|]]|] children]|]; simpl; try reflexivity.
      rewrite bodyPlainText_spec. now destruct (Z.leb_spec N 0); [|lia].
  - intros HN. split; [now apply Hdoc|]. split; [now apply Htab|].
    split; [|split].
    + rewrite Hdoc by assumption. unfold GoString.len.
      rewrite GoStringFacts.slice_to_length. lia.
    + rewrite Htab by assumption. unfold GoString.len.
      rewrite GoStringFacts.slice_to_length. lia.
    + intros el buf Hbuf.
      pose proof (appendDocsElementText_appended N el buf) as H.
      unfold Appended in H. destruct (Z.leb_spec N 0); [lia|].
      destruct (H Hbuf) as [[-> Hlen]|[-> Hlen]].
      * now split.
      * split; [reflexivity|]. unfold GoString.len in *.
        rewrite GoStringFacts.slice_to_length. lia.
Qed.

Lemma extraction_respects_budget_witness :
  ((0 <= 0)%Z /\ docsPlainText sampleDocument 0 = specDocText sampleDocument)
  /\ ((0 < 4)%Z /\ (GoString.len (docsPlainText sampleDocument 4) <= 4)%Z).
Proof.
  split.
  - split; [lia|].
    apply (proj1 (extraction_respects_budget sampleDocument sampleTab 0)). lia.
  - split; [lia|].
    apply (proj2 (extraction_respects_budget sampleDocument sampleTab 4)). lia.
Defined.

(** ** Nil boundaries (C10) *)

(** C10.  At a nil boundary the extraction returns the empty string, for
    every budget: a nil document, a document without body, a nil tab, a
    tab without document tab, a document tab without body. *)
Theorem plain_text_of_nil_is_empty (maxBytes : Z) :
  docsPlainText None maxBytes = ""
  /\ docsPlainText (Some (mkDocument None)) maxBytes = ""
  /\ tabPlainText None maxBytes = ""
  /\ (forall props children,
        tabPlainText (Some (mkTab props None children)) maxBytes = "")
  /\ (forall props children,
        tabPlainText (Some (mkTab props (Some (mkDocumentTab None)) children)) maxBytes = "").
Proof. split_and!; reflexivity. Qed.

(** Induction on a tab with the property at hand for its child tabs. *)
Lemma Tab_nested_ind (P : Tab -> Prop) :
  (forall props dt children,
      Forall (onTab P) children -> P (mkTab props dt children)) ->
  forall t, P t.
Proof.
  intros step. fix IH 1. intros [props dt children].
  apply step. apply ForallBy. intros [t|]; [exact (IH t) | exact I].
Qed.

(** ** The pre-order of positions *)

Section PathOrder.

Lemma pathBefore_irrefl (p : list nat) : ~ pathBefore p p.
Proof. induction p as [|i p IH]; simpl; [tauto|]. intros [H|[_ H]]; [lia | tauto]. Qed.

Lemma pathBefore_asym (p q : list nat) : pathBefore p q -> ~ pathBefore q p.
Proof.
  revert q. induction p as [|i p IH]; intros [|j q]; simpl; try tauto.
  intros [H|[-> H]] [H'|[E H']]; try lia. exact (IH q H H').
Qed.

Lemma pathBefore_cons (k : nat) (p q : list nat) :
  pathBefore p q -> pathBefore (k :: p) (k :: q).
Proof. simpl. tauto. Qed.

Lemma pathBefore_prefix (p r : list nat) : r <> [] -> pathBefore p (p ++ r).
Proof.
  intros Hr. induction p as [|i p IH]; simpl.
  - destruct r; [congruence | exact I].
  - right. split; [reflexivity | exact IH].
Qed.

Lemma pathBefore_sibling (p r r' : list nat) (a b : nat) :
  a < b -> pathBefore (p ++ a :: r) (p ++ b :: r').
Proof.
  intros Hab. induction p as [|i p IH]; simpl; [now left | right; now split].
Qed.

Lemma StronglySorted_map_cons (k : nat) (l : list (list nat)) :
  StronglySorted pathBefore l -> StronglySorted pathBefore (map (cons k) l).
Proof.
  induction 1 as [|p l _ IH Hp]; simpl; constructor; [exact IH|].
  apply List.Forall_forall. intros q [q' [<- Hq']]%in_map_iff.
  apply pathBefore_cons. rewrite List.Forall_forall in Hp. now apply Hp.
Qed.

Lemma StronglySorted_lookup_lt {A : Type} (R : A -> A -> Prop) (l : list A)
    (i j : nat) (x y : A) :
  StronglySorted R l -> l !! i = Some x -> l !! j = Some y -> i < j -> R x y.
Proof.
  intros Hs. revert i j. induction Hs as [|a l _ IH Ha]; intros i j Hi Hj Hij.
  - discriminate.
  - destruct j as [|j]; [lia|]. simpl in Hj. destruct i as [|i]; simpl in Hi.
    + injection Hi as <-. rewrite Forall_forall in Ha. apply Ha.
      eapply list_elem_of_lookup_2. exact Hj.
    + apply (IH i j); [assumption..|lia].
Qed.

(** In a list sorted by an irreflexive, asymmetric order, the order of
    two entries decides the order of their indices. *)
Lemma StronglySorted_index_order (l : list (list nat)) (i j : nat) (p q : list nat) :
  StronglySorted pathBefore l ->
  l !! i = Some p -> l !! j = Some q -> pathBefore p q -> i < j.
Proof.
  intros Hs Hi Hj Hpq. destruct (Nat.lt_trichotomy i j) as [H|[->|H]]; [exact H| |].
  - rewrite Hi in Hj. injection Hj as <-. now apply pathBefore_irrefl in Hpq.
  - pose proof (StronglySorted_lookup_lt _ _ _ _ _ _ Hs Hj Hi H) as Hqp.
    now apply pathBefore_asym in Hpq.
Qed.
End PathOrder.

Section FlatMapIdxFacts.
Context {A B : Type} (f : nat -> A -> list B).

Lemma in_flatMapIdx (b : B) (l : list A) :
  forall k, In b (flatMapIdx f k l) <->
            exists i x, l !! i = Some x /\ In b (f (k + i) x).
Proof.
  induction l as [|a l IH]; intros k; simpl.
  - split; [tauto | intros (i & x & H & _); discriminate].
  - rewrite in_app_iff, IH. split.
    + intros [H|(i & x & Hi & H)].
      * exists 0, a. now rewrite Nat.add_0_r.
      * exists (S i), x. now rewrite Nat.add_succ_r.
    + intros ([|i] & x & Hi & H); simpl in Hi.
      * injection Hi as <-. left. now rewrite Nat.add_0_r in H.
      * right. exists i, x. now rewrite Nat.add_succ_r in H.
Qed.

Lemma flatMapIdx_snoc (l : list A) (x : A) :
  forall k, flatMapIdx f k (l ++ [x]) = flatMapIdx f k l ++ f (k + length l) x.
Proof.
  induction l as [|a l IH]; intros k; simpl.
  - now rewrite Nat.add_0_r, app_nil_r.
  - now rewrite IH, <- app_assoc, Nat.add_succ_r.
Qed.
End FlatMapIdxFacts.

(** ** [flattenTabs] lists the tabs in pre-order (C8) *)

Section FlattenFacts.

Lemma flattenTab_eq (t : Tab) : flattenTab t = t :: flattenTabs (Tab_ChildTabs t).
Proof. destruct t as [props dt [|c children]]; reflexivity. Qed.

(** The equations of the loop of [flattenTabs]. *)
Lemma flattenTabs_nil_entry (rest : list (option Tab)) :
  flattenTabs (None :: rest) = flattenTabs rest.
Proof. reflexivity. Qed.

Lemma flattenTabs_entry (tab : Tab) (rest : list (option Tab)) :
  flattenTabs (Some tab :: rest) =
  (tab :: (if (0 <? length (Tab_ChildTabs tab))%nat
           then flattenTabs (Tab_ChildTabs tab) else []))
  ++ flattenTabs rest.
Proof. destruct tab; reflexivity. Qed.

Lemma tabPositions_eq (t : Tab) :
  tabPositions t = [] :: forestPositions (Tab_ChildTabs t).
Proof. destruct t; reflexivity. Qed.

Lemma subtab_cons (tabs : list (option Tab)) (i : nat) (rest : list nat) :
  subtab tabs (i :: rest) =
  match tabs !! i with
  | Some (Some t) => descend t rest
  | _ => None
  end.
Proof. destruct rest; reflexivity. Qed.

Lemma in_forestPositions (tabs : list (option Tab)) (p : list nat) :
  In p (forestPositions tabs) <->
  exists i t r, p = i :: r /\ tabs !! i = Some (Some t) /\ In r (tabPositions t).
Proof.
  unfold forestPositions. rewrite in_flatMapIdx. split.
  - intros (i & [t|] & Hi & H); simpl in H; [|tauto].
    apply in_map_iff in H as (r & <- & Hr). now exists i, t, r.
  - intros (i & t & r & -> & Hi & Hr). exists i, (Some t). split; [exact Hi|].
    simpl. apply in_map_iff. now exists r.
Qed.

Lemma forest_read (tabs : list (option Tab)) :
  Forall (onTab PositionsOk) tabs ->
  map (subtab tabs) (forestPositions tabs) = map Some (flattenTabs tabs).
Proof.
  induction tabs as [|c l IH] using rev_ind; [reflexivity|].
  intros [Hl Hc]%Forall_app. apply Forall_inv in Hc.
  unfold forestPositions, flattenTabs in *.
  rewrite flatMapIdx_snoc, flat_map_app, !map_app. simpl flat_map.
  rewrite app_nil_r. f_equal.
  - rewrite <- (IH Hl). apply map_ext_in. intros p Hp.
    apply in_forestPositions in Hp as (i & t & r & -> & Hi & _).
    rewrite !subtab_cons. now rewrite (lookup_app_l_Some _ _ _ _ Hi), Hi.
  - destruct c as [t|]; [|reflexivity]. simpl. rewrite map_map.
    destruct Hc as [Hread _]. rewrite <- Hread. apply map_ext. intros r.
    rewrite subtab_cons. now rewrite list_lookup_middle.
Qed.

Lemma forest_positions (tabs : list (option Tab)) (p : list nat) :
  Forall (onTab PositionsOk) tabs ->
  In p (forestPositions tabs) <-> is_Some (subtab tabs p).
Proof.
  intros Hall. rewrite in_forestPositions. split.
  - intros (i & t & r & -> & Hi & Hr). rewrite subtab_cons, Hi.
    pose proof (Forall_lookup_1 _ _ _ _ Hall Hi) as [_ [Hpos _]].
    now apply Hpos.
  - destruct p as [|i r]; [intros [? [=]]|].
    rewrite subtab_cons. destruct (tabs !! i) as [[t|]|] eqn:Hi.
    + intros Hsome. exists i, t, r. split; [reflexivity|]. split; [exact Hi|].
      pose proof (Forall_lookup_1 _ _ _ _ Hall Hi) as [_ [Hpos _]].
      now apply Hpos.
    + intros [? [=]].
    + intros [? [=]].
Qed.

Lemma forest_sorted (tabs : list (option Tab)) :
  Forall (onTab PositionsOk) tabs ->
  forall k, StronglySorted pathBefore (flatMapIdx childPositions k tabs).
Proof.
  induction 1 as [|c l Hc _ IH]; intros k; simpl; [constructor|].
  apply StronglySorted_app_2.
  - intros p q Hp%list_elem_of_In Hq%list_elem_of_In.
    destruct c as [t|]; simpl in Hp; [|tauto].
    apply in_map_iff in Hp as (r & <- & _).
    apply in_flatMapIdx in Hq as (i & [t'|] & _ & Hq); simpl in Hq; [|tauto].
    apply in_map_iff in Hq as (r' & <- & _). simpl. left. lia.
  - destruct c as [t|]; simpl; [|constructor].
    apply StronglySorted_map_cons. apply Hc.
  - apply IH.
Qed.

Lemma positions_ok (t : Tab) : PositionsOk t.
Proof.
  induction t as [props dt children IH] using Tab_nested_ind.
  unfold PositionsOk. rewrite tabPositions_eq, flattenTab_eq. simpl Tab_ChildTabs.
  split; [|split].
  - simpl. f_equal. rewrite <- (forest_read children IH).
    apply map_ext_in. intros p Hp.
    apply in_forestPositions in Hp as (i & t & r & -> & _). reflexivity.
  - intros [|i r]; simpl.
    + split; [intros _; now exists (mkTab props dt children) | now left].
    + rewrite <- (forest_positions children (i :: r) IH). split.
      * now intros [[=]|H].
      * now right.
  - constructor; [apply (forest_sorted children IH)|].
    apply List.Forall_forall. intros p Hp.
    apply in_forestPositions in Hp as (i & t & r & -> & _). exact I.
Qed.

Lemma all_positions_ok (tabs : list (option Tab)) : Forall (onTab PositionsOk) tabs.
Proof.
  apply List.Forall_forall. intros [t|] _; simpl; [apply positions_ok | exact I].
Qed.
End FlattenFacts.

(** C8.  [flattenTabs] returns the tabs of the tree in pre-order.  Reading
    the tree at the listed positions gives the result; a position is
    listed exactly when it holds a (non-nil) tab, and no position is
    listed twice, so every non-nil tab appears exactly once; entries come
    in the pre-order of their positions, so a tab comes before each of its
    descendants and the subtree of an earlier sibling comes before that of
    a later one; and the tree [A[B[D,E],C]] flattens to [A,B,D,E,C]. *)
Theorem flattenTabs_preorder :
  (forall tabs : list (option Tab),
     let ps := forestPositions tabs in
     map (subtab tabs) ps = map Some (flattenTabs tabs)
     /\ (forall p, In p ps <-> is_Some (subtab tabs p))
     /\ NoDup ps
     /\ (forall i j p q,
           ps !! i = Some p -> ps !! j = Some q -> (i < j <-> pathBefore p q))
     /\ (forall i j p r,
           ps !! i = Some p -> ps !! j = Some (p ++ r) -> r <> [] -> i < j)
     /\ (forall i j p a b r r',
           ps !! i = Some (p ++ a :: r) -> ps !! j = Some (p ++ b :: r') ->
           a < b -> i < j))
  /\ flattenTabs [Some tabA] = [tabA; tabB; tabD; tabE; tabC].
Proof.
  split; [|reflexivity]. intros tabs ps.
  pose proof (all_positions_ok tabs) as Hall.
  assert (Hsorted : StronglySorted pathBefore ps) by apply (forest_sorted tabs Hall 0).
  assert (Horder : forall i j p q,
             ps !! i = Some p -> ps !! j = Some q -> pathBefore p q -> i < j).
  { intros i j p q. now apply StronglySorted_index_order. }
  split_and!.
  - now apply forest_read.
  - intros p. now apply forest_positions.
  - apply NoDup_alt. intros i j p Hi Hj.
    destruct (Nat.lt_trichotomy i j) as [H|[H|H]]; [|exact H|].
    + pose proof (StronglySorted_lookup_lt _ _ _ _ _ _ Hsorted Hi Hj H) as Hpp.
      now apply pathBefore_irrefl in Hpp.
    + pose proof (StronglySorted_lookup_lt _ _ _ _ _ _ Hsorted Hj Hi H) as Hpp.
      now apply pathBefore_irrefl in Hpp.
  - intros i j p q Hi Hj. split.
    + now apply StronglySorted_lookup_lt with (l := ps).
    + now apply Horder.
  - intros i j p r Hi Hj Hr. apply (Horder i j p (p ++ r) Hi Hj).
    now apply pathBefore_prefix.
  - intros i j p a b r r' Hi Hj Hab.
    apply (Horder i j _ _ Hi Hj). now apply pathBefore_sibling.
Qed.

(** In [A[B[D,E],C]] the tab [B], at position [0;0], is listed before its
    later sibling [C], at position [0;1]. *)
Lemma flattenTabs_preorder_witness :
  forestPositions [Some tabA] !! 1%nat = Some ([0] ++ 0 :: [])
  /\ forestPositions [Some tabA] !! 4%nat = Some ([0] ++ 1 :: [])
  /\ 0 < 1
  /\ 1 < 4.
Proof.
  split; [reflexivity|]. split; [reflexivity|]. split; [lia|].
  exact (proj2 (proj2 (proj2 (proj2 (proj2
    (proj1 flattenTabs_preorder [Some tabA])))))
    1%nat 4%nat [0] 0 1 [] [] eq_refl eq_refl (Nat.lt_0_1)).
Defined.

(** ** [findTab] (C7) *)

Section FindTabFacts.
Variables TrimSpace ToLower : string -> string.

Lemma idMatches_hasId (q : string) (tab : Tab) :
  idMatches q tab = true <-> hasId q tab.
Proof.
  unfold idMatches, hasId. destruct (Tab_TabProperties tab) as [props|].
  - rewrite String.eqb_eq. split.
    + intros H. now exists props.
    + now intros (props' & [= <-] & H).
  - split; [discriminate | now intros (? & [=] & _)].
Qed.

Lemma titleMatches_hasTitle (q : string) (tab : Tab) :
  titleMatches ToLower (ToLower q) tab = true <-> hasTitle ToLower q tab.
Proof.
  unfold titleMatches, hasTitle. destruct (Tab_TabProperties tab) as [props|].
  - rewrite String.eqb_eq. split.
    + intros H. now exists props.
    + now intros (props' & [= <-] & H).
  - split; [discriminate | now intros (? & [=] & _)].
Qed.

Lemma find_firstWith (f : Tab -> bool) (P : Tab -> Prop) (tabs : list Tab) (t : Tab) :
  (forall u, f u = true <-> P u) ->
  firstWith P tabs t -> List.find f tabs = Some t.
Proof.
  intros Hf (before & after & -> & Ht & Hbefore).
  induction Hbefore as [|u before Hu _ IH]; simpl.
  - now rewrite (proj2 (Hf t) Ht).
  - destruct (f u) eqn:E; [|exact IH]. now apply Hf in E.
Qed.

Lemma find_none_with (f : Tab -> bool) (P : Tab -> Prop) (tabs : list Tab) :
  (forall u, f u = true <-> P u) ->
  Forall (fun u => ~ P u) tabs -> List.find f tabs = None.
Proof.
  intros Hf. induction 1 as [|u l Hu _ IH]; simpl; [reflexivity|].
  destruct (f u) eqn:E; [|exact IH]. now apply Hf in E.
Qed.

Lemma findTab_contract (tabs : list Tab) (query : string) :
  FindTabContract ToLower (TrimSpace query) tabs
    (findTab TrimSpace ToLower tabs query).
Proof.
  unfold FindTabContract, findTab. split_and!.
  - intros t Ht.
    now rewrite (find_firstWith _ _ _ _ (idMatches_hasId _) Ht).
  - intros Hnone t Ht.
    rewrite (find_none_with _ _ _ (idMatches_hasId _) Hnone).
    exact (find_firstWith _ _ _ _ (titleMatches_hasTitle _) Ht).
  - intros Hid Htitle.
    rewrite (find_none_with _ _ _ (idMatches_hasId _) Hid).
    exact (find_none_with _ _ _ (titleMatches_hasTitle _) Htitle).
Qed.
End FindTabFacts.

(** C7 as the specification words it fails: the query is compared after
    [strings.TrimSpace].  For the query [" t1"] no tab has that identifier
    and none has that title, yet [findTab] returns the tab whose
    identifier is ["t1"]. *)
Lemma findTab_untrimmed_query_counterexample :
  ~ FindTabContract Ascii7.ToLower " t1" [tabIntro]
      (findTab Ascii7.TrimSpace Ascii7.ToLower [tabIntro] " t1").
Proof.
  intros (_ & _ & Hnone).
  assert (Hid : Forall (fun u => ~ hasId " t1" u) [tabIntro]).
  { repeat constructor. intros (props & [= <-] & [=]). }
  assert (Htitle : Forall (fun u => ~ hasTitle Ascii7.ToLower " t1" u) [tabIntro]).
  { repeat constructor. intros (props & [= <-] & [=]). }
  specialize (Hnone Hid Htitle). discriminate Hnone.
Qed.

(** C7, amended.  With [q] the query after [strings.TrimSpace]: [findTab]
    returns the first tab whose identifier is [q], even when an earlier
    tab is titled [q]; when no identifier is [q], the first tab whose
    title equals [q] up to case ([strings.ToLower] of both); and no tab
    when neither exists. *)
Theorem findTab_id_then_title (TrimSpace ToLower : string -> string)
    (tabs : list Tab) (query : string) :
  let q := TrimSpace query in
  (forall t, firstWith (hasId q) tabs t ->
             findTab TrimSpace ToLower tabs query = Some t)
  /\ (Forall (fun u => ~ hasId q u) tabs ->
      forall t, firstWith (hasTitle ToLower q) tabs t ->
                findTab TrimSpace ToLower tabs query = Some t)
  /\ (Forall (fun u => ~ hasId q u) tabs ->
      Forall (fun u => ~ hasTitle ToLower q u) tabs ->
      findTab TrimSpace ToLower tabs query = None).
Proof. exact (findTab_contract TrimSpace ToLower tabs query). Qed.

(** The identifier wins over the title of an earlier tab: the trimmed
    query ["t2"] is the title of the first tab up to case and the
    identifier of the second, and the second is returned. *)
Lemma findTab_id_then_title_witness :
  hasTitle Ascii7.ToLower (Ascii7.TrimSpace "  t2 ") tabIntro
  /\ firstWith (hasId (Ascii7.TrimSpace "  t2 ")) [tabIntro; tabNotes] tabNotes
  /\ findTab Ascii7.TrimSpace Ascii7.ToLower [tabIntro; tabNotes] "  t2 " = Some tabNotes.
Proof.
  assert (H : firstWith (hasId (Ascii7.TrimSpace "  t2 ")) [tabIntro; tabNotes] tabNotes).
  { exists [tabIntro], []. split; [reflexivity|]. split.
    - now eexists.
    - repeat constructor. intros (props & [= <-] & [=]). }
  split; [now eexists|]. split; [exact H|].
  exact (proj1 (findTab_id_then_title Ascii7.TrimSpace Ascii7.ToLower
                  [tabIntro; tabNotes] "  t2 ") tabNotes H).
Defined.

(** ** 64-bit arithmetic *)

Section Wrap64Facts.
Local Open Scope Z_scope.

Lemma wrap64_inInt64 (z : Z) : inInt64 z -> wrap64 z = z.
Proof.
  unfold inInt64, wrap64. intros H. rewrite Z.mod_small by lia. lia.
Qed.

Lemma wrap64_add_wrap_r (a b : Z) : wrap64 (a + wrap64 b) = wrap64 (a + b).
Proof.
  unfold wrap64. f_equal.
  replace (a + ((b + 2 ^ 63) mod 2 ^ 64 - 2 ^ 63) + 2 ^ 63)
    with (a + (b + 2 ^ 63) mod 2 ^ 64) by lia.
  rewrite Zplus_mod_idemp_r. f_equal. lia.
Qed.

Lemma wrap64_add_wrap_l (a b : Z) : wrap64 (wrap64 a + b) = wrap64 (a + b).
Proof. rewrite Z.add_comm, wrap64_add_wrap_r. f_equal. lia. Qed.
End Wrap64Facts.

(** ** The deferred table pass *)

Section TableRunFacts.
Context (remote : Remote) (id : string).

Lemma insertTables_run (tables : list TableData) :
  forall tableOffset h,
  exists calls result,
    insertTables remote id tables tableOffset h
    = (result, h ++ map (insertEvent id) calls)
    /\ TableRun tables tableOffset calls result.
Proof.
  induction tables as [|table rest IH]; intros tableOffset h; simpl.
  - exists [], None. simpl. rewrite app_nil_r. split; [reflexivity | constructor].
  - unfold mbind, M_bind, InsertNativeTable, call.
    destruct (remote_InsertNativeTable remote h id
                (wrap64 (TableData_StartIndex table + tableOffset))
                (TableData_Cells table)) as [tableEnd|err] eqn:E.
    + edestruct IH as (calls & result & -> & Hrun).
      exists ((wrap64 (TableData_StartIndex table + tableOffset),
               TableData_Cells table, Ok tableEnd) :: calls), result.
      split.
      * simpl. rewrite <- app_assoc. reflexivity.
      * apply TableRun_next. exact Hrun.
    + exists [(wrap64 (TableData_StartIndex table + tableOffset),
               TableData_Cells table, Fail err)],
             (Some (Errorf "insert native table" err)).
      split; [reflexivity | constructor].
Qed.

Lemma TableRun_cells (tables : list TableData) (tableOffset : Z)
    (calls : list TableCall) (result : option error) :
  TableRun tables tableOffset calls result ->
  map callCells calls = take (length calls) (map TableData_Cells tables)
  /\ (result = None -> length calls = length tables).
Proof.
  induction 1 as [off|table rest off err|table rest off tableEnd calls result idx _ [IH1 IH2]];
    simpl.
  - now split.
  - now split.
  - rewrite IH1. split; [reflexivity|]. intros H. now rewrite IH2.
Qed.

Lemma TableRun_failure (tables : list TableData) (tableOffset : Z)
    (calls : list TableCall) (result : option error) :
  TableRun tables tableOffset calls result ->
  forall k tableIndex cells err,
    calls !! k = Some (tableIndex, cells, Fail err) ->
    result = Some (Errorf "insert native table" err) /\ length calls = S k.
Proof.
  induction 1 as [off|table rest off err|table rest off tableEnd calls result idx _ IH];
    intros k tableIndex cells e Hk.
  - discriminate.
  - destruct k as [|k]; [|discriminate]. now injection Hk as _ _ <-.
  - destruct k as [|k]; [discriminate|]. simpl in Hk.
    destruct (IH _ _ _ _ Hk) as [-> Hlen]. split; [reflexivity|]. simpl. now rewrite Hlen.
Qed.

Lemma TableRun_success (tables : list TableData) (tableOffset : Z)
    (calls : list TableCall) (result : option error) :
  TableRun tables tableOffset calls result ->
  (forall c, In c calls -> exists tableEnd, c.2 = Ok tableEnd) ->
  result = None.
Proof.
  induction 1 as [off|table rest off err|table rest off tableEnd calls result idx _ IH];
    intros Hall.
  - reflexivity.
  - destruct (Hall _ (or_introl eq_refl)) as [? [=]].
  - apply IH. intros c Hc. apply Hall. now right.
Qed.

Lemma TableRun_placement (tables : list TableData) (tableOffset : Z)
    (calls : list TableCall) (result : option error) :
  TableRun tables tableOffset calls result ->
  forall k tableIndex cells res,
    calls !! k = Some (tableIndex, cells, res) ->
    Forall endsBeyond (take k calls) ->
    exists table,
      tables !! k = Some table
      /\ tableIndex
         = wrap64 (TableData_StartIndex table + tableOffset + netDrift (take k calls)).
Proof.
  induction 1 as [off|table rest off err|table rest off tableEnd calls result idx _ IH];
    intros k tableIndex cells res Hk Hbeyond.
  - discriminate.
  - destruct k as [|k]; [|discriminate]. injection Hk as <- _ _.
    exists table. split; [reflexivity|]. simpl. f_equal. lia.
  - destruct k as [|k]; simpl in Hk.
    + injection Hk as <- _ _. exists table. split; [reflexivity|].
      simpl. subst idx. f_equal. lia.
    + simpl in Hbeyond. apply Forall_cons in Hbeyond as [Hfirst Hbeyond].
      destruct (IH _ _ _ _ Hk Hbeyond) as (t & Ht & ->).
      exists t. split; [exact Ht|]. simpl in Hfirst. simpl.
      unfold nextTableOffset. destruct (Z.gtb_spec tableEnd idx) as [_|]; [|lia].
      rewrite <- Z.add_assoc, (Z.add_comm (wrap64 _)), Z.add_assoc.
      rewrite wrap64_add_wrap_r.
      replace (TableData_StartIndex t + netDrift (take k calls)
               + (off + wrap64 (wrap64 (tableEnd - idx) - 1)))%Z
        with (TableData_StartIndex t + netDrift (take k calls) + off
              + wrap64 (wrap64 (tableEnd - idx) - 1))%Z by lia.
      rewrite wrap64_add_wrap_r.
      replace (TableData_StartIndex t + netDrift (take k calls) + off
               + (wrap64 (tableEnd - idx) - 1))%Z
        with (wrap64 (tableEnd - idx)
              + (TableData_StartIndex t + netDrift (take k calls) + off - 1))%Z by lia.
      rewrite wrap64_add_wrap_l. f_equal. lia.
Qed.
End TableRunFacts.

(** ** [Run]: one batch, then the tables *)

Lemma insertEvent_inj (id : string) (c c' : TableCall) :
  insertEvent id c = insertEvent id c' -> c = c'.
Proof. destruct c as [[? ?] ?], c' as [[? ?] ?]. simpl. now intros [= -> -> ->]. Qed.

Lemma map_insertEvent_inj (id : string) (calls calls' : list TableCall) :
  map (insertEvent id) calls = map (insertEvent id) calls' -> calls = calls'.
Proof.
  revert calls'. induction calls as [|c calls IH]; intros [|c' calls']; simpl;
    try discriminate; [reflexivity|].
  intros [= Hc Hrest]. f_equal; [now apply (insertEvent_inj id) | now apply IH].
Qed.

(** A history that consists of [h], one batch update and table calls
    determines the batch and the calls. *)
Lemma update_history_inj (h : History) (id : string)
    (requests requests' : list Request) (err err' : option error)
    (calls calls' : list TableCall) :
  h ++ EvBatchUpdate id requests err :: map (insertEvent id) calls
  = h ++ EvBatchUpdate id requests' err' :: map (insertEvent id) calls' ->
  requests = requests' /\ err = err' /\ calls = calls'.
Proof.
  intros H. apply app_inv_head in H. injection H as -> -> H.
  now apply map_insertEvent_inj in H.
Qed.

Section RunFacts.
Context {MarkdownElement : Type}.
Variable ParseMarkdown : string -> list MarkdownElement.
Variable MarkdownToDocsRequests :
  list MarkdownElement -> Z -> list Request * string * list TableData.
Variable remote : Remote.

Lemma Run_run (id : string) (append : bool) (format : ContentFormat)
    (content : string) (doc : Document) (report : option error) (h : History)
    (formatting : list Request) (text : string) (tables : list TableData) :
  compileContent ParseMarkdown MarkdownToDocsRequests format content
    (baseIndex append doc) = (formatting, text, tables) ->
  exists batchErr calls result,
    Run ParseMarkdown MarkdownToDocsRequests remote id append format content doc report h
    = (result,
       h ++ EvBatchUpdate id (buildRequests append format doc formatting text) batchErr
         :: map (insertEvent id) calls)
    /\ match batchErr with
       | Some e => calls = [] /\ result = Some (Errorf "update document" e)
       | None =>
           exists tablesResult,
             TableRun tables 0 calls tablesResult
             /\ result = match tablesResult with Some e => Some e | None => report end
       end.
Proof.
  intros Hcompile. unfold Run. rewrite Hcompile.
  unfold mbind, M_bind, mret, M_ret, BatchUpdate, call.
  set (requests := buildRequests append format doc formatting text).
  destruct (remote_BatchUpdate remote h id requests) as [e|] eqn:Hbatch.
  - exists (Some e), [], (Some (Errorf "update document" e)). simpl.
    split; [reflexivity | now split].
  - destruct (insertTables_run remote id tables 0 (h ++ [EvBatchUpdate id requests None]))
      as (calls & tablesResult & Hrun & Htrace).
    exists None, calls, (match tablesResult with Some e => Some e | None => report end).
    split.
    + destruct tables as [|table rest].
      * inversion Htrace; subst. simpl. reflexivity.
      * change (0 <? length (table :: rest))%nat with true. cbv iota.
        rewrite Hrun. rewrite <- app_assoc. simpl. now destruct tablesResult.
    + now exists tablesResult.
Qed.
End RunFacts.

(** ** Where the tables are placed (C2) *)

(** C2 as the specification words it fails from the third table on: the offset
    accumulates the end index less the index the table was {e placed} at,
    not less the start offset of its descriptor.  With tables at 10, 20, 30
    that each end five units after their placement, the third table is
    placed at 38, whereas [30 + (15 - 10 - 1) + (29 - 20 - 1) = 42]. *)
Lemma placement_from_start_offsets_counterexample :
  ~ PlacementRule driftFromStarts obligingRemote "doc" threeTables [].
Proof.
  intros Hrule.
  assert (Hsorted : StronglySorted Z.lt (map TableData_StartIndex threeTables)).
  { repeat constructor; lia. }
  assert (Hrun : insertTables obligingRemote "doc" threeTables 0 []
                 = (None, [] ++ map (insertEvent "doc") threeCalls)) by reflexivity.
  assert (Hbeyond : Forall endsBeyond (take 2 threeCalls)).
  { repeat constructor; simpl; lia. }
  destruct (Hrule Hsorted threeCalls None Hrun 2%nat 38%Z [["c"]] (Ok 43%Z)
              eq_refl Hbeyond) as (table & [= <-] & Hidx).
  vm_compute in Hidx. discriminate Hidx.
Qed.

(** C2, amended.  The loop always runs to an end, and in a run from
    offset 0 the [k]-th call places its table at the start offset of the
    [k]-th descriptor plus the sum, over the calls before it, of the end
    index returned less the index that table was placed at, less one --
    in 64-bit arithmetic, and exactly when that sum stays in the 64-bit
    range -- provided each earlier call ended beyond its placement. *)
Theorem table_placement_cumulative (remote : Remote) (id : string)
    (tables : list TableData) (h : History) :
  (exists calls result,
      insertTables remote id tables 0 h = (result, h ++ map (insertEvent id) calls))
  /\ forall calls result,
      insertTables remote id tables 0 h = (result, h ++ map (insertEvent id) calls) ->
      forall k tableIndex cells res,
        calls !! k = Some (tableIndex, cells, res) ->
        Forall endsBeyond (take k calls) ->
        exists table,
          tables !! k = Some table
          /\ tableIndex = wrap64 (TableData_StartIndex table + netDrift (take k calls))
          /\ (inInt64 (TableData_StartIndex table + netDrift (take k calls)) ->
              tableIndex = (TableData_StartIndex table + netDrift (take k calls))%Z).
Proof.
  destruct (insertTables_run remote id tables 0 h) as (calls0 & result0 & Hrun0 & Htrace).
  split; [now exists calls0, result0|].
  intros calls result Hrun k tableIndex cells res Hk Hbeyond.
  rewrite Hrun0 in Hrun. injection Hrun as _ Hh.
  apply app_inv_head, map_insertEvent_inj in Hh. subst calls0.
  destruct (TableRun_placement _ _ _ _ Htrace _ _ _ _ Hk Hbeyond) as (table & Ht & Hidx).
  rewrite Z.add_0_r in Hidx.
  exists table. split; [exact Ht|]. split; [exact Hidx|].
  intros Hrange. now rewrite Hidx, wrap64_inInt64.
Qed.

Lemma table_placement_cumulative_witness :
  insertTables obligingRemote "doc" threeTables 0 []
  = (None, [] ++ map (insertEvent "doc") threeCalls)
  /\ threeCalls !! 2%nat = Some (38%Z, [["c"]], Ok 43%Z)
  /\ Forall endsBeyond (take 2 threeCalls)
  /\ exists table,
       threeTables !! 2%nat = Some table
       /\ 38%Z = wrap64 (TableData_StartIndex table + netDrift (take 2 threeCalls))
       /\ (inInt64 (TableData_StartIndex table + netDrift (take 2 threeCalls)) ->
           38%Z = (TableData_StartIndex table + netDrift (take 2 threeCalls))%Z).
Proof.
  assert (Hbeyond : Forall endsBeyond (take 2 threeCalls)).
  { repeat constructor; simpl; lia. }
  split; [reflexivity|]. split; [reflexivity|]. split; [exact Hbeyond|].
  exact (proj2 (table_placement_cumulative obligingRemote "doc" threeTables [])
           threeCalls None eq_refl 2%nat 38%Z [["c"]] (Ok 43%Z) eq_refl Hbeyond).
Defined.

(** ** The order of the markdown update (C4) *)

Lemma lastElement_spec (doc : Document) (lastEl : StructuralElement) :
  lastElement doc = Some lastEl <->
  exists body, Document_Body doc = Some body
               /\ last (Body_Content body) = Some (Some lastEl).
Proof.
  unfold lastElement. destruct (Document_Body doc) as [body|].
  - split.
    + destruct (last (Body_Content body)) as [[el|]|] eqn:Hlast; try discriminate.
      intros [= ->]. now exists body.
    + intros (b & [= <-] & ->). reflexivity.
  - split; [discriminate | now intros (b & [=] & _)].
Qed.

(** C4.  In the markdown path the command issues a single batch update
    and after it only table insertions.  The batch is, in this order: in
    replace mode one [DeleteContentRange] from 1 to the end of the content
    when the body of the document has a last element that ends beyond
    index 2 (the document is not empty) and none otherwise, never one in
    append mode; then the [InsertText] of the plain text, at index 1 in
    replace mode; then the formatting requests, each of them after the
    [InsertText].  No table is inserted when the batch fails; otherwise
    the tables are inserted in their compile order, all of them unless an
    insertion fails.  (The formatter is a parameter: its requests are
    assumed to be text-style requests.) *)
Theorem markdown_update_order {MarkdownElement : Type}
    (ParseMarkdown : string -> list MarkdownElement)
    (MarkdownToDocsRequests :
       list MarkdownElement -> Z -> list Request * string * list TableData)
    (remote : Remote) (id : string) (append : bool) (content : string)
    (doc : Document) (report : option error) (h : History)
    (formatting : list Request) (text : string) (tables : list TableData) :
  MarkdownToDocsRequests (ParseMarkdown content) (baseIndex append doc)
  = (formatting, text, tables) ->
  Forall (fun r => isTextStyle r = true) formatting ->
  let clearing := if append then [] else deleteExisting doc in
  let requests := clearing ++ InsertText (insertIndex append doc) text :: formatting in
  (append = false ->
   forall body lastEl,
     Document_Body doc = Some body ->
     last (Body_Content body) = Some (Some lastEl) ->
     (2 < StructuralElement_EndIndex lastEl)%Z ->
     requests
     = DeleteContentRange 1 (StructuralElement_EndIndex lastEl - 1)
       :: InsertText 1 text :: formatting)
  /\ (append = false ->
      (forall body lastEl,
         Document_Body doc = Some body ->
         last (Body_Content body) = Some (Some lastEl) ->
         ~ (2 < StructuralElement_EndIndex lastEl)%Z) ->
      requests = InsertText 1 text :: formatting)
  /\ (append = true -> clearing = [])
  /\ List.filter isDeleteContentRange requests = clearing
  /\ requests !! length clearing = Some (InsertText (insertIndex append doc) text)
  /\ (forall j r, requests !! j = Some r -> isTextStyle r = true -> length clearing < j)
  /\ exists batchErr calls result,
       Run ParseMarkdown MarkdownToDocsRequests remote id append FormatMarkdown
           content doc report h
       = (result, h ++ EvBatchUpdate id requests batchErr :: map (insertEvent id) calls)
       /\ (forall e, batchErr = Some e ->
                     calls = [] /\ result = Some (Errorf "update document" e))
       /\ map callCells calls = take (length calls) (map TableData_Cells tables)
       /\ (batchErr = None ->
           (forall c, In c calls -> exists tableEnd, c.2 = Ok tableEnd) ->
           map callCells calls = map TableData_Cells tables).
Proof.
  intros Hcompile Hstyle clearing requests.
  assert (Hclearing : Forall (fun r => isDeleteContentRange r = true
                                        /\ isTextStyle r = false) clearing).
  { subst clearing. destruct append; [constructor|]. unfold deleteExisting.
    destruct (lastElement doc) as [lastEl|]; [|constructor].
    destruct (_ >? _)%Z; repeat constructor. }
  assert (Hfmt : List.filter isDeleteContentRange formatting = []).
  { clear -Hstyle. induction Hstyle as [|r l Hr _ IH]; [reflexivity|].
    simpl. destruct r; try discriminate. exact IH. }
  split_and!.
  - intros -> body lastEl Hbody Hlast Hend. subst requests clearing.
    assert (Hel : lastElement doc = Some lastEl).
    { apply lastElement_spec. now exists body. }
    unfold deleteExisting. rewrite Hel.
    now destruct (Z.gtb_spec (StructuralElement_EndIndex lastEl) 2); [|lia].
  - intros -> Hempty. subst requests clearing. unfold deleteExisting.
    destruct (lastElement doc) as [lastEl|] eqn:Hel; [|reflexivity].
    destruct (Z.gtb_spec (StructuralElement_EndIndex lastEl) 2) as [Hgt|]; [|reflexivity].
    exfalso. apply lastElement_spec in Hel as (body & Hbody & Hlast).
    apply (Hempty body lastEl Hbody Hlast). lia.
  - now intros ->.
  - subst requests. rewrite List.filter_app. simpl. rewrite Hfmt, app_nil_r.
    clear -Hclearing. induction Hclearing as [|r l [Hr _] _ IH]; [reflexivity|].
    simpl. rewrite Hr. now rewrite IH.
  - subst requests. now rewrite list_lookup_middle.
  - intros j r Hj Hr. subst requests.
    destruct (Nat.lt_trichotomy j (length clearing)) as [Hlt|[->|Hgt]]; [| |exact Hgt].
    + rewrite lookup_app_l in Hj by exact Hlt.
      rewrite Forall_lookup in Hclearing. destruct (Hclearing _ _ Hj) as [_ Hns].
      congruence.
    + rewrite list_lookup_middle in Hj by reflexivity. now injection Hj as <-.
  - destruct (Run_run ParseMarkdown MarkdownToDocsRequests remote id append
                FormatMarkdown content doc report h formatting text tables Hcompile)
      as (batchErr & calls & result & Hrun & Hrest).
    exists batchErr, calls, result.
    assert (Hreq : buildRequests append FormatMarkdown doc formatting text = requests).
    { subst requests clearing. unfold buildRequests. now destruct append. }
    rewrite Hreq in Hrun. split; [exact Hrun|].
    destruct batchErr as [e|].
    + destruct Hrest as [-> ->]. split_and!.
      * now intros e' [= <-].
      * reflexivity.
      * discriminate.
    + destruct Hrest as (tablesResult & Htrace & ->).
      destruct (TableRun_cells _ _ _ _ Htrace) as [Hcells Hall]. split_and!.
      * discriminate.
      * exact Hcells.
      * intros _ Hok. rewrite Hcells.
        rewrite (Hall (TableRun_success _ _ _ _ Htrace Hok)).
        rewrite <- (length_map TableData_Cells). apply firstn_all.
Qed.

(** Replacing the content of the sample document, whose body ends at
    index 12: the batch that is sent starts with the one
    [DeleteContentRange] from 1 to 11. *)
Lemma markdown_update_order_witness :
  sampleFormatter (sampleParse "# Hello") (baseIndex false sampleLiveDocument)
  = ([UpdateTextStyle 1 6 "bold"], "Hello", threeTables)
  /\ Forall (fun r => isTextStyle r = true) [UpdateTextStyle 1 6 "bold"]
  /\ Run sampleParse sampleFormatter obligingRemote "doc" false FormatMarkdown "# Hello"
         sampleLiveDocument None []
     = (None,
        [] ++ EvBatchUpdate "doc"
                [DeleteContentRange 1 11; InsertText 1 "Hello"; UpdateTextStyle 1 6 "bold"]
                None
           :: map (insertEvent "doc") threeCalls)
  /\ deleteExisting sampleLiveDocument
     ++ InsertText (insertIndex false sampleLiveDocument) "Hello"
        :: [UpdateTextStyle 1 6 "bold"]
     = [DeleteContentRange 1 (12 - 1); InsertText 1 "Hello"; UpdateTextStyle 1 6 "bold"].
Proof.
  assert (Hstyle : Forall (fun r => isTextStyle r = true) [UpdateTextStyle 1 6 "bold"]).
  { repeat constructor. }
  split; [reflexivity|]. split; [exact Hstyle|]. split; [reflexivity|].
  refine (proj1
    (markdown_update_order sampleParse sampleFormatter obligingRemote "doc" false
       "# Hello" sampleLiveDocument None [] [UpdateTextStyle 1 6 "bold"] "Hello"
       threeTables eq_refl Hstyle)
    eq_refl _
    (mkStructuralElement 1 12
       (Some (mkParagraph [mkParagraphElement (Some (mkTextRun "0123456789"))]))
       None None)
    eq_refl eq_refl _).
  reflexivity.
Defined.

(** ** A failing table insertion (C5) *)

(** C5.  The update always issues its batch and then only table
    insertions; if the [k]-th of these (counting from 0) returns an error,
    [Run] returns that error, wrapped by ["insert native table"], that call
    is the last thing it did -- no later descriptor is processed and no
    further request is issued -- and the calls made are those for the
    first [k + 1] descriptors in order. *)
Theorem table_failure_ends_update {MarkdownElement : Type}
    (ParseMarkdown : string -> list MarkdownElement)
    (MarkdownToDocsRequests :
       list MarkdownElement -> Z -> list Request * string * list TableData)
    (remote : Remote) (id : string) (append : bool) (format : ContentFormat)
    (content : string) (doc : Document) (report : option error) (h : History) :
  let run := Run ParseMarkdown MarkdownToDocsRequests remote id append format
                 content doc report h in
  let tables := (compileContent ParseMarkdown MarkdownToDocsRequests format content
                   (baseIndex append doc)).2 in
  (exists requests batchErr calls result,
      run = (result, h ++ EvBatchUpdate id requests batchErr :: map (insertEvent id) calls))
  /\ forall requests batchErr calls result,
       run = (result, h ++ EvBatchUpdate id requests batchErr :: map (insertEvent id) calls) ->
       forall k tableIndex cells err,
         calls !! k = Some (tableIndex, cells, Fail err) ->
         result = Some (Errorf "insert native table" err)
         /\ length calls = S k
         /\ map callCells calls = take (S k) (map TableData_Cells tables).
Proof.
  intros run tables. subst run tables.
  destruct (compileContent ParseMarkdown MarkdownToDocsRequests format content
              (baseIndex append doc)) as [[formatting text] tables] eqn:Hcompile.
  destruct (Run_run ParseMarkdown MarkdownToDocsRequests remote id append format
              content doc report h formatting text tables Hcompile)
    as (batchErr0 & calls0 & result0 & Hrun0 & Hrest).
  split.
  { exists (buildRequests append format doc formatting text), batchErr0, calls0, result0.
    exact Hrun0. }
  intros requests batchErr calls result Hrun k tableIndex cells err Hk.
  rewrite Hrun0 in Hrun. injection Hrun as -> Hh.
  apply update_history_inj in Hh as (_ & -> & ->).
  destruct batchErr as [e|].
  - destruct Hrest as [-> _]. discriminate Hk.
  - destruct Hrest as (tablesResult & Htrace & ->).
    destruct (TableRun_failure _ _ _ _ Htrace _ _ _ _ Hk) as [-> Hlen].
    split; [reflexivity|]. split; [exact Hlen|].
    destruct (TableRun_cells _ _ _ _ Htrace) as [Hcells _]. simpl.
    now rewrite Hcells, Hlen.
Qed.

Lemma table_failure_ends_update_witness :
  Run sampleParse sampleFormatter failingRemote "doc" false FormatMarkdown "# Hello"
      sampleLiveDocument None []
  = (Some (Errorf "insert native table" (ErrorString "quota")),
     [] ++ EvBatchUpdate "doc"
             [DeleteContentRange 1 11; InsertText 1 "Hello"; UpdateTextStyle 1 6 "bold"]
             None
        :: map (insertEvent "doc")
             [(10, [["a"]], Ok 15); (24, [["b"]], Fail (ErrorString "quota"))]%Z)
  /\ length [(10, [["a"]], Ok 15); (24, [["b"]], Fail (ErrorString "quota"))]%Z = 2.
Proof.
  split; [reflexivity|].
  exact (proj1 (proj2 (proj2
    (table_failure_ends_update sampleParse sampleFormatter failingRemote "doc" false
       FormatMarkdown "# Hello" sampleLiveDocument None [])
    _ None [(10, [["a"]], Ok 15); (24, [["b"]], Fail (ErrorString "quota"))]%Z _
    eq_refl 1%nat 24%Z [["b"]] (ErrorString "quota") eq_refl))).
Defined.

(** ** Append mode (C6) *)

(** C6.  In append mode the insertion index is the end index of the last
    body element less one when that end index exceeds 1, and 1 otherwise;
    the batch is the [InsertText] at that index followed by the
    formatting requests; it holds no [DeleteContentRange], and no request
    of it addresses an index below the insertion index, so what the
    document holds before that index is out of reach of the batch.  In
    replace mode the base offset is 1: the formatter is run at base 1.
    (The formatter is a parameter: its requests are assumed to be
    text-style requests over ranges that start at or after the base it is
    given.  What the service does with a request is outside the
    repository; the frame is stated on the indices the requests address.) *)
Theorem append_keeps_earlier_content {MarkdownElement : Type}
    (ParseMarkdown : string -> list MarkdownElement)
    (MarkdownToDocsRequests :
       list MarkdownElement -> Z -> list Request * string * list TableData)
    (remote : Remote) (id : string) (format : ContentFormat) (content : string)
    (doc : Document) (report : option error) (h : History)
    (formatting : list Request) (text : string) (tables : list TableData) :
  compileContent ParseMarkdown MarkdownToDocsRequests format content
    (baseIndex true doc) = (formatting, text, tables) ->
  Forall (fun r => isTextStyle r = true /\ (baseIndex true doc <= lowestIndex r)%Z)
         formatting ->
  let at_ := insertIndex true doc in
  let requests := InsertText at_ text :: formatting in
  (forall body lastEl,
      Document_Body doc = Some body ->
      last (Body_Content body) = Some (Some lastEl) ->
      (1 < StructuralElement_EndIndex lastEl)%Z ->
      at_ = (StructuralElement_EndIndex lastEl - 1)%Z)
  /\ ((forall body lastEl,
         Document_Body doc = Some body ->
         last (Body_Content body) = Some (Some lastEl) ->
         ~ (1 < StructuralElement_EndIndex lastEl)%Z) ->
      at_ = 1%Z)
  /\ baseIndex true doc = at_
  /\ (exists batchErr calls result,
        Run ParseMarkdown MarkdownToDocsRequests remote id true format content doc report h
        = (result, h ++ EvBatchUpdate id requests batchErr :: map (insertEvent id) calls))
  /\ Forall (fun r => isDeleteContentRange r = false) requests
  /\ Forall (fun r => (at_ <= lowestIndex r)%Z) requests
  /\ baseIndex false doc = 1%Z
  /\ Run ParseMarkdown MarkdownToDocsRequests remote id false format content doc report h
     = Run ParseMarkdown (fun elements _ => MarkdownToDocsRequests elements 1%Z)
           remote id false format content doc report h.
Proof.
  intros Hcompile Hfmt at_ requests. split_and!.
  - intros body lastEl Hbody Hlast Hend. subst at_. unfold insertIndex.
    rewrite (proj2 (lastElement_spec doc lastEl)) by now exists body.
    now destruct (Z.gtb_spec (StructuralElement_EndIndex lastEl) 1); [|lia].
  - intros Hnone. subst at_. unfold insertIndex.
    destruct (lastElement doc) as [lastEl|] eqn:Hlast; [|reflexivity].
    apply lastElement_spec in Hlast as (body & Hbody & Hlast).
    destruct (Z.gtb_spec (StructuralElement_EndIndex lastEl) 1) as [Hgt|]; [|reflexivity].
    exfalso. apply (Hnone body lastEl Hbody Hlast). lia.
  - reflexivity.
  - destruct (Run_run ParseMarkdown MarkdownToDocsRequests remote id true format
                content doc report h formatting text tables Hcompile)
      as (batchErr & calls & result & Hrun & _).
    exists batchErr, calls, result. rewrite Hrun. do 4 f_equal.
    subst requests at_. unfold buildRequests. destruct format; [|reflexivity].
    simpl in Hcompile. now injection Hcompile as <- _ _.
  - subst requests. constructor; [reflexivity|].
    eapply Forall_impl; [exact Hfmt|]. intros r [Hr _]. now destruct r.
  - subst requests. constructor; [simpl; lia|].
    eapply Forall_impl; [exact Hfmt|]. now intros r [_ Hr].
  - reflexivity.
  - reflexivity.
Qed.

Lemma append_keeps_earlier_content_witness :
  compileContent sampleParse sampleFormatter FormatMarkdown "# Hello"
    (baseIndex true sampleLiveDocument)
  = ([UpdateTextStyle 11 16 "bold"], "Hello", threeTables)
  /\ Forall (fun r => (insertIndex true sampleLiveDocument <= lowestIndex r)%Z)
       [InsertText 11 "Hello"; UpdateTextStyle 11 16 "bold"].
Proof.
  assert (Hfmt : Forall (fun r => isTextStyle r = true
                                  /\ (baseIndex true sampleLiveDocument <= lowestIndex r)%Z)
                   [UpdateTextStyle 11 16 "bold"]).
  { repeat constructor. vm_compute. discriminate. }
  split; [reflexivity|].
  exact (proj1 (proj2 (proj2 (proj2 (proj2 (proj2
    (append_keeps_earlier_content sampleParse sampleFormatter obligingRemote "doc"
       FormatMarkdown "# Hello" sampleLiveDocument None []
       [UpdateTextStyle 11 16 "bold"] "Hello" threeTables eq_refl Hfmt))))))).
Defined.

(** ** The image pass and its temporary files (C3) *)

Section InsertImagesFacts.
Context {markdownImage PlaceholderRange : Type}.
Variable image_index : markdownImage -> Z.
Variable image_originalRef : markdownImage -> string.
Variable image_placeholder : markdownImage -> string.
Variable image_isRemote : markdownImage -> bool.
Variable findPlaceholderIndices :
  option Document -> nat -> gmap string PlaceholderRange.
Variable resolveMarkdownImagePath : string -> string -> Result string.
Variable buildImageInsertRequests :
  gmap string PlaceholderRange -> list markdownImage -> gmap Z string -> list Request.
Variable remote : Remote.

Lemma cleanedFileIDs_app (h h' : History) :
  cleanedFileIDs (h ++ h') = cleanedFileIDs h ++ cleanedFileIDs h'.
Proof. apply flat_map_app. Qed.

Lemma resolveImages_cleans_nothing (c_File : string)
    (placeholders : gmap string PlaceholderRange) (images : list markdownImage) :
  forall imageURLs tempFileIDs h,
    cleanedFileIDs
      (resolveImages image_index image_originalRef image_placeholder image_isRemote
         resolveMarkdownImagePath remote c_File placeholders images
         imageURLs tempFileIDs h).2
    = cleanedFileIDs h.
Proof.
  induction images as [|img rest IH]; intros imageURLs tempFileIDs h; simpl;
    [reflexivity|].
  destruct (placeholders !! image_placeholder img); [|apply IH].
  destruct (image_isRemote img); [apply IH|].
  destruct (resolveMarkdownImagePath c_File (image_originalRef img)); [|reflexivity].
  unfold mbind, M_bind, uploadLocalImage, call.
  destruct (remote_UploadLocalImage remote h value) as [[url fileID]|err].
  - rewrite IH, cleanedFileIDs_app. simpl. now rewrite app_nil_r.
  - simpl. rewrite cleanedFileIDs_app. simpl. now rewrite app_nil_r.
Qed.

(** Whatever the images, the services and the outcome, [insertImages]
    hands no file id to the cleanup routine. *)
Lemma insertImages_cleans_nothing (c_File account docID : string)
    (images : list markdownImage) (h : History) :
  cleanedFileIDs
    (insertImages image_index image_originalRef image_placeholder image_isRemote
       findPlaceholderIndices resolveMarkdownImagePath buildImageInsertRequests
       remote c_File account docID images h).2
  = cleanedFileIDs h.
Proof.
  unfold insertImages, newDocsService, DocumentsGet, defer,
    cleanupDriveFileIDsBestEffort, mbind, M_bind, mret, M_ret, call.
  destruct (remote_NewDocsService remote h account); simpl.
  { rewrite cleanedFileIDs_app. simpl. now rewrite app_nil_r. }
  set (h1 := h ++ [EvNewDocsService account None]).
  assert (H1 : cleanedFileIDs h1 = cleanedFileIDs h).
  { unfold h1. rewrite cleanedFileIDs_app. simpl. now rewrite app_nil_r. }
  destruct (remote_DocumentsGet remote h1 docID) as [doc|err] eqn:Hget; simpl.
  2:{ rewrite cleanedFileIDs_app. simpl. now rewrite app_nil_r. }
  set (h2 := h1 ++ [EvDocumentsGet docID (Ok doc)]).
  assert (H2 : cleanedFileIDs h2 = cleanedFileIDs h).
  { unfold h2. rewrite cleanedFileIDs_app. simpl. now rewrite app_nil_r. }
  destruct (size (findPlaceholderIndices doc (length images)) =? 0)%nat; [exact H2|].
  pose proof (resolveImages_cleans_nothing c_File
                (findPlaceholderIndices doc (length images)) images ∅ [] h2) as Hloop.
  destruct (resolveImages _ _ _ _ _ _ _ _ _ _ _ h2) as [[[urls ids]|err] h3].
  - simpl in Hloop.
    destruct (length (buildImageInsertRequests _ images urls) =? 0)%nat; simpl.
    + rewrite cleanedFileIDs_app. simpl. rewrite app_nil_r. congruence.
    + rewrite !cleanedFileIDs_app. simpl. rewrite !app_nil_r. congruence.
  - simpl in *. rewrite cleanedFileIDs_app. simpl. rewrite app_nil_r. congruence.
Qed.
End InsertImagesFacts.

(** C3 does not hold of the code.  The [defer] statement evaluates its
    argument [tempFileIDs] when it is executed, before the loop, when the
    list is still empty; the ids appended later are never seen by the
    cleanup routine.  In this run a local image is uploaded, the returned
    file id is appended to the tracking list ([tempFileIDs] holds it when
    the loop ends), the batch succeeds, and the cleanup routine is called
    with no id at all. *)
Theorem insertImages_cleanup_misses_upload :
  sampleInsertImages []
  = (None,
     [ EvNewDocsService "me@example.com" None;
       EvDocumentsGet "doc" (Ok (Some (mkDocument None)));
       EvUploadLocalImage "/notes/fig.png"
         (Ok ("https://drive/notes/fig.png", "tmp:/notes/fig.png"));
       EvBatchUpdate "doc" [InsertInlineImage 5 "https://drive/notes/fig.png"] None;
       EvCleanupDriveFileIDs [] ])
  /\ sampleTrackedFileIDs = Some ["tmp:/notes/fig.png"]
  /\ uploadedFileIDs (sampleInsertImages []).2 = ["tmp:/notes/fig.png"]
  /\ cleanedFileIDs (sampleInsertImages []).2 = [].
Proof. vm_compute. split_and!; reflexivity. Qed.

(** * Further properties *)

(** ** More facts about strings *)

Module GoStringsFacts.
Import GoString GoStrings GoStringFacts.

Lemma app_inv_tail (a b s : string) : a +:+ s = b +:+ s -> a = b.
Proof.
  revert b. induction a as [|c a IH]; intros [|c' b] H.
  - reflexivity.
  - apply (f_equal String.length) in H. rewrite app_empty_l, length_app in H.
    simpl in H. lia.
  - apply (f_equal String.length) in H. rewrite app_empty_l, length_app in H.
    simpl in H. lia.
  - rewrite !app_cons in H. injection H as -> H. f_equal. now apply IH.
Qed.

Lemma app_inv_head (s a b : string) : s +:+ a = s +:+ b -> a = b.
Proof.
  induction s as [|c s IH]; [now rewrite !app_empty_l|].
  rewrite !app_cons. intros [= H]. now apply IH.
Qed.





End GoStringsFacts.

(** ** Links *)

(** X1.  [docsWebViewLink] returns the empty string exactly for an id that
    is blank after trimming; otherwise the link is the document URL around
    the trimmed id; and two ids get the same link only if they are the
    same after trimming. *)
Theorem docsWebViewLink_trimmed_id (TrimSpace : string -> string) (id id' : string) :
  (docsWebViewLink TrimSpace id = "" <-> TrimSpace id = "")
  /\ (TrimSpace id <> "" ->
      docsWebViewLink TrimSpace id
      = "https://docs.google.com/document/d/" +:+ TrimSpace id +:+ "/edit")
  /\ (docsWebViewLink TrimSpace id = docsWebViewLink TrimSpace id' ->
      TrimSpace id = TrimSpace id').
Proof.
  unfold docsWebViewLink.
  destruct (String.eqb_spec (TrimSpace id) "") as [E|E];
    destruct (String.eqb_spec (TrimSpace id') "") as [E'|E']; split_and!;
    try tauto; try congruence; try (split; [discriminate | congruence]);
    try discriminate.
  intros H. apply GoStringsFacts.app_inv_head in H.
  now apply GoStringsFacts.app_inv_tail in H.
Qed.

Lemma docsWebViewLink_trimmed_id_witness :
  Ascii7.TrimSpace " 1AbC " <> ""
  /\ docsWebViewLink Ascii7.TrimSpace " 1AbC "
     = "https://docs.google.com/document/d/1AbC/edit".
Proof.
  assert (H : Ascii7.TrimSpace " 1AbC " <> "") by discriminate.
  split; [exact H|].
  exact (proj1 (proj2 (docsWebViewLink_trimmed_id Ascii7.TrimSpace " 1AbC " "")) H).
Defined.

(** ** Looking a tab up in a tab tree *)

Lemma lookup_map {A B : Type} (f : A -> B) (l : list A) (i : nat) :
  map f l !! i = match l !! i with Some x => Some (f x) | None => None end.
Proof.
  revert i. induction l as [|a l IH]; intros [|i]; simpl; try reflexivity. apply IH.
Qed.

Lemma In_lookup {A : Type} (l : list A) (x : A) :
  In x l <-> exists i, l !! i = Some x.
Proof. rewrite <- list_elem_of_In. apply list_elem_of_lookup. Qed.

(** The flattening holds exactly the tabs that sit at some position of the
    tree. *)
Lemma in_flattenTabs (tabs : list (option Tab)) (t : Tab) :
  In t (flattenTabs tabs) <-> exists p, subtab tabs p = Some t.
Proof.
  pose proof (forest_read tabs (all_positions_ok tabs)) as Hread. split.
  - intros Hin. apply (in_map Some) in Hin. rewrite <- Hread in Hin.
    apply in_map_iff in Hin as (p & Hp & _). now exists p.
  - intros [p Hp].
    assert (Hin : In p (forestPositions tabs)).
    { apply (forest_positions tabs p (all_positions_ok tabs)). now rewrite Hp. }
    apply (in_map (subtab tabs)) in Hin. rewrite Hread, Hp in Hin.
    apply in_map_iff in Hin as (t' & [= ->] & Ht). exact Ht.
Qed.

Lemma find_decompose {A : Type} (f : A -> bool) (l : list A) (x : A) :
  List.find f l = Some x ->
  exists before after,
    l = before ++ x :: after /\ f x = true /\ Forall (fun u => f u = false) before.
Proof.
  induction l as [|a l IH]; simpl; [discriminate|].
  destruct (f a) eqn:E.
  - intros [= ->]. exists [], l. split; [reflexivity|]. split; [exact E | constructor].
  - intros H. destruct (IH H) as (before & after & -> & Hx & Hb).
    exists (a :: before), after. split; [reflexivity|]. split; [exact Hx|].
    now constructor.
Qed.

Lemma find_exists {A : Type} (f : A -> bool) (l : list A) (x : A) :
  In x l -> f x = true -> exists y, List.find f l = Some y.
Proof.
  intros Hin Hx. destruct (List.find f l) as [y|] eqn:E; [now exists y|].
  now rewrite (find_none f l E x Hin) in Hx.
Qed.

Section LookupInTree.
Variables TrimSpace ToLower : string -> string.

Lemma findTab_sound (tabs : list Tab) (query : string) (t : Tab) :
  findTab TrimSpace ToLower tabs query = Some t ->
  In t tabs /\ (hasId (TrimSpace query) t \/ hasTitle ToLower (TrimSpace query) t).
Proof.
  unfold findTab.
  destruct (List.find (idMatches (TrimSpace query)) tabs) as [t'|] eqn:E.
  - intros [= <-]. apply find_some in E as [Hin Hid]. split; [exact Hin|].
    left. now apply idMatches_hasId.
  - intros H. apply find_some in H as [Hin Ht]. split; [exact Hin|].
    right. now apply (titleMatches_hasTitle ToLower).
Qed.

Lemma findTab_none (tabs : list Tab) (query : string) :
  findTab TrimSpace ToLower tabs query = None <->
  forall t, In t tabs ->
            ~ hasId (TrimSpace query) t /\ ~ hasTitle ToLower (TrimSpace query) t.
Proof.
  split.
  - unfold findTab.
    destruct (List.find (idMatches (TrimSpace query)) tabs) as [t'|] eqn:E;
      [discriminate|].
    intros H t Hin. split.
    + rewrite <- idMatches_hasId. now rewrite (find_none _ _ E t Hin).
    + rewrite <- (titleMatches_hasTitle ToLower). now rewrite (find_none _ _ H t Hin).
  - intros H. apply (findTab_contract TrimSpace ToLower tabs query);
      apply List.Forall_forall; intros t Hin; now apply H.
Qed.

(** In the flattened tree the lookup by identifier returns the tab with
    that identifier that comes first in pre-order. *)
Lemma findTab_first_by_id (tabs : list (option Tab)) (query : string) :
  (exists p t, subtab tabs p = Some t /\ hasId (TrimSpace query) t) ->
  exists p0 t0,
    findTab TrimSpace ToLower (flattenTabs tabs) query = Some t0
    /\ subtab tabs p0 = Some t0
    /\ hasId (TrimSpace query) t0
    /\ forall p t, subtab tabs p = Some t -> hasId (TrimSpace query) t ->
                   p = p0 \/ pathBefore p0 p.
Proof.
  intros (p & t & Hp & Hid).
  set (q := TrimSpace query) in *.
  pose proof (all_positions_ok tabs) as Hall.
  pose proof (forest_read tabs Hall) as Hread.
  pose proof (forest_sorted tabs Hall 0) as Hsorted.
  fold (forestPositions tabs) in Hsorted.
  assert (Hin : In t (flattenTabs tabs)) by (apply in_flattenTabs; now exists p).
  destruct (find_exists (idMatches q) _ t Hin (proj2 (idMatches_hasId q t) Hid))
    as [t0 Hfind].
  destruct (find_decompose _ _ _ Hfind) as (before & after & Hflat & Ht0 & Hbefore).
  assert (Hi : flattenTabs tabs !! length before = Some t0).
  { rewrite Hflat. now apply list_lookup_middle. }
  assert (Hp0 : exists p0, forestPositions tabs !! length before = Some p0
                           /\ subtab tabs p0 = Some t0).
  { pose proof (f_equal (fun l => l !! length before) Hread) as H. simpl in H.
    rewrite !lookup_map, Hi in H.
    destruct (forestPositions tabs !! length before) as [p0|]; [|discriminate].
    exists p0. split; [reflexivity|]. now injection H. }
  destruct Hp0 as (p0 & Hp0 & Hsub0).
  exists p0, t0. split; [|split; [exact Hsub0|split; [now apply idMatches_hasId|]]].
  - unfold findTab. fold q. now rewrite Hfind.
  - intros p' t' Hp' Hid'.
    assert (Hin' : In p' (forestPositions tabs)).
    { apply (forest_positions tabs p' Hall). now rewrite Hp'. }
    apply In_lookup in Hin' as [j Hj].
    assert (Hfj : flattenTabs tabs !! j = Some t').
    { pose proof (f_equal (fun l => l !! j) Hread) as H. simpl in H.
      rewrite !lookup_map, Hj, Hp' in H.
      destruct (flattenTabs tabs !! j); [now injection H as -> | discriminate]. }
    destruct (Nat.lt_trichotomy j (length before)) as [Hlt|[->|Hgt]].
    + exfalso. rewrite Hflat, lookup_app_l in Hfj by exact Hlt.
      rewrite Forall_lookup in Hbefore. specialize (Hbefore _ _ Hfj).
      apply idMatches_hasId in Hid'. congruence.
    + left. congruence.
    + right. exact (StronglySorted_lookup_lt _ _ _ _ _ _ Hsorted Hp0 Hj Hgt).
Qed.
End LookupInTree.

(** X2.  Looking a tab up in the flattened tree, as the commands do: a tab
    that is returned sits at some position of the tree and carries the
    trimmed query as its identifier or, up to case, as its title; when
    some tab of the tree -- at any depth -- has the identifier, the lookup
    returns the first such tab in pre-order; and the lookup returns
    nothing exactly when no tab of the tree matches by identifier or by
    title. *)
Theorem findTab_in_flattened_tree (TrimSpace ToLower : string -> string)
    (tabs : list (option Tab)) (query : string) :
  let q := TrimSpace query in
  let found := findTab TrimSpace ToLower (flattenTabs tabs) query in
  (forall t, found = Some t ->
             (exists p, subtab tabs p = Some t) /\ (hasId q t \/ hasTitle ToLower q t))
  /\ ((exists p t, subtab tabs p = Some t /\ hasId q t) ->
      exists p0 t0,
        found = Some t0 /\ subtab tabs p0 = Some t0 /\ hasId q t0
        /\ forall p t, subtab tabs p = Some t -> hasId q t ->
                       p = p0 \/ pathBefore p0 p)
  /\ (found = None <->
      forall p t, subtab tabs p = Some t -> ~ hasId q t /\ ~ hasTitle ToLower q t).
Proof.
  intros q found. split_and!.
  - intros t Ht. apply findTab_sound in Ht as [Hin Hmatch].
    split; [now apply in_flattenTabs | exact Hmatch].
  - apply findTab_first_by_id.
  - unfold found. rewrite findTab_none. split.
    + intros H p t Hp. apply H. apply in_flattenTabs. now exists p.
    + intros H t [p Hp]%in_flattenTabs. now apply (H p).
Qed.

(** The tab [E] of [A[B[D,E],C]], two levels down, is found by its
    identifier. *)
Lemma findTab_in_flattened_tree_witness :
  (exists p t, subtab [Some tabA] p = Some t /\ hasId (Ascii7.TrimSpace " E") t)
  /\ exists p0 t0,
       findTab Ascii7.TrimSpace Ascii7.ToLower (flattenTabs [Some tabA]) " E" = Some t0
       /\ subtab [Some tabA] p0 = Some t0
       /\ hasId (Ascii7.TrimSpace " E") t0
       /\ forall p t, subtab [Some tabA] p = Some t -> hasId (Ascii7.TrimSpace " E") t ->
                      p = p0 \/ pathBefore p0 p.
Proof.
  assert (H : exists p t, subtab [Some tabA] p = Some t
                          /\ hasId (Ascii7.TrimSpace " E") t).
  { exists [0; 0; 1], tabE. split; [reflexivity | now eexists]. }
  split; [exact H|].
  exact (proj1 (proj2 (findTab_in_flattened_tree Ascii7.TrimSpace Ascii7.ToLower
                         [Some tabA] " E")) H).
Defined.

(** ** The [cat] command *)

Lemma bodyPlainText_bounded (b : Body) (maxBytes : Z) :
  (0 < maxBytes)%Z -> (GoString.len (bodyPlainText b maxBytes) <= maxBytes)%Z.
Proof.
  intros H. rewrite bodyPlainText_spec. destruct (Z.leb_spec maxBytes 0); [lia|].
  unfold GoString.len. rewrite GoStringFacts.slice_to_length. lia.
Qed.

Lemma tabPlainText_bounded (tab : option Tab) (maxBytes : Z) :
  (0 < maxBytes)%Z -> (GoString.len (tabPlainText tab maxBytes) <= maxBytes)%Z.
Proof.
  intros H. destruct tab as [[props [[[b|]]|] children]|]; simpl;
    try (unfold GoString.len; simpl; lia). now apply bodyPlainText_bounded.
Qed.

Lemma docsPlainText_bounded (doc : option Document) (maxBytes : Z) :
  (0 < maxBytes)%Z -> (GoString.len (docsPlainText doc maxBytes) <= maxBytes)%Z.
Proof.
  intros H. destruct doc as [[[b|]]|]; simpl;
    try (unfold GoString.len; simpl; lia). now apply bodyPlainText_bounded.
Qed.









Lemma tabJSON_text (tab : Tab) (text : string) :
  tabJSON tab text !! "text" = Some (JSONString text).
Proof.
  unfold tabJSON. destruct (Tab_TabProperties tab) as [props|].
  - etransitivity; [apply lookup_insert_ne; discriminate|].
    etransitivity; [apply lookup_insert_ne; discriminate|].
    etransitivity; [apply lookup_insert_ne; discriminate|].
    apply lookup_singleton_eq.
  - apply lookup_singleton_eq.
Qed.

Lemma tabJSON_properties (tab : Tab) (text : string) (props : TabProperties) :
  Tab_TabProperties tab = Some props ->
  tabJSON tab text !! "id" = Some (JSONString (TabProperties_TabId props))
  /\ tabJSON tab text !! "title" = Some (JSONString (TabProperties_Title props))
  /\ tabJSON tab text !! "index" = Some (JSONNumber (TabProperties_Index props)).
Proof.
  intros Hprops. unfold tabJSON. rewrite Hprops. split_and!.
  - etransitivity; [apply lookup_insert_ne; discriminate|].
    etransitivity; [apply lookup_insert_ne; discriminate|].
    apply lookup_insert_eq.
  - etransitivity; [apply lookup_insert_ne; discriminate|].
    apply lookup_insert_eq.
  - apply lookup_insert_eq.
Qed.

Lemma foldl_slice_append {A B : Type} (f : A -> B) (l : list A) :
  forall out : option (list B),
    foldl (fun out x => slice_append out (f x)) out l
    = match l with
      | [] => out
      | _ :: _ => Some (match out with Some done => done | None => [] end ++ map f l)
      end.
Proof.
  induction l as [|x l IH]; intros out; [reflexivity|].
  simpl. rewrite IH. destruct l as [|y l].
  - reflexivity.
  - unfold slice_append. simpl. now rewrite <- app_assoc.
Qed.

(** X5.  [cat --all-tabs] in JSON mode, from the point where the
    document has been fetched.  Without a document the command writes
    nothing and returns ["doc not found"].  With one it makes one write
    and returns what the write returns.  What is written under ["tabs"]
    is the nil slice, printed as [null], exactly when the tree holds no
    tab; otherwise it is an array with one object per tab of the tree,
    in the order of the flattened tree.  The object of a tab always
    carries the tab's text under ["text"], within [--max-bytes] when the
    budget is positive; a tab with properties also carries its
    identifier, its index and its title as it is -- an empty title stays
    empty, unlike the ["(untitled)"] of the text headers -- and a tab
    without properties carries the text alone. *)
Theorem cat_all_tabs_json (TrimSpace ToLower : string -> string)
    (stdout : StdoutWrite -> option error) (c_MaxBytes : Z) (doc : option Document)
    (doc_Tabs : list (option Tab)) :
  let run := DocsCatCmd_Run TrimSpace ToLower stdout "" true c_MaxBytes true
               doc doc_Tabs in
  (doc = None -> run = ([], Some (ErrorString "doc not found")))
  /\ (doc <> None ->
      exists out,
        run = ([OutJSONTabs out], stdout (OutJSONTabs out))
        /\ (out = None <-> forall p, subtab doc_Tabs p = None)
        /\ (forall objs, out = Some objs -> length objs = length (flattenTabs doc_Tabs))
        /\ forall i tab,
             flattenTabs doc_Tabs !! i = Some tab ->
             exists objs obj text,
               out = Some objs
               /\ objs !! i = Some obj
               /\ text = tabPlainText (Some tab) c_MaxBytes
               /\ obj !! "text" = Some (JSONString text)
               /\ ((0 < c_MaxBytes)%Z -> (GoString.len text <= c_MaxBytes)%Z)
               /\ match Tab_TabProperties tab with
                  | Some props =>
                      obj !! "id" = Some (JSONString (TabProperties_TabId props))
                      /\ obj !! "title" = Some (JSONString (TabProperties_Title props))
                      /\ obj !! "index" = Some (JSONNumber (TabProperties_Index props))
                  | None => obj = {[ "text" := JSONString text ]}
                  end).
Proof.
  intros run. split; [now intros ->|].
  destruct doc as [d|]; [intros _ | now intros []].
  set (object := fun tab => tabJSON tab (tabPlainText (Some tab) c_MaxBytes)).
  set (out := match flattenTabs doc_Tabs with
              | [] => None
              | _ :: _ => Some (map object (flattenTabs doc_Tabs))
              end).
  assert (Hrun : run = ([OutJSONTabs out], stdout (OutJSONTabs out))).
  { transitivity
      ([OutJSONTabs (foldl (fun out x => slice_append out (object x)) None
                       (flattenTabs doc_Tabs))],
       stdout (OutJSONTabs (foldl (fun out x => slice_append out (object x)) None
                              (flattenTabs doc_Tabs)))); [reflexivity|].
    rewrite (foldl_slice_append object (flattenTabs doc_Tabs) None).
    unfold out. now destruct (flattenTabs doc_Tabs). }
  exists out. split; [exact Hrun|]. split_and!.
  - unfold out. split.
    + intros Hnil p. destruct (subtab doc_Tabs p) as [t|] eqn:Hp; [|reflexivity].
      assert (Hin : In t (flattenTabs doc_Tabs)) by (apply in_flattenTabs; now exists p).
      destruct (flattenTabs doc_Tabs); [destruct Hin | discriminate Hnil].
    + intros Hnone. destruct (flattenTabs doc_Tabs) as [|t l] eqn:E; [reflexivity|].
      assert (Hin : In t (flattenTabs doc_Tabs)) by (rewrite E; now left).
      apply in_flattenTabs in Hin as [p Hp]. now rewrite Hnone in Hp.
  - intros objs. unfold out.
    destruct (flattenTabs doc_Tabs) as [|t l]; [discriminate|].
    intros [= <-]. apply (length_map object (t :: l)).
  - intros i tab Hi.
    exists (map object (flattenTabs doc_Tabs)), (object tab),
           (tabPlainText (Some tab) c_MaxBytes).
    split_and!.
    + unfold out. destruct (flattenTabs doc_Tabs); [discriminate Hi | reflexivity].
    + now rewrite list_lookup_fmap, Hi.
    + reflexivity.
    + apply tabJSON_text.
    + apply tabPlainText_bounded.
    + destruct (Tab_TabProperties tab) as [props|] eqn:Hprops.
      * now apply tabJSON_properties.
      * unfold object, tabJSON. now rewrite Hprops.
Qed.

(** A document without tabs prints [null]; the tree [A[B[D,E],C]] prints
    five objects. *)
Lemma cat_all_tabs_json_witness :
  Some (mkDocument None) <> None
  /\ (DocsCatCmd_Run Ascii7.TrimSpace Ascii7.ToLower (fun _ => None) "" true 0 true
        (Some (mkDocument None)) []).1
     = [OutJSONTabs None]
  /\ exists out,
       DocsCatCmd_Run Ascii7.TrimSpace Ascii7.ToLower (fun _ => None) "" true 0 true
         (Some (mkDocument None)) [Some tabA]
       = ([OutJSONTabs out], None)
       /\ forall objs, out = Some objs -> length objs = 5%nat.
Proof.
  assert (Hdoc : Some (mkDocument None) <> None) by discriminate.
  split; [exact Hdoc|]. split; [reflexivity|].
  destruct (proj2
    (cat_all_tabs_json Ascii7.TrimSpace Ascii7.ToLower (fun _ => None) 0
       (Some (mkDocument None)) [Some tabA]) Hdoc) as (out & Hrun & _ & Hlen & _).
  exists out. split; [exact Hrun | exact Hlen].
Defined.

(** X6.  Without [--all-tabs], [cat] in text mode never writes more than
    [--max-bytes] bytes when the budget is positive: whichever of the
    document or a tab is read, and also when it fails. *)
Theorem cat_text_within_budget (TrimSpace ToLower : string -> string)
    (stdout : StdoutWrite -> option error) (c_Tab : string) (c_MaxBytes : Z)
    (doc : option Document) (doc_Tabs : list (option Tab)) :
  (0 < c_MaxBytes)%Z ->
  (GoString.len
     (writtenText
        (DocsCatCmd_Run TrimSpace ToLower stdout c_Tab false c_MaxBytes false
           doc doc_Tabs).1)
   <= c_MaxBytes)%Z.
Proof.
  intros Hpos. unfold DocsCatCmd_Run. rewrite orb_false_r.
  assert (Hzero : (GoString.len (writtenText []) <= c_MaxBytes)%Z).
  { unfold GoString.len. simpl. lia. }
  destruct (String.eqb c_Tab ""); simpl negb; cbv iota.
  - destruct doc as [d|]; [|exact Hzero].
    change (GoString.len (docsPlainText (Some d) c_MaxBytes) <= c_MaxBytes)%Z.
    now apply docsPlainText_bounded.
  - destruct doc as [d|]; [|exact Hzero].
    destruct (findTab TrimSpace ToLower (flattenTabs doc_Tabs) c_Tab) as [tab|];
      [|exact Hzero].
    change (GoString.len (tabPlainText (Some tab) c_MaxBytes) <= c_MaxBytes)%Z.
    now apply tabPlainText_bounded.
Qed.

Lemma cat_text_within_budget_witness :
  (0 < 6)%Z
  /\ (GoString.len
        (writtenText
           (DocsCatCmd_Run Ascii7.TrimSpace Ascii7.ToLower (fun _ => None) "" false 6
              false sampleDocument []).1)
      <= 6)%Z.
Proof.
  split; [lia|].
  apply (cat_text_within_budget Ascii7.TrimSpace Ascii7.ToLower (fun _ => None) ""
           6 sampleDocument []). lia.
Defined.

(** ** The update command: what it sends and when it succeeds *)

Section UpdateFacts.
Context {MarkdownElement : Type}.
Variable ParseMarkdown : string -> list MarkdownElement.
Variable MarkdownToDocsRequests :
  list MarkdownElement -> Z -> list Request * string * list TableData.



End UpdateFacts.



(** X8.  An update that returns no error left nothing out: its batch was
    accepted and every table of the compile was inserted, each call
    succeeding, in compile order with the cells of its descriptor.  In
    the other direction, when the batch and every table call succeed the
    command returns what writing the report returns, and in plain format
    no table call is ever made. *)
Theorem update_success_is_complete {MarkdownElement : Type}
    (ParseMarkdown : string -> list MarkdownElement)
    (MarkdownToDocsRequests :
       list MarkdownElement -> Z -> list Request * string * list TableData)
    (remote : Remote) (id : string) (append : bool) (format : ContentFormat)
    (content : string) (doc : Document) (report : option error) (h : History) :
  let run := Run ParseMarkdown MarkdownToDocsRequests remote id append format
                 content doc report h in
  let tables := (compileContent ParseMarkdown MarkdownToDocsRequests format content
                   (baseIndex append doc)).2 in
  (exists requests batchErr calls result,
      run = (result, h ++ EvBatchUpdate id requests batchErr :: map (insertEvent id) calls))
  /\ forall requests batchErr calls result,
       run = (result, h ++ EvBatchUpdate id requests batchErr :: map (insertEvent id) calls) ->
       (result = None ->
        batchErr = None
        /\ Forall callSucceeded calls
        /\ map callCells calls = map TableData_Cells tables)
       /\ (batchErr = None -> Forall callSucceeded calls ->
           result = report /\ length calls = length tables)
       /\ (format = FormatPlain -> calls = []).
Proof.
  intros run tables. subst run tables.
  destruct (compileContent ParseMarkdown MarkdownToDocsRequests format content
              (baseIndex append doc)) as [[formatting text] tables] eqn:Hcompile.
  destruct (Run_run ParseMarkdown MarkdownToDocsRequests remote id append format
              content doc report h formatting text tables Hcompile)
    as (batchErr0 & calls0 & result0 & Hrun0 & Hrest).
  split.
  { exists (buildRequests append format doc formatting text), batchErr0, calls0, result0.
    exact Hrun0. }
  intros requests batchErr calls result Hrun.
  rewrite Hrun0 in Hrun. injection Hrun as -> Hh.
  apply update_history_inj in Hh as (_ & -> & ->). simpl snd.
  destruct batchErr as [e|].
  { destruct Hrest as [-> ->]. split_and!; [discriminate | discriminate | reflexivity]. }
  destruct Hrest as (tablesResult & Htrace & ->).
  destruct (TableRun_cells _ _ _ _ Htrace) as [Hcells Hall].
  split_and!.
  - intros Hnone. destruct tablesResult as [e|]; [discriminate|].
    specialize (Hall eq_refl). split; [reflexivity|]. split.
    + apply List.Forall_forall. intros c Hc. apply In_lookup in Hc as [k Hk].
      destruct c as [[tableIndex cells] [tableEnd|err]]; [now exists tableEnd|].
      destruct (TableRun_failure _ _ _ _ Htrace _ _ _ _ Hk) as [[=] _].
    + rewrite Hcells, Hall, <- (length_map TableData_Cells). apply firstn_all.
  - intros _ Hok.
    assert (Hres : tablesResult = None).
    { apply (TableRun_success _ _ _ _ Htrace). intros c Hc.
      rewrite List.Forall_forall in Hok. exact (Hok c Hc). }
    subst tablesResult. split; [reflexivity | now apply Hall].
  - intros ->. simpl in Hcompile. injection Hcompile as _ _ <-.
    now inversion Htrace.
Qed.

Lemma update_success_is_complete_witness :
  Run sampleParse sampleFormatter obligingRemote "doc" false FormatMarkdown "# Hello"
      sampleLiveDocument None []
  = (None,
     [] ++ EvBatchUpdate "doc"
             [DeleteContentRange 1 11; InsertText 1 "Hello"; UpdateTextStyle 1 6 "bold"]
             None
        :: map (insertEvent "doc") threeCalls)
  /\ Forall callSucceeded threeCalls
  /\ map callCells threeCalls = map TableData_Cells threeTables.
Proof.
  split; [reflexivity|].
  exact (proj2 (proj1
    (proj2 (update_success_is_complete sampleParse sampleFormatter obligingRemote "doc"
              false FormatMarkdown "# Hello" sampleLiveDocument None [])
       _ None threeCalls None eq_refl) eq_refl)).
Defined.

(** ** Where the tables go, whatever the service answers *)

Lemma netGuardedDrift_nonneg (calls : list TableCall) : (0 <= netGuardedDrift calls)%Z.
Proof.
  induction calls as [|[[tableIndex cells] [tableEnd|err]] calls IH]; simpl; [lia| |lia].
  destruct (Z.gtb_spec tableEnd tableIndex); lia.
Qed.

Lemma wrap64_idem (z : Z) : wrap64 (wrap64 z) = wrap64 z.
Proof.
  replace (wrap64 z) with (0 + wrap64 z)%Z at 1 by lia.
  now rewrite wrap64_add_wrap_r.
Qed.

Lemma nextTableOffset_guarded (tableOffset tableIndex tableEnd : Z) (cells : list (list string)) :
  wrap64 (nextTableOffset tableOffset tableIndex tableEnd)
  = wrap64 (tableOffset + guardedDrift (tableIndex, cells, Ok tableEnd)).
Proof.
  unfold nextTableOffset, guardedDrift.
  destruct (Z.gtb_spec tableEnd tableIndex).
  - rewrite wrap64_idem, wrap64_add_wrap_r.
    replace (tableOffset + (wrap64 (tableEnd - tableIndex) - 1))%Z
      with (wrap64 (tableEnd - tableIndex) + (tableOffset - 1))%Z by lia.
    rewrite wrap64_add_wrap_l. f_equal. lia.
  - f_equal. lia.
Qed.

Lemma TableRun_placement_guarded (tables : list TableData) (tableOffset : Z)
    (calls : list TableCall) (result : option error) :
  TableRun tables tableOffset calls result ->
  forall k tableIndex cells res,
    calls !! k = Some (tableIndex, cells, res) ->
    exists table,
      tables !! k = Some table
      /\ tableIndex
         = wrap64 (TableData_StartIndex table + tableOffset
                   + netGuardedDrift (take k calls)).
Proof.
  induction 1 as [off|table rest off err|table rest off tableEnd calls result idx _ IH];
    intros k tableIndex cells res Hk.
  - discriminate.
  - destruct k as [|k]; [|discriminate]. injection Hk as <- _ _.
    exists table. split; [reflexivity|]. simpl. f_equal. lia.
  - destruct k as [|k]; simpl in Hk.
    + injection Hk as <- _ _. exists table. split; [reflexivity|].
      simpl. subst idx. f_equal. lia.
    + destruct (IH _ _ _ _ Hk) as (t & Ht & ->).
      exists t. split; [exact Ht|].
      change (netGuardedDrift (take (S k) ((idx, TableData_Cells table, Ok tableEnd) :: calls)))
        with (guardedDrift (idx, TableData_Cells table, Ok tableEnd)
              + netGuardedDrift (take k calls))%Z.
      set (d := netGuardedDrift (take k calls)).
      set (g := guardedDrift (idx, TableData_Cells table, Ok tableEnd)).
      replace (TableData_StartIndex t + nextTableOffset off idx tableEnd + d)%Z
        with (TableData_StartIndex t + d + nextTableOffset off idx tableEnd)%Z by lia.
      rewrite <- wrap64_add_wrap_r,
        (nextTableOffset_guarded off idx tableEnd (TableData_Cells table)),
        wrap64_add_wrap_r.
      f_equal. fold g. lia.
Qed.

(** X9.  Whatever the service answers, the [k]-th table call places its
    table at the start offset of the [k]-th descriptor plus a shift that
    is never negative: the sum, over the earlier calls whose end index
    lies beyond their placement, of that end index less the placement
    less one; an earlier call that answers with an end index at or before
    its placement adds nothing.  So, short of 64-bit overflow, no table is
    placed before the offset the formatter gave it. *)
Theorem table_never_placed_early (remote : Remote) (id : string)
    (tables : list TableData) (h : History) :
  (exists calls result,
      insertTables remote id tables 0 h = (result, h ++ map (insertEvent id) calls))
  /\ forall calls result,
      insertTables remote id tables 0 h = (result, h ++ map (insertEvent id) calls) ->
      forall k tableIndex cells res,
        calls !! k = Some (tableIndex, cells, res) ->
        exists table,
          let shift := netGuardedDrift (take k calls) in
          tables !! k = Some table
          /\ (0 <= shift)%Z
          /\ tableIndex = wrap64 (TableData_StartIndex table + shift)
          /\ (inInt64 (TableData_StartIndex table + shift) ->
              (TableData_StartIndex table <= tableIndex)%Z).
Proof.
  destruct (insertTables_run remote id tables 0 h) as (calls0 & result0 & Hrun0 & Htrace).
  split; [now exists calls0, result0|].
  intros calls result Hrun k tableIndex cells res Hk.
  rewrite Hrun0 in Hrun. injection Hrun as _ Hh.
  apply app_inv_head, map_insertEvent_inj in Hh. subst calls0.
  destruct (TableRun_placement_guarded _ _ _ _ Htrace _ _ _ _ Hk) as (table & Ht & Hidx).
  rewrite Z.add_0_r in Hidx.
  exists table. simpl. split; [exact Ht|].
  pose proof (netGuardedDrift_nonneg (take k calls)) as Hshift.
  split; [exact Hshift|]. split; [exact Hidx|].
  intros Hrange. rewrite Hidx, wrap64_inInt64 by exact Hrange. lia.
Qed.

Lemma table_never_placed_early_witness :
  insertTables stallingRemote "doc" threeTables 0 []
  = (None, [] ++ map (insertEvent "doc")
                   [(10, [["a"]], Ok 0); (20, [["b"]], Ok 0); (30, [["c"]], Ok 0)]%Z)
  /\ exists table,
       let shift :=
         netGuardedDrift
           (take 2 [(10, [["a"]], Ok 0); (20, [["b"]], Ok 0); (30, [["c"]], Ok 0)]%Z) in
       threeTables !! 2%nat = Some table
       /\ (0 <= shift)%Z
       /\ 30%Z = wrap64 (TableData_StartIndex table + shift)
       /\ (inInt64 (TableData_StartIndex table + shift) ->
           (TableData_StartIndex table <= 30)%Z).
Proof.
  split; [reflexivity|].
  exact (proj2 (table_never_placed_early stallingRemote "doc" threeTables [])
           [(10, [["a"]], Ok 0); (20, [["b"]], Ok 0); (30, [["c"]], Ok 0)]%Z None
           eq_refl 2%nat 30%Z [["c"]] (Ok 0%Z) eq_refl).
Defined.

(** ** The image pass *)

Lemma uploadEvent_inj (c c' : UploadCall) : uploadEvent c = uploadEvent c' -> c = c'.
Proof. destruct c, c'. unfold uploadEvent. simpl. now intros [= -> ->]. Qed.

Lemma uploadsOf_app (h h' : History) : uploadsOf (h ++ h') = uploadsOf h ++ uploadsOf h'.
Proof. apply flat_map_app. Qed.

Lemma uploadsOf_uploads (ups : list UploadCall) : uploadsOf (map uploadEvent ups) = ups.
Proof.
  induction ups as [|[path res] ups IH]; [reflexivity|].
  simpl. now rewrite IH.
Qed.

Lemma map_uploadEvent_inj (ups ups' : list UploadCall) :
  map uploadEvent ups = map uploadEvent ups' -> ups = ups'.
Proof.
  intros H. apply (f_equal uploadsOf) in H. now rewrite !uploadsOf_uploads in H.
Qed.

Lemma uploadedFileIDs_app (h h' : History) :
  uploadedFileIDs (h ++ h') = uploadedFileIDs h ++ uploadedFileIDs h'.
Proof. apply flat_map_app. Qed.

Section ImagePassFacts.
Context {markdownImage PlaceholderRange : Type}.
Variable image_index : markdownImage -> Z.
Variable image_originalRef : markdownImage -> string.
Variable image_placeholder : markdownImage -> string.
Variable image_isRemote : markdownImage -> bool.
Variable findPlaceholderIndices :
  option Document -> nat -> gmap string PlaceholderRange.
Variable resolveMarkdownImagePath : string -> string -> Result string.
Variable buildImageInsertRequests :
  gmap string PlaceholderRange -> list markdownImage -> gmap Z string -> list Request.
Variable remote : Remote.
Variable c_File : string.
Variable placeholders : gmap string PlaceholderRange.

#[local] Abbreviation run_of := (ImageRun image_index image_originalRef image_placeholder
                      image_isRemote resolveMarkdownImagePath c_File placeholders).
#[local] Abbreviation pending := (toUpload image_placeholder image_isRemote placeholders).
#[local] Abbreviation is_placed := (placed image_placeholder placeholders).

Lemma resolveImages_run (images : list markdownImage) :
  forall imageURLs tempFileIDs h,
  exists ups result,
    resolveImages image_index image_originalRef image_placeholder image_isRemote
      resolveMarkdownImagePath remote c_File placeholders images imageURLs tempFileIDs h
    = (result, h ++ map uploadEvent ups)
    /\ run_of images imageURLs tempFileIDs ups result.
Proof.
  induction images as [|img rest IH]; intros imageURLs tempFileIDs h; simpl.
  - exists [], (Ok (imageURLs, tempFileIDs)). simpl. rewrite app_nil_r.
    split; [reflexivity | constructor].
  - destruct (placeholders !! image_placeholder img) as [range|] eqn:Hplaced.
    2:{ destruct (IH imageURLs tempFileIDs h) as (ups & result & Hrun & Htrace).
        exists ups, result. split; [exact Hrun|].
        apply ImageRun_skip; [|exact Htrace]. unfold placed. now rewrite Hplaced. }
    assert (Hp : is_placed img = true) by (unfold placed; now rewrite Hplaced).
    destruct (image_isRemote img) eqn:Hremote.
    { destruct (IH (<[image_index img := image_originalRef img]> imageURLs) tempFileIDs h)
        as (ups & result & Hrun & Htrace).
      exists ups, result. split; [exact Hrun|].
      now apply ImageRun_remote. }
    destruct (resolveMarkdownImagePath c_File (image_originalRef img))
      as [realPath|err] eqn:Hresolve.
    2:{ exists [], (Fail err). simpl. rewrite app_nil_r. split; [reflexivity|].
        now apply ImageRun_unresolved. }
    unfold mbind, M_bind, uploadLocalImage, call.
    destruct (remote_UploadLocalImage remote h realPath) as [[url fileID]|err] eqn:Hup.
    + destruct (IH (<[image_index img := url]> imageURLs) (tempFileIDs ++ [fileID])
                  (h ++ [EvUploadLocalImage realPath (Ok (url, fileID))]))
        as (ups & result & Hrun & Htrace).
      exists ((realPath, Ok (url, fileID)) :: ups), result. split.
      * rewrite Hrun. simpl. now rewrite <- app_assoc.
      * now apply ImageRun_uploaded.
    + exists [(realPath, Fail err)], (Fail err). split; [reflexivity|].
      now apply ImageRun_refused.
Qed.

(** The uploads follow the images to upload, in order, each at the path
    its reference resolves to. *)
Lemma ImageRun_uploads (images : list markdownImage) (imageURLs : gmap Z string)
    (tempFileIDs : list string) (ups : list UploadCall)
    (result : Result (gmap Z string * list string)) :
  run_of images imageURLs tempFileIDs ups result ->
  Forall2 (fun img c =>
             resolveMarkdownImagePath c_File (image_originalRef img) = Ok c.1)
          (take (length ups) (pending images)) ups.
Proof.
  induction 1 as [urls ids|img rest urls ids ups result Hp _ IH
                 |img rest urls ids ups result Hp Hr _ IH
                 |img rest urls ids err Hp Hr Hres
                 |img rest urls ids realPath err Hp Hr Hres
                 |img rest urls ids realPath url fileID ups result Hp Hr Hres _ IH];
    unfold toUpload; simpl; try rewrite Hp; try rewrite Hr; simpl;
    try exact IH; try constructor; try assumption; try constructor.
Qed.

(** A run that ends well uploaded every image to upload, and
    [tempFileIDs] has grown by the file ids the uploads returned. *)
Lemma ImageRun_complete (images : list markdownImage) (imageURLs : gmap Z string)
    (tempFileIDs : list string) (ups : list UploadCall)
    (result : Result (gmap Z string * list string)) :
  run_of images imageURLs tempFileIDs ups result ->
  forall imageURLs' tempFileIDs',
    result = Ok (imageURLs', tempFileIDs') ->
    length ups = length (pending images)
    /\ Forall uploadSucceeded ups
    /\ tempFileIDs' = tempFileIDs ++ uploadedFileIDs (map uploadEvent ups).
Proof.
  induction 1 as [urls ids|img rest urls ids ups result Hp _ IH
                 |img rest urls ids ups result Hp Hr _ IH
                 |img rest urls ids err Hp Hr Hres
                 |img rest urls ids realPath err Hp Hr Hres
                 |img rest urls ids realPath url fileID ups result Hp Hr Hres _ IH];
    intros urls' ids' Hok; try discriminate Hok;
    unfold toUpload; simpl; try rewrite Hp; try rewrite Hr; simpl.
  - injection Hok as _ <-. rewrite app_nil_r. now split_and!.
  - exact (IH _ _ Hok).
  - exact (IH _ _ Hok).
  - destruct (IH _ _ Hok) as (Hlen & Hall & ->). split_and!.
    + now f_equal.
    + constructor; [now exists url, fileID | exact Hall].
    + now rewrite <- app_assoc.
Qed.

(** A run that fails made no upload after the failure: either its last
    upload was refused with the error returned, or every upload succeeded
    and the next image to upload could not be resolved. *)
Lemma ImageRun_failure (images : list markdownImage) (imageURLs : gmap Z string)
    (tempFileIDs : list string) (ups : list UploadCall)
    (result : Result (gmap Z string * list string)) :
  run_of images imageURLs tempFileIDs ups result ->
  (forall j path err, ups !! j = Some (path, Fail err) ->
                      result = Fail err /\ length ups = S j)
  /\ forall err, result = Fail err ->
       (exists path, last ups = Some (path, Fail err))
       \/ (Forall uploadSucceeded ups
           /\ exists img, pending images !! length ups = Some img
                          /\ resolveMarkdownImagePath c_File (image_originalRef img)
                             = Fail err).
Proof.
  induction 1 as [urls ids|img rest urls ids ups result Hp _ IH
                 |img rest urls ids ups result Hp Hr _ IH
                 |img rest urls ids err Hp Hr Hres
                 |img rest urls ids realPath err Hp Hr Hres
                 |img rest urls ids realPath url fileID ups result Hp Hr Hres _ IH];
    unfold toUpload; simpl; try rewrite Hp; try rewrite Hr; simpl.
  - split; [discriminate | discriminate].
  - exact IH.
  - exact IH.
  - split; [discriminate|]. intros e [= <-]. right.
    split; [constructor | now exists img].
  - split.
    + intros [|j] path e; [|discriminate]. now intros [= _ <-].
    + intros e [= <-]. left. now exists realPath.
  - destruct IH as [IH1 IH2]. split.
    + intros [|j] path e; [discriminate|]. simpl. intros Hj.
      destruct (IH1 _ _ _ Hj) as [-> ->]. now split.
    + intros e He. destruct (IH2 e He) as [[path Hlast]|[Hall Hnext]].
      * left. exists path. destruct ups as [|c ups]; [discriminate Hlast|].
        exact Hlast.
      * right. split; [|exact Hnext].
        constructor; [now exists url, fileID | exact Hall].
Qed.

(** What the loop leaves in [imageURLs] when no two images share an
    index. *)
Lemma ImageRun_urls (images : list markdownImage) (imageURLs : gmap Z string)
    (tempFileIDs : list string) (ups : list UploadCall)
    (result : Result (gmap Z string * list string)) :
  run_of images imageURLs tempFileIDs ups result ->
  NoDup (map image_index images) ->
  forall imageURLs' tempFileIDs',
    result = Ok (imageURLs', tempFileIDs') ->
    (forall k, ~ In k (map image_index images) -> imageURLs' !! k = imageURLs !! k)
    /\ (forall img, In img images -> is_placed img = false ->
          imageURLs' !! image_index img = imageURLs !! image_index img)
    /\ (forall img, In img images -> is_placed img = true -> image_isRemote img = true ->
          imageURLs' !! image_index img = Some (image_originalRef img))
    /\ (forall j img, pending images !! j = Some img ->
          exists path url fileID,
            ups !! j = Some (path, Ok (url, fileID))
            /\ imageURLs' !! image_index img = Some url).
Proof.
  induction 1 as [urls ids|img rest urls ids ups result Hp _ IH
                 |img rest urls ids ups result Hp Hr _ IH
                 |img rest urls ids err Hp Hr Hres
                 |img rest urls ids realPath err Hp Hr Hres
                 |img rest urls ids realPath url fileID ups result Hp Hr Hres _ IH];
    intros Hnodup urls' ids' Hok; try discriminate Hok.
  - injection Hok as <- _. split_and!; try reflexivity; try (intros ? []).
    intros j img Hj. discriminate Hj.
  - simpl in Hnodup. apply NoDup_cons in Hnodup as [Hfresh Hnodup].
    rewrite list_elem_of_In in Hfresh.
    destruct (IH Hnodup _ _ Hok) as (Hout & Hskip & Hrem & Hup).
    assert (Hpending : pending (img :: rest) = pending rest).
    { unfold toUpload. simpl. now rewrite Hp. }
    split_and!.
    + intros k Hk. apply Hout. intros Hin. apply Hk. now right.
    + intros img' [<-|Hin] Hp'; [now apply Hout | now apply Hskip].
    + intros img' [<-|Hin] Hp' Hr'; [congruence | now apply Hrem].
    + rewrite Hpending. exact Hup.
  - simpl in Hnodup. apply NoDup_cons in Hnodup as [Hfresh Hnodup].
    rewrite list_elem_of_In in Hfresh.
    destruct (IH Hnodup _ _ Hok) as (Hout & Hskip & Hrem & Hup).
    assert (Hpending : pending (img :: rest) = pending rest).
    { unfold toUpload. simpl. now rewrite Hp, Hr. }
    assert (Hne : forall img', In img' rest -> image_index img <> image_index img').
    { intros img' Hin E. apply Hfresh. rewrite E. now apply in_map. }
    split_and!.
    + intros k Hk. rewrite Hout by (intros Hin; apply Hk; now right).
      apply lookup_insert_ne. intros E. apply Hk. now left.
    + intros img' [<-|Hin] Hp'; [congruence|].
      rewrite (Hskip img' Hin Hp'). apply lookup_insert_ne. now apply Hne.
    + intros img' [<-|Hin] Hp' Hr'; [|now apply Hrem].
      rewrite (Hout _ Hfresh). now simplify_map_eq.
    + rewrite Hpending. exact Hup.
  - simpl in Hnodup. apply NoDup_cons in Hnodup as [Hfresh Hnodup].
    rewrite list_elem_of_In in Hfresh.
    destruct (IH Hnodup _ _ Hok) as (Hout & Hskip & Hrem & Hup).
    assert (Hpending : pending (img :: rest) = img :: pending rest).
    { unfold toUpload. simpl. now rewrite Hp, Hr. }
    assert (Hne : forall img', In img' rest -> image_index img <> image_index img').
    { intros img' Hin E. apply Hfresh. rewrite E. now apply in_map. }
    split_and!.
    + intros k Hk. rewrite Hout by (intros Hin; apply Hk; now right).
      apply lookup_insert_ne. intros E. apply Hk. now left.
    + intros img' [<-|Hin] Hp'; [congruence|].
      rewrite (Hskip img' Hin Hp'). apply lookup_insert_ne. now apply Hne.
    + intros img' [<-|Hin] Hp' Hr'; [congruence | now apply Hrem].
    + rewrite Hpending. intros [|j] img' Hj.
      * injection Hj as <-. exists realPath, url, fileID. split; [reflexivity|].
        rewrite (Hout _ Hfresh). now simplify_map_eq.
      * exact (Hup j img' Hj).
Qed.

End ImagePassFacts.

Section InsertImagesCases.
Context {markdownImage PlaceholderRange : Type}.
Variable image_index : markdownImage -> Z.
Variable image_originalRef : markdownImage -> string.
Variable image_placeholder : markdownImage -> string.
Variable image_isRemote : markdownImage -> bool.
Variable findPlaceholderIndices :
  option Document -> nat -> gmap string PlaceholderRange.
Variable resolveMarkdownImagePath : string -> string -> Result string.
Variable buildImageInsertRequests :
  gmap string PlaceholderRange -> list markdownImage -> gmap Z string -> list Request.
Variable remote : Remote.
Variable c_File : string.

(** The four ways [insertImages] runs. *)
Lemma insertImages_cases (account docID : string) (images : list markdownImage)
    (h : History) :
  let run := insertImages image_index image_originalRef image_placeholder image_isRemote
               findPlaceholderIndices resolveMarkdownImagePath buildImageInsertRequests
               remote c_File account docID images h in
  (exists e, run = (Some e, h ++ [EvNewDocsService account (Some e)]))
  \/ (exists e,
        run = (Some (Errorf "read back document" e),
               h ++ [EvNewDocsService account None; EvDocumentsGet docID (Fail e)]))
  \/ (exists doc,
        findPlaceholderIndices doc (length images) = ∅
        /\ run = (None,
                  h ++ [EvNewDocsService account None; EvDocumentsGet docID (Ok doc)]))
  \/ (exists doc ups loopResult result batch,
        let found := findPlaceholderIndices doc (length images) in
        found <> ∅
        /\ ImageRun image_index image_originalRef image_placeholder image_isRemote
             resolveMarkdownImagePath c_File found images ∅ [] ups loopResult
        /\ run = (result,
                  h ++ [EvNewDocsService account None; EvDocumentsGet docID (Ok doc)]
                    ++ map uploadEvent ups ++ batch ++ [EvCleanupDriveFileIDs []])
        /\ match loopResult with
           | Fail e => batch = [] /\ result = Some e
           | Ok (imageURLs, _) =>
               let reqs := buildImageInsertRequests found images imageURLs in
               (reqs = [] /\ batch = [] /\ result = None)
               \/ (reqs <> [] /\ batch = [EvBatchUpdate docID reqs result])
           end).
Proof.
  intros run. subst run.
  unfold insertImages, newDocsService, DocumentsGet, defer,
    cleanupDriveFileIDsBestEffort, mbind, M_bind, mret, M_ret, call.
  destruct (remote_NewDocsService remote h account) as [e|] eqn:Hsvc.
  { left. now exists e. }
  right.
  set (h1 := h ++ [EvNewDocsService account None]).
  destruct (remote_DocumentsGet remote h1 docID) as [doc|e] eqn:Hget.
  2:{ left. exists e. unfold h1. now rewrite <- app_assoc. }
  right.
  set (found := findPlaceholderIndices doc (length images)).
  destruct (size found =? 0)%nat eqn:Hsize.
  { left. exists doc. split.
    - apply Nat.eqb_eq in Hsize. now apply map_size_empty_iff.
    - unfold h1. now rewrite <- app_assoc. }
  right.
  assert (Hfound : found <> ∅).
  { intros E. rewrite E, map_size_empty in Hsize. discriminate Hsize. }
  set (h2 := h1 ++ [EvDocumentsGet docID (Ok doc)]).
  assert (Hh2 : h2 = h ++ [EvNewDocsService account None; EvDocumentsGet docID (Ok doc)]).
  { unfold h2, h1. now rewrite <- app_assoc. }
  destruct (resolveImages_run image_index image_originalRef image_placeholder
              image_isRemote resolveMarkdownImagePath remote c_File found images ∅ [] h2)
    as (ups & loopResult & Hrun & Htrace).
  fold found in Hrun, Htrace. rewrite Hrun.
  destruct loopResult as [[imageURLs tempFileIDs]|e].
  - destruct (length (buildImageInsertRequests found images imageURLs) =? 0)%nat
      eqn:Hreqs.
    + exists doc, ups, (Ok (imageURLs, tempFileIDs)), None, [].
      split; [exact Hfound|]. split; [exact Htrace|]. split.
      * rewrite Hh2. simpl. rewrite <- ?app_assoc. reflexivity.
      * left. apply Nat.eqb_eq, length_zero_iff_nil in Hreqs. now split_and!.
    + eexists doc, ups, (Ok (imageURLs, tempFileIDs)), _, [_].
      split; [exact Hfound|]. split; [exact Htrace|]. split.
      * rewrite Hh2. simpl. rewrite <- ?app_assoc. reflexivity.
      * right. split; [|reflexivity].
        intros E. unfold found in Hreqs. rewrite E in Hreqs. discriminate Hreqs.
  - exists doc, ups, (Fail e), (Some e), [].
    split; [exact Hfound|]. split; [exact Htrace|]. split.
    + rewrite Hh2. simpl. rewrite <- ?app_assoc. reflexivity.
    + now split.
Qed.
End InsertImagesCases.

(** The events of a pass that went into its loop. *)
Lemma pass_uploads (account docID : string) (doc : option Document)
    (ups : list UploadCall) (batch : list Event) :
  uploadsOf batch = [] ->
  uploadsOf (EvNewDocsService account None :: EvDocumentsGet docID (Ok doc)
               :: map uploadEvent ups ++ batch ++ [EvCleanupDriveFileIDs []])
  = ups.
Proof.
  intros Hbatch.
  change (uploadsOf (map uploadEvent ups ++ batch ++ [EvCleanupDriveFileIDs []]) = ups).
  rewrite !uploadsOf_app, uploadsOf_uploads, Hbatch. simpl.
  now rewrite app_nil_r.
Qed.

Lemma pass_get (account docID : string) (doc doc' : option Document)
    (ups : list UploadCall) (batch : list Event) :
  (forall ev, In ev batch -> exists reqs err, ev = EvBatchUpdate docID reqs err) ->
  In (EvDocumentsGet docID (Ok doc'))
     (EvNewDocsService account None :: EvDocumentsGet docID (Ok doc)
        :: map uploadEvent ups ++ batch ++ [EvCleanupDriveFileIDs []]) ->
  doc' = doc.
Proof.
  intros Hbatch. simpl. rewrite !in_app_iff, in_map_iff. simpl.
  intros [[=]|[[= ->]|[(c & [=] & _)|[Hin|[[=]|[]]]]]]; [reflexivity|].
  destruct (Hbatch _ Hin) as (reqs & err & [=]).
Qed.

Lemma toUpload_none {markdownImage PlaceholderRange : Type}
    (image_placeholder : markdownImage -> string)
    (image_isRemote : markdownImage -> bool) (images : list markdownImage) :
  toUpload image_placeholder image_isRemote (∅ : gmap string PlaceholderRange) images = [].
Proof.
  unfold toUpload, placed. induction images as [|img rest IH]; [reflexivity|].
  simpl. now rewrite lookup_empty.
Qed.

(** X10.  The image pass uploads nothing but local images whose
    placeholder stands in the document it read back: its uploads follow
    those images in their order, each at the path its reference resolves
    to; a remote image, and an image whose placeholder is missing, is
    never uploaded, and without the document nothing is.  A refused
    upload is the last one and its error is what the pass returns; a
    pass that returns no error has uploaded every such image, each with
    success. *)
Theorem uploads_follow_placed_local_images {markdownImage PlaceholderRange : Type}
    (image_index : markdownImage -> Z)
    (image_originalRef image_placeholder : markdownImage -> string)
    (image_isRemote : markdownImage -> bool)
    (findPlaceholderIndices : option Document -> nat -> gmap string PlaceholderRange)
    (resolveMarkdownImagePath : string -> string -> Result string)
    (buildImageInsertRequests :
       gmap string PlaceholderRange -> list markdownImage -> gmap Z string -> list Request)
    (remote : Remote) (c_File account docID : string) (images : list markdownImage)
    (h : History) :
  let run := insertImages image_index image_originalRef image_placeholder image_isRemote
               findPlaceholderIndices resolveMarkdownImagePath buildImageInsertRequests
               remote c_File account docID images h in
  (exists new, run.2 = h ++ new)
  /\ forall new, run.2 = h ++ new ->
     let ups := uploadsOf new in
     ((forall doc, ~ In (EvDocumentsGet docID (Ok doc)) new) -> ups = [])
     /\ (forall j path err, ups !! j = Some (path, Fail err) ->
           run.1 = Some err /\ length ups = S j)
     /\ forall doc, In (EvDocumentsGet docID (Ok doc)) new ->
          let pending := toUpload image_placeholder image_isRemote
                           (findPlaceholderIndices doc (length images)) images in
          Forall2 (fun img c =>
                     resolveMarkdownImagePath c_File (image_originalRef img) = Ok c.1)
                  (take (length ups) pending) ups
          /\ (run.1 = None -> length ups = length pending /\ Forall uploadSucceeded ups).
Proof.
  intros run.
  destruct (insertImages_cases image_index image_originalRef image_placeholder
              image_isRemote findPlaceholderIndices resolveMarkdownImagePath
              buildImageInsertRequests remote c_File account docID images h)
    as [(e & Hrun)|[(e & Hrun)|[(doc & Hnone & Hrun)
       |(doc & ups & loopResult & result & batch & Hfound & Htrace & Hrun & Hend)]]];
    fold run in Hrun; rewrite Hrun; simpl fst; simpl snd;
    (split; [eexists; reflexivity|]); intros new Hnew; apply app_inv_head in Hnew;
    subst new.
  - split_and!; [reflexivity | discriminate |].
    intros doc [[=]|[]].
  - split_and!; [reflexivity | discriminate |].
    intros doc [[=]|[[=]|[]]].
  - split_and!; [reflexivity | discriminate |].
    intros doc' [[=]|[[= ->]|[]]]. rewrite Hnone, toUpload_none.
    split; [constructor | now split].
  - cbv zeta in Hfound, Htrace, Hend.
    assert (Hbatch : forall ev, In ev batch -> exists reqs err, ev = EvBatchUpdate docID reqs err).
    { destruct loopResult as [[urls ids]|e].
      - destruct Hend as [(_ & -> & _)|(_ & ->)]; [intros ev []|].
        intros ev [<-|[]]. now eexists _, _.
      - destruct Hend as [-> _]. intros ev []. }
    assert (Hnoup : uploadsOf batch = []).
    { destruct batch as [|ev batch]; [reflexivity|].
      destruct loopResult as [[urls ids]|e].
      - destruct Hend as [(_ & [=] & _)|(_ & [= -> ->])]. reflexivity.
      - destruct Hend as [[=] _]. }
    cbv zeta. rewrite (pass_uploads account docID doc ups batch Hnoup).
    destruct (ImageRun_failure _ _ _ _ _ _ _ _ _ _ _ _ Htrace) as [Hrefused _].
    split_and!.
    + intros Hget. exfalso. apply (Hget doc). now right; left.
    + intros j path err Hj. destruct (Hrefused j path err Hj) as [-> Hlen].
      destruct Hend as [_ ->]. now split.
    + intros doc' Hin. apply pass_get in Hin; [|exact Hbatch]. subst doc'.
      split; [exact (ImageRun_uploads _ _ _ _ _ _ _ _ _ _ _ _ Htrace)|].
      intros Hresult. destruct loopResult as [[urls ids]|e].
      * destruct (ImageRun_complete _ _ _ _ _ _ _ _ _ _ _ _ Htrace _ _ eq_refl)
          as (Hlen & Hall & _).
        now split.
      * destruct Hend as [_ ->]. discriminate Hresult.
Qed.

Lemma uploads_follow_placed_local_images_witness :
  (mixedInsertImages []).2 = [] ++ mixedEvents
  /\ In (EvDocumentsGet "doc" (Ok (Some (mkDocument None)))) mixedEvents
  /\ length (uploadsOf mixedEvents)
     = length (toUpload snd sampleIsRemote
                 (mixedPlaceholders (Some (mkDocument None)) (length mixedImages))
                 mixedImages)
  /\ Forall uploadSucceeded (uploadsOf mixedEvents).
Proof.
  assert (Hrun : (mixedInsertImages []).2 = [] ++ mixedEvents) by (vm_compute; reflexivity).
  assert (Hin : In (EvDocumentsGet "doc" (Ok (Some (mkDocument None)))) mixedEvents).
  { right. left. reflexivity. }
  assert (Hnone : (mixedInsertImages []).1 = None) by (vm_compute; reflexivity).
  split; [exact Hrun|]. split; [exact Hin|].
  exact (proj2 (proj2 (proj2 (proj2
    (uploads_follow_placed_local_images fst snd snd sampleIsRemote mixedPlaceholders
       sampleResolvePath mixedImageRequests obligingRemote "/notes/post.md"
       "me@example.com" "doc" mixedImages [])
    mixedEvents Hrun)) (Some (mkDocument None)) Hin) Hnone).
Defined.

(** X11.  The image pass sends at most one batch update, to the document
    it was given, and never an empty one.  When it does, the batch is the
    last thing done before the cleanup, its answer is what the pass
    returns, and by then every local image whose placeholder stands in
    the document has been uploaded with success: after a path that does
    not resolve or an upload that is refused no batch is sent. *)
Theorem image_batch_is_last_and_complete {markdownImage PlaceholderRange : Type}
    (image_index : markdownImage -> Z)
    (image_originalRef image_placeholder : markdownImage -> string)
    (image_isRemote : markdownImage -> bool)
    (findPlaceholderIndices : option Document -> nat -> gmap string PlaceholderRange)
    (resolveMarkdownImagePath : string -> string -> Result string)
    (buildImageInsertRequests :
       gmap string PlaceholderRange -> list markdownImage -> gmap Z string -> list Request)
    (remote : Remote) (c_File account docID : string) (images : list markdownImage)
    (h : History) :
  let run := insertImages image_index image_originalRef image_placeholder image_isRemote
               findPlaceholderIndices resolveMarkdownImagePath buildImageInsertRequests
               remote c_File account docID images h in
  (exists new, run.2 = h ++ new)
  /\ forall new, run.2 = h ++ new ->
     forall i docID' reqs err,
       new !! i = Some (EvBatchUpdate docID' reqs err) ->
       docID' = docID /\ reqs <> [] /\ run.1 = err
       /\ new !! S i = Some (EvCleanupDriveFileIDs [])
       /\ length new = S (S i)
       /\ Forall uploadSucceeded (uploadsOf new)
       /\ exists doc imageURLs,
            let found := findPlaceholderIndices doc (length images) in
            In (EvDocumentsGet docID (Ok doc)) new
            /\ length (uploadsOf new)
               = length (toUpload image_placeholder image_isRemote found images)
            /\ reqs = buildImageInsertRequests found images imageURLs.
Proof.
  intros run.
  destruct (insertImages_cases image_index image_originalRef image_placeholder
              image_isRemote findPlaceholderIndices resolveMarkdownImagePath
              buildImageInsertRequests remote c_File account docID images h)
    as [(e & Hrun)|[(e & Hrun)|[(doc & Hnone & Hrun)
       |(doc & ups & loopResult & result & batch & Hfound & Htrace & Hrun & Hend)]]];
    fold run in Hrun; rewrite Hrun; simpl fst; simpl snd;
    (split; [eexists; reflexivity|]); intros new Hnew; apply app_inv_head in Hnew;
    subst new; intros i docID' reqs err Hi.
  - destruct i as [|[|i]]; discriminate Hi.
  - destruct i as [|[|[|i]]]; discriminate Hi.
  - destruct i as [|[|[|i]]]; discriminate Hi.
  - cbv zeta in Hfound, Htrace, Hend.
    destruct i as [|[|i]]; [discriminate Hi | discriminate Hi |].
    change ((map uploadEvent ups ++ batch ++ [EvCleanupDriveFileIDs []]) !! i
            = Some (EvBatchUpdate docID' reqs err)) in Hi.
    apply lookup_app_Some in Hi as [Hi|[Hlen Hi]].
    { rewrite list_lookup_fmap in Hi.
      destruct (ups !! i) as [c|]; discriminate Hi. }
    rewrite length_map in Hlen, Hi.
    assert (Hbatch : exists urls ids,
               loopResult = Ok (urls, ids)
               /\ batch = [EvBatchUpdate docID reqs err]
               /\ docID' = docID /\ result = err /\ i = length ups
               /\ reqs = buildImageInsertRequests
                           (findPlaceholderIndices doc (length images)) images urls
               /\ reqs <> []).
    { destruct loopResult as [[urls ids]|e].
      - destruct Hend as [(_ & -> & _)|(Hreqs & ->)].
        + destruct (i - length ups)%nat as [|[|k]]; discriminate Hi.
        + destruct (i - length ups)%nat as [|[|k]] eqn:Hk; try discriminate Hi.
          injection Hi as <- <- <-. exists urls, ids.
          split_and!; try reflexivity; [lia | exact Hreqs].
      - destruct Hend as [-> _].
        destruct (i - length ups)%nat as [|[|k]]; discriminate Hi. }
    destruct Hbatch as (urls & ids & -> & -> & -> & -> & -> & Hreqs & Hne).
    destruct (ImageRun_complete _ _ _ _ _ _ _ _ _ _ _ _ Htrace _ _ eq_refl)
      as (Hcount & Hall & _).
    assert (Hups : uploadsOf (EvNewDocsService account None
                     :: EvDocumentsGet docID (Ok doc)
                     :: map uploadEvent ups ++ [EvBatchUpdate docID reqs err]
                        ++ [EvCleanupDriveFileIDs []]) = ups).
    { now apply pass_uploads. }
    rewrite Hups. split_and!; try reflexivity.
    + exact Hne.
    + change ((map uploadEvent ups ++ [EvBatchUpdate docID reqs err]
               ++ [EvCleanupDriveFileIDs []]) !! S (length ups)
              = Some (EvCleanupDriveFileIDs [])).
      rewrite lookup_app_r by (rewrite length_map; lia).
      rewrite length_map. now replace (S (length ups) - length ups)%nat with 1%nat by lia.
    + simpl. rewrite !length_app, length_map. simpl. lia.
    + exact Hall.
    + exists doc, urls. split_and!; [now right; left | exact Hcount | exact Hreqs].
Qed.

Lemma image_batch_is_last_and_complete_witness :
  (mixedInsertImages []).2 = [] ++ mixedEvents
  /\ (mixedInsertImages []).1 = None
  /\ mixedEvents !! 4%nat = Some (EvCleanupDriveFileIDs [])
  /\ length mixedEvents = 5%nat.
Proof.
  assert (Hrun : (mixedInsertImages []).2 = [] ++ mixedEvents) by (vm_compute; reflexivity).
  split; [exact Hrun|].
  pose proof (proj2
    (image_batch_is_last_and_complete fst snd snd sampleIsRemote mixedPlaceholders
       sampleResolvePath mixedImageRequests obligingRemote "/notes/post.md"
       "me@example.com" "doc" mixedImages [])
    mixedEvents Hrun 3%nat "doc"
    [InsertInlineImage 5 "https://drive/notes/fig.png";
     InsertInlineImage 20 "https://example.com/logo.png"] None eq_refl)
    as (_ & _ & Hresult & Hnext & Hlen & _).
  now split_and!.
Defined.

(** X12.  The bookkeeping of the loop of the image pass, when it runs to
    its end: [tempFileIDs] holds the file ids the uploads returned, in
    upload order, and nothing else; and, when no two images share an
    index, [imageURLs] maps the index of an image whose placeholder is
    missing to nothing, the index of a remote image to its own reference,
    untouched, and the index of the [j]-th uploaded image to the URL the
    [j]-th upload returned. *)
Theorem image_loop_bookkeeping {markdownImage PlaceholderRange : Type}
    (image_index : markdownImage -> Z)
    (image_originalRef image_placeholder : markdownImage -> string)
    (image_isRemote : markdownImage -> bool)
    (resolveMarkdownImagePath : string -> string -> Result string)
    (remote : Remote) (c_File : string) (placeholders : gmap string PlaceholderRange)
    (images : list markdownImage) (h : History) :
  let run := resolveImages image_index image_originalRef image_placeholder image_isRemote
               resolveMarkdownImagePath remote c_File placeholders images ∅ [] h in
  let is_placed := placed image_placeholder placeholders in
  (exists ups, run.2 = h ++ map uploadEvent ups)
  /\ forall ups imageURLs tempFileIDs,
       run = (Ok (imageURLs, tempFileIDs), h ++ map uploadEvent ups) ->
       tempFileIDs = uploadedFileIDs (map uploadEvent ups)
       /\ (NoDup (map image_index images) ->
           (forall img, In img images -> is_placed img = false ->
              imageURLs !! image_index img = None)
           /\ (forall img, In img images -> is_placed img = true ->
                 image_isRemote img = true ->
                 imageURLs !! image_index img = Some (image_originalRef img))
           /\ (forall j img,
                 toUpload image_placeholder image_isRemote placeholders images !! j
                 = Some img ->
                 exists path url fileID,
                   ups !! j = Some (path, Ok (url, fileID))
                   /\ imageURLs !! image_index img = Some url)).
Proof.
  intros run is_placed. subst run is_placed.
  destruct (resolveImages_run image_index image_originalRef image_placeholder
              image_isRemote resolveMarkdownImagePath remote c_File placeholders
              images ∅ [] h) as (ups0 & result0 & Hrun0 & Htrace).
  rewrite Hrun0. split; [now exists ups0|].
  intros ups imageURLs tempFileIDs Hrun. injection Hrun as -> Hh.
  apply app_inv_head, map_uploadEvent_inj in Hh. subst ups0.
  destruct (ImageRun_complete _ _ _ _ _ _ _ _ _ _ _ _ Htrace _ _ eq_refl)
    as (_ & _ & Hids).
  split; [exact Hids|].
  intros Hnodup.
  destruct (ImageRun_urls _ _ _ _ _ _ _ _ _ _ _ _ Htrace Hnodup _ _ eq_refl)
    as (_ & Hskip & Hrem & Hup).
  split_and!.
  - intros img Hin Hp. rewrite (Hskip img Hin Hp). apply lookup_empty.
  - exact Hrem.
  - exact Hup.
Qed.

Lemma image_loop_bookkeeping_witness :
  exists imageURLs,
    resolveImages fst snd snd sampleIsRemote sampleResolvePath obligingRemote
      "/notes/post.md" (mixedPlaceholders None 3) mixedImages ∅ [] []
    = (Ok (imageURLs, ["tmp:/notes/fig.png"]),
       [] ++ map uploadEvent
               [("/notes/fig.png",
                 Ok ("https://drive/notes/fig.png", "tmp:/notes/fig.png"))])
    /\ NoDup (map fst mixedImages)
    /\ imageURLs !! 2%Z = None
    /\ imageURLs !! 1%Z = Some "https://example.com/logo.png".
Proof.
  eexists. 
  assert (Hrun : resolveImages fst snd snd sampleIsRemote sampleResolvePath obligingRemote
            "/notes/post.md" (mixedPlaceholders None 3) mixedImages ∅ [] []
          = (Ok (<[1%Z := "https://example.com/logo.png"]>
                   (<[0%Z := "https://drive/notes/fig.png"]> ∅),
                 ["tmp:/notes/fig.png"]),
             [] ++ map uploadEvent
                     [("/notes/fig.png",
                       Ok ("https://drive/notes/fig.png", "tmp:/notes/fig.png"))]))
    by (vm_compute; reflexivity).
  assert (Hnodup : NoDup (map fst mixedImages)).
  { apply NoDup_ListNoDup. repeat constructor; simpl; intuition discriminate. }
  split; [exact Hrun|]. split; [exact Hnodup|].
  pose proof (proj2 (proj2
    (image_loop_bookkeeping fst snd snd sampleIsRemote sampleResolvePath obligingRemote
       "/notes/post.md" (mixedPlaceholders None 3) mixedImages [])
    _ _ _ Hrun) Hnodup) as (Hskip & Hrem & _).
  split.
  - apply (Hskip (2%Z, "gone.png")); [right; right; left; reflexivity|].
    vm_compute. reflexivity.
  - apply (Hrem (1%Z, "https://example.com/logo.png")); [right; left; reflexivity| |];
      vm_compute; reflexivity.
Defined.

(** X13.  In every run of the image pass the cleanup routine is handed
    no file id at all: when it is called -- once, as the last thing the
    pass does, and always when an upload was attempted -- it receives
    the empty list.  So no file the pass uploaded is ever removed by it,
    whether the pass succeeds or fails. *)
Theorem cleanup_never_receives_uploads {markdownImage PlaceholderRange : Type}
    (image_index : markdownImage -> Z)
    (image_originalRef image_placeholder : markdownImage -> string)
    (image_isRemote : markdownImage -> bool)
    (findPlaceholderIndices : option Document -> nat -> gmap string PlaceholderRange)
    (resolveMarkdownImagePath : string -> string -> Result string)
    (buildImageInsertRequests :
       gmap string PlaceholderRange -> list markdownImage -> gmap Z string -> list Request)
    (remote : Remote) (c_File account docID : string) (images : list markdownImage)
    (h : History) :
  let run := insertImages image_index image_originalRef image_placeholder image_isRemote
               findPlaceholderIndices resolveMarkdownImagePath buildImageInsertRequests
               remote c_File account docID images h in
  (exists new, run.2 = h ++ new)
  /\ forall new, run.2 = h ++ new ->
     (forall i ids, new !! i = Some (EvCleanupDriveFileIDs ids) ->
                    ids = [] /\ length new = S i)
     /\ (uploadsOf new <> [] -> last new = Some (EvCleanupDriveFileIDs []))
     /\ forall fileID, In fileID (uploadedFileIDs new) -> ~ In fileID (cleanedFileIDs new).
Proof.
  intros run.
  destruct (insertImages_cases image_index image_originalRef image_placeholder
              image_isRemote findPlaceholderIndices resolveMarkdownImagePath
              buildImageInsertRequests remote c_File account docID images h)
    as [(e & Hrun)|[(e & Hrun)|[(doc & Hnone & Hrun)
       |(doc & ups & loopResult & result & batch & Hfound & Htrace & Hrun & Hend)]]];
    fold run in Hrun; rewrite Hrun; simpl fst; simpl snd;
    (split; [eexists; reflexivity|]); intros new Hnew; apply app_inv_head in Hnew;
    subst new.
  - split_and!; [intros [|[|i]] ids Hi; discriminate Hi | now intros [] | intros ? []].
  - split_and!; [intros [|[|[|i]]] ids Hi; discriminate Hi | now intros [] | intros ? []].
  - split_and!; [intros [|[|[|i]]] ids Hi; discriminate Hi | now intros [] | intros ? []].
  - cbv zeta in Hfound, Htrace, Hend.
    assert (Hbatch : batch = [] \/ exists reqs err, batch = [EvBatchUpdate docID reqs err]).
    { destruct loopResult as [[urls ids]|e].
      - destruct Hend as [(_ & -> & _)|(_ & ->)]; [now left | right; now eexists _, _].
      - destruct Hend as [-> _]. now left. }
    split_and!.
    + intros [|[|i]] ids Hi; [discriminate Hi | discriminate Hi |].
      change ((map uploadEvent ups ++ batch ++ [EvCleanupDriveFileIDs []]) !! i
              = Some (EvCleanupDriveFileIDs ids)) in Hi.
      apply lookup_app_Some in Hi as [Hi|[Hlen Hi]].
      { rewrite list_lookup_fmap in Hi. destruct (ups !! i) as [c|]; discriminate Hi. }
      rewrite length_map in Hlen, Hi. simpl. rewrite !length_app, length_map.
      destruct Hbatch as [->|(reqs & err & ->)]; simpl in *.
      * destruct (i - length ups)%nat as [|k] eqn:Hk; [|discriminate Hi].
        injection Hi as <-. split; [reflexivity | lia].
      * destruct (i - length ups)%nat as [|[|k]] eqn:Hk; try discriminate Hi.
        injection Hi as <-. split; [reflexivity | lia].
    + intros _.
      change (last ((EvNewDocsService account None :: EvDocumentsGet docID (Ok doc)
                      :: map uploadEvent ups ++ batch) ++ [EvCleanupDriveFileIDs []])
              = Some (EvCleanupDriveFileIDs [])) || rewrite ?app_assoc, ?app_comm_cons.
      apply last_snoc.
    + intros fileID _.
      assert (Hclean : cleanedFileIDs (EvNewDocsService account None
                         :: EvDocumentsGet docID (Ok doc)
                         :: map uploadEvent ups ++ batch ++ [EvCleanupDriveFileIDs []])
                       = []).
      { change (cleanedFileIDs (map uploadEvent ups ++ batch ++ [EvCleanupDriveFileIDs []])
                = []).
        rewrite !cleanedFileIDs_app.
        assert (H1 : cleanedFileIDs (map uploadEvent ups) = []).
        { clear. induction ups as [|c ups IH]; [reflexivity | exact IH]. }
        rewrite H1. destruct Hbatch as [->|(reqs & err & ->)]; reflexivity. }
      rewrite Hclean. intros [].
Qed.

Lemma cleanup_never_receives_uploads_witness :
  (mixedInsertImages []).2 = [] ++ mixedEvents
  /\ uploadsOf mixedEvents <> []
  /\ last mixedEvents = Some (EvCleanupDriveFileIDs [])
  /\ In "tmp:/notes/fig.png" (uploadedFileIDs mixedEvents)
  /\ ~ In "tmp:/notes/fig.png" (cleanedFileIDs mixedEvents).
Proof.
  assert (Hrun : (mixedInsertImages []).2 = [] ++ mixedEvents) by (vm_compute; reflexivity).
  assert (Hups : uploadsOf mixedEvents <> []) by discriminate.
  assert (Hin : In "tmp:/notes/fig.png" (uploadedFileIDs mixedEvents)) by now left.
  pose proof (proj2
    (cleanup_never_receives_uploads fst snd snd sampleIsRemote mixedPlaceholders
       sampleResolvePath mixedImageRequests obligingRemote "/notes/post.md"
       "me@example.com" "doc" mixedImages [])
    mixedEvents Hrun) as (_ & Hlast & Hleak).
  split_and!; [exact Hrun | exact Hups | exact (Hlast Hups) | exact Hin | exact (Hleak _ Hin)].
Defined.

(** * The tracking configuration *)

Section TrackingFacts.
Variable TrimSpace : string -> string.
Variable filepath_Join : list string -> string.
Variable config_Dir : Result string.
Variable config_EnsureDir : Result string.
Variable os_UserConfigDir : Result string.
Variable json_Unmarshal : string -> Result Config.
Variable json_MarshalIndent : Config -> Result string.
Variable os_WriteFile_err : Disk -> string -> string -> option error.
Variable secrets_SetSecret_err : Keyring -> string -> string -> option error.

Lemma secret_keys_differ : trackingKeySecretKey <> adminKeySecretKey.
Proof. discriminate. Qed.

Lemma SaveSecrets_stored (keyring keyring' : Keyring) (trackingKey adminKey : string) :
  SaveSecrets secrets_SetSecret_err keyring trackingKey adminKey = (None, keyring') ->
  trackingKey <> "" /\ adminKey <> ""
  /\ keyring' = <[adminKeySecretKey := Ok adminKey]>
                  (<[trackingKeySecretKey := Ok trackingKey]> keyring).
Proof.
  unfold SaveSecrets, secrets_SetSecret.
  destruct (String.eqb_spec trackingKey ""); [discriminate|].
  destruct (String.eqb_spec adminKey ""); [discriminate|].
  destruct (secrets_SetSecret_err keyring trackingKeySecretKey trackingKey);
    [discriminate|].
  destruct (secrets_SetSecret_err _ adminKeySecretKey adminKey); [discriminate|].
  intros [= <-]. now split_and!.
Qed.

Lemma LoadSecrets_both (keyring : Keyring) (trackingKey adminKey : string) :
  keyring !! trackingKeySecretKey = Some (Ok trackingKey) ->
  keyring !! adminKeySecretKey = Some (Ok adminKey) ->
  LoadSecrets keyring = Ok (trackingKey, adminKey).
Proof.
  intros Ht Ha. unfold LoadSecrets, secrets_GetSecret. now rewrite Ht, Ha.
Qed.

Lemma LoadSecrets_stored (keyring : Keyring) (trackingKey adminKey : string) :
  LoadSecrets (<[adminKeySecretKey := Ok adminKey]>
                 (<[trackingKeySecretKey := Ok trackingKey]> keyring))
  = Ok (trackingKey, adminKey).
Proof.
  apply LoadSecrets_both.
  - etransitivity; [apply lookup_insert_ne; intros E; now apply secret_keys_differ|].
    apply lookup_insert_eq.
  - apply lookup_insert_eq.
Qed.

Lemma SaveConfig_stored (disk disk' : Disk) (cfg : Config) :
  SaveConfig filepath_Join config_Dir config_EnsureDir json_MarshalIndent
    os_WriteFile_err disk cfg = (None, disk') ->
  exists path data,
    ConfigPath filepath_Join config_Dir = Ok path
    /\ json_MarshalIndent (toSave cfg) = Ok data
    /\ disk' = <[path := Ok data]> disk.
Proof.
  unfold SaveConfig, os_WriteFile.
  destruct (ConfigPath filepath_Join config_Dir) as [path|]; [|discriminate].
  destruct config_EnsureDir; [|discriminate].
  destruct (json_MarshalIndent (toSave cfg)) as [data|]; [|discriminate].
  destruct (os_WriteFile_err disk path data); [discriminate|].
  intros [= <-]. now exists path, data.
Qed.

Lemma readConfigBytes_primary (disk : Disk) (path data : string) :
  disk !! path = Some (Ok data) ->
  readConfigBytes filepath_Join os_UserConfigDir disk path = Ok (Some data).
Proof. intros H. unfold readConfigBytes, os_ReadFile. now rewrite H. Qed.

(** [LoadConfig] once the bytes of the file are in hand. *)
Lemma LoadConfig_parsed (disk : Disk) (keyring : Keyring) (path data : string)
    (cfg : Config) :
  ConfigPath filepath_Join config_Dir = Ok path ->
  readConfigBytes filepath_Join os_UserConfigDir disk path = Ok (Some data) ->
  json_Unmarshal data = Ok cfg ->
  LoadConfig TrimSpace filepath_Join config_Dir os_UserConfigDir json_Unmarshal
    disk keyring
  = if String.eqb (TrimSpace (Config_TrackingKey cfg)) ""
       || String.eqb (TrimSpace (Config_AdminKey cfg)) ""
       || Config_SecretsInKeyring cfg
    then
      match LoadSecrets keyring with
      | Fail secretErr => Fail secretErr
      | Ok (trackingKey, adminKey) =>
          Ok (mkConfig (Config_Enabled cfg) (Config_WorkerURL cfg)
                (Config_SecretsInKeyring cfg)
                (if String.eqb (TrimSpace (Config_TrackingKey cfg)) ""
                 then trackingKey else Config_TrackingKey cfg)
                (if String.eqb (TrimSpace (Config_AdminKey cfg)) ""
                 then adminKey else Config_AdminKey cfg))
      end
    else Ok cfg.
Proof.
  intros Hpath Hread Hparse. unfold LoadConfig. now rewrite Hpath, Hread, Hparse.
Qed.
End TrackingFacts.

(** X14.  The keys kept in the keyring come back with the configuration:
    after [SaveSecrets] and [SaveConfig] have both succeeded for a
    configuration with [secrets_in_keyring] set, [LoadConfig] returns that
    configuration with the two keys that were saved, whatever keys the
    configuration held when it was saved, and it counts as configured
    when it is enabled and has a worker URL; the file written holds the
    configuration with both keys blanked.  (The JSON codec is a
    parameter: it is assumed to read back what it wrote for this
    configuration, and [TrimSpace] to leave the empty string empty.) *)
Theorem tracking_round_trip_keyring (TrimSpace : string -> string)
    (filepath_Join : list string -> string)
    (config_Dir config_EnsureDir os_UserConfigDir : Result string)
    (json_Unmarshal : string -> Result Config)
    (json_MarshalIndent : Config -> Result string)
    (os_WriteFile_err : Disk -> string -> string -> option error)
    (secrets_SetSecret_err : Keyring -> string -> string -> option error)
    (disk disk' : Disk) (keyring keyring' : Keyring) (cfg : Config)
    (trackingKey adminKey : string) :
  TrimSpace "" = "" ->
  Config_SecretsInKeyring cfg = true ->
  (forall data, json_MarshalIndent (toSave cfg) = Ok data ->
                json_Unmarshal data = Ok (toSave cfg)) ->
  SaveSecrets secrets_SetSecret_err keyring trackingKey adminKey = (None, keyring') ->
  SaveConfig filepath_Join config_Dir config_EnsureDir json_MarshalIndent
    os_WriteFile_err disk cfg = (None, disk') ->
  let loaded := mkConfig (Config_Enabled cfg) (Config_WorkerURL cfg) true
                  trackingKey adminKey in
  LoadConfig TrimSpace filepath_Join config_Dir os_UserConfigDir json_Unmarshal
    disk' keyring' = Ok loaded
  /\ IsConfigured loaded
     = Config_Enabled cfg && negb (String.eqb (Config_WorkerURL cfg) "")
  /\ exists path data,
       ConfigPath filepath_Join config_Dir = Ok path
       /\ disk' !! path = Some (Ok data)
       /\ json_MarshalIndent
            (mkConfig (Config_Enabled cfg) (Config_WorkerURL cfg) true "" "")
          = Ok data.
Proof.
  intros Htrim Hmode Hcodec Hsecrets Hsave loaded.
  apply SaveSecrets_stored in Hsecrets as (Htk & Hak & ->).
  apply SaveConfig_stored in Hsave as (path & data & Hpath & Hdata & ->).
  assert (Hstored : toSave cfg
                    = mkConfig (Config_Enabled cfg) (Config_WorkerURL cfg) true "" "").
  { unfold toSave. now rewrite Hmode. }
  split_and!.
  - rewrite (LoadConfig_parsed TrimSpace filepath_Join config_Dir os_UserConfigDir
               json_Unmarshal _ _ path data (toSave cfg) Hpath).
    + rewrite Hstored. simpl. rewrite Htrim. simpl.
      now rewrite LoadSecrets_stored.
    + apply readConfigBytes_primary, lookup_insert_eq.
    + now apply Hcodec.
  - unfold IsConfigured, loaded. simpl.
    apply String.eqb_neq in Htk. rewrite Htk. now rewrite andb_true_r.
  - exists path, data. split; [exact Hpath|]. split; [apply lookup_insert_eq|].
    now rewrite <- Hstored.
Qed.

Lemma tracking_round_trip_keyring_witness :
  LoadConfig Ascii7.TrimSpace samplePathJoin sampleConfigDir sampleUserConfigDir
    (sampleUnmarshal [sampleConfig])
    (SaveConfig samplePathJoin sampleConfigDir sampleConfigDir sampleMarshal
       alwaysWrites ∅ sampleConfig).2
    (SaveSecrets alwaysWrites ∅ "testkey123" "adminkey456").2
  = Ok (mkConfig true "https://test.workers.dev" true "testkey123" "adminkey456").
Proof.
  assert (Hcodec : forall data, sampleMarshal (toSave sampleConfig) = Ok data ->
                     sampleUnmarshal [sampleConfig] data = Ok (toSave sampleConfig)).
  { intros data [= <-]. vm_compute. reflexivity. }
  exact (proj1
    (tracking_round_trip_keyring Ascii7.TrimSpace samplePathJoin sampleConfigDir
       sampleConfigDir sampleUserConfigDir (sampleUnmarshal [sampleConfig])
       sampleMarshal alwaysWrites alwaysWrites ∅ _ ∅ _ sampleConfig
       "testkey123" "adminkey456" eq_refl eq_refl Hcodec eq_refl eq_refl)).
Defined.

(** X15.  A configuration that carries both keys itself, and does not
    set [secrets_in_keyring], comes back from [LoadConfig] exactly as
    [SaveConfig] was given it, and the keyring is not consulted: the
    result is the same whatever the keyring holds, also when reading the
    keyring would fail.  (Same assumption on the JSON codec.) *)
Theorem tracking_round_trip_file (TrimSpace : string -> string)
    (filepath_Join : list string -> string)
    (config_Dir config_EnsureDir os_UserConfigDir : Result string)
    (json_Unmarshal : string -> Result Config)
    (json_MarshalIndent : Config -> Result string)
    (os_WriteFile_err : Disk -> string -> string -> option error)
    (disk disk' : Disk) (keyring : Keyring) (cfg : Config) :
  Config_SecretsInKeyring cfg = false ->
  TrimSpace (Config_TrackingKey cfg) <> "" ->
  TrimSpace (Config_AdminKey cfg) <> "" ->
  (forall data, json_MarshalIndent cfg = Ok data -> json_Unmarshal data = Ok cfg) ->
  SaveConfig filepath_Join config_Dir config_EnsureDir json_MarshalIndent
    os_WriteFile_err disk cfg = (None, disk') ->
  LoadConfig TrimSpace filepath_Join config_Dir os_UserConfigDir json_Unmarshal
    disk' keyring = Ok cfg.
Proof.
  intros Hmode Htk Hak Hcodec Hsave.
  apply SaveConfig_stored in Hsave as (path & data & Hpath & Hdata & ->).
  assert (Hstored : toSave cfg = cfg) by (unfold toSave; now rewrite Hmode).
  rewrite Hstored in Hdata.
  rewrite (LoadConfig_parsed TrimSpace filepath_Join config_Dir os_UserConfigDir
             json_Unmarshal _ _ path data cfg Hpath).
  - apply String.eqb_neq in Htk, Hak. now rewrite Htk, Hak, Hmode.
  - apply readConfigBytes_primary, lookup_insert_eq.
  - now apply Hcodec.
Qed.

Lemma tracking_round_trip_file_witness :
  LoadConfig Ascii7.TrimSpace samplePathJoin sampleConfigDir sampleUserConfigDir
    (sampleUnmarshal [sampleFileConfig])
    (SaveConfig samplePathJoin sampleConfigDir sampleConfigDir sampleMarshal
       alwaysWrites ∅ sampleFileConfig).2
    {[ trackingKeySecretKey := Fail (ErrorString "keyring is locked") ]}
  = Ok sampleFileConfig.
Proof.
  assert (Hcodec : forall data, sampleMarshal sampleFileConfig = Ok data ->
                     sampleUnmarshal [sampleFileConfig] data = Ok sampleFileConfig).
  { intros data [= <-]. vm_compute. reflexivity. }
  assert (Htk : Ascii7.TrimSpace (Config_TrackingKey sampleFileConfig) <> "")
    by (vm_compute; discriminate).
  assert (Hak : Ascii7.TrimSpace (Config_AdminKey sampleFileConfig) <> "")
    by (vm_compute; discriminate).
  exact (tracking_round_trip_file Ascii7.TrimSpace samplePathJoin sampleConfigDir
           sampleConfigDir sampleUserConfigDir (sampleUnmarshal [sampleFileConfig])
           sampleMarshal alwaysWrites ∅ _
           {[ trackingKeySecretKey := Fail (ErrorString "keyring is locked") ]}
           sampleFileConfig eq_refl Htk Hak Hcodec eq_refl).
Defined.

(** [LoadConfig] sees the disk through [readConfigBytes] only. *)
Lemma LoadConfig_read (TrimSpace : string -> string)
    (filepath_Join : list string -> string)
    (config_Dir os_UserConfigDir os_UserConfigDir' : Result string)
    (json_Unmarshal : string -> Result Config) (disk disk' : Disk) (keyring : Keyring)
    (path : string) :
  ConfigPath filepath_Join config_Dir = Ok path ->
  readConfigBytes filepath_Join os_UserConfigDir disk path
  = readConfigBytes filepath_Join os_UserConfigDir' disk' path ->
  LoadConfig TrimSpace filepath_Join config_Dir os_UserConfigDir json_Unmarshal
    disk keyring
  = LoadConfig TrimSpace filepath_Join config_Dir os_UserConfigDir' json_Unmarshal
      disk' keyring.
Proof. intros Hpath Hread. unfold LoadConfig. now rewrite Hpath, Hread. Qed.

(** X16.  Which file [LoadConfig] reads.  A configuration file at the
    primary path is the one read: the legacy location plays no part,
    whether it can be determined or not and whatever it holds.  A primary
    file that exists and cannot be read fails the load; the legacy file
    does not stand in for it.  Only when the primary file does not exist
    is the legacy file consulted, and then it is read exactly as if it
    were the primary file; an unreadable legacy file, or a legacy
    location that cannot be determined, fails the load.  With neither
    file the load succeeds with tracking disabled, which does not count
    as configured, whatever the keyring holds. *)
Theorem config_file_precedence (TrimSpace : string -> string)
    (filepath_Join : list string -> string)
    (config_Dir os_UserConfigDir : Result string)
    (json_Unmarshal : string -> Result Config) (disk : Disk) (keyring : Keyring)
    (dir : string) :
  config_Dir = Ok dir ->
  let path := filepath_Join [dir; "tracking.json"] in
  let load := LoadConfig TrimSpace filepath_Join config_Dir in
  (forall data, disk !! path = Some (Ok data) ->
     forall os_UserConfigDir' disk', disk' !! path = Some (Ok data) ->
       load os_UserConfigDir json_Unmarshal disk keyring
       = load os_UserConfigDir' json_Unmarshal disk' keyring)
  /\ (forall err, disk !! path = Some (Fail err) ->
        load os_UserConfigDir json_Unmarshal disk keyring
        = Fail (Errorf "read tracking config" err))
  /\ (disk !! path = None ->
      (forall err, os_UserConfigDir = Fail err ->
         load os_UserConfigDir json_Unmarshal disk keyring
         = Fail (Errorf "legacy config path" (Errorf "user config dir" err)))
      /\ forall configDir, os_UserConfigDir = Ok configDir ->
           let legacy := filepath_Join [configDir; "gog"; "tracking.json"] in
           (forall data, disk !! legacy = Some (Ok data) ->
              load os_UserConfigDir json_Unmarshal disk keyring
              = load os_UserConfigDir json_Unmarshal (<[path := Ok data]> disk) keyring)
           /\ (forall err, disk !! legacy = Some (Fail err) ->
                 load os_UserConfigDir json_Unmarshal disk keyring
                 = Fail (Errorf "read legacy tracking config" err))
           /\ (disk !! legacy = None ->
               exists cfg,
                 load os_UserConfigDir json_Unmarshal disk keyring = Ok cfg
                 /\ Config_Enabled cfg = false
                 /\ IsConfigured cfg = false)).
Proof.
  intros Hdir path load.
  assert (Hpath : ConfigPath filepath_Join config_Dir = Ok path).
  { unfold ConfigPath. now rewrite Hdir. }
  split_and!.
  - intros data Hdata os_UserConfigDir' disk' Hdata'.
    apply LoadConfig_read with (path := path); [exact Hpath|].
    now rewrite !(readConfigBytes_primary _ _ _ _ data).
  - intros err Herr. unfold load, LoadConfig, readConfigBytes, os_ReadFile.
    now rewrite Hpath, Herr.
  - intros Hmissing. split.
    + intros err Herr.
      unfold load, LoadConfig, readConfigBytes, os_ReadFile, legacyConfigPath.
      now rewrite Hpath, Hmissing, Herr.
    + intros configDir HconfigDir legacy. split_and!.
      * intros data Hdata.
        apply LoadConfig_read with (path := path); [exact Hpath|].
        rewrite (readConfigBytes_primary _ _ (<[path := Ok data]> disk) path data)
          by apply lookup_insert_eq.
        unfold readConfigBytes, os_ReadFile, legacyConfigPath.
        rewrite Hmissing, HconfigDir. fold legacy. now rewrite Hdata.
      * intros err Herr.
        unfold load, LoadConfig, readConfigBytes, os_ReadFile, legacyConfigPath.
        rewrite Hpath, Hmissing, HconfigDir. fold legacy. now rewrite Herr.
      * intros Hnone. exists (mkConfig false "" false "" "").
        split; [|now split].
        unfold load, LoadConfig, readConfigBytes, os_ReadFile, legacyConfigPath.
        rewrite Hpath, Hmissing, HconfigDir. fold legacy. now rewrite Hnone.
Qed.

Lemma config_file_precedence_witness :
  sampleConfigDir = Ok "/home/u/.config/gogcli"
  /\ (∅ : Disk) !! samplePathJoin ["/home/u/.config/gogcli"; "tracking.json"] = None
  /\ sampleUserConfigDir = Ok "/home/u/.config"
  /\ (∅ : Disk) !! samplePathJoin ["/home/u/.config"; "gog"; "tracking.json"] = None
  /\ exists cfg,
       LoadConfig Ascii7.TrimSpace samplePathJoin sampleConfigDir sampleUserConfigDir
         (sampleUnmarshal []) ∅ ∅ = Ok cfg
       /\ Config_Enabled cfg = false
       /\ IsConfigured cfg = false.
Proof.
  split_and!; try reflexivity.
  exact (proj2 (proj2 (proj2 (proj2 (proj2
    (config_file_precedence Ascii7.TrimSpace samplePathJoin sampleConfigDir
       sampleUserConfigDir (sampleUnmarshal []) ∅ ∅ "/home/u/.config/gogcli" eq_refl))
    eq_refl) "/home/u/.config" eq_refl)) eq_refl).
Defined.

(** X17.  [SaveConfig] touches no file but the configuration file, and
    with [secrets_in_keyring] set the keys never reach the disk: the
    outcome and the disk are the same whatever keys the configuration
    holds.  When it succeeds the file holds the marshalled
    configuration; when the configuration path or the directory cannot
    be had, or marshalling fails, nothing is written at all. *)
Theorem SaveConfig_writes_one_file_without_secrets
    (filepath_Join : list string -> string)
    (config_Dir config_EnsureDir : Result string)
    (json_MarshalIndent : Config -> Result string)
    (os_WriteFile_err : Disk -> string -> string -> option error)
    (disk : Disk) (cfg : Config) :
  let save := SaveConfig filepath_Join config_Dir config_EnsureDir json_MarshalIndent
                os_WriteFile_err disk in
  (forall path, ConfigPath filepath_Join config_Dir = Ok path ->
     forall other, other <> path -> (save cfg).2 !! other = disk !! other)
  /\ (Config_SecretsInKeyring cfg = true ->
      forall trackingKey adminKey,
        save (mkConfig (Config_Enabled cfg) (Config_WorkerURL cfg) true
                trackingKey adminKey)
        = save cfg)
  /\ ((save cfg).1 = None ->
      exists path data,
        ConfigPath filepath_Join config_Dir = Ok path
        /\ json_MarshalIndent (toSave cfg) = Ok data
        /\ (save cfg).2 !! path = Some (Ok data))
  /\ ((forall path, ConfigPath filepath_Join config_Dir <> Ok path)
      \/ (forall made, config_EnsureDir <> Ok made)
      \/ (forall data, json_MarshalIndent (toSave cfg) <> Ok data) ->
      (save cfg).1 <> None /\ (save cfg).2 = disk).
Proof.
  intros save. subst save. split_and!.
  - intros path Hpath other Hother. unfold SaveConfig, os_WriteFile. rewrite Hpath.
    destruct config_EnsureDir; [|reflexivity].
    destruct (json_MarshalIndent (toSave cfg)) as [data|]; [|reflexivity].
    destruct (os_WriteFile_err disk path data); [reflexivity|].
    simpl. apply lookup_insert_ne. congruence.
  - intros Hmode trackingKey adminKey. unfold SaveConfig, toSave. simpl.
    now rewrite Hmode.
  - intros Hok.
    destruct (SaveConfig filepath_Join config_Dir config_EnsureDir json_MarshalIndent
                os_WriteFile_err disk cfg) as [err disk'] eqn:Hsave.
    simpl in Hok. subst err.
    apply SaveConfig_stored in Hsave as (path & data & Hpath & Hdata & ->).
    exists path, data. split_and!; [exact Hpath | exact Hdata | apply lookup_insert_eq].
  - unfold SaveConfig. intros [Hno|[Hno|Hno]].
    + destruct (ConfigPath filepath_Join config_Dir) as [path|err];
        [now destruct (Hno path) | now split].
    + destruct (ConfigPath filepath_Join config_Dir) as [path|err]; [|now split].
      destruct config_EnsureDir as [made|err]; [now destruct (Hno made) | now split].
    + destruct (ConfigPath filepath_Join config_Dir) as [path|err]; [|now split].
      destruct config_EnsureDir as [made|err]; [|now split].
      destruct (json_MarshalIndent (toSave cfg)) as [data|err];
        [now destruct (Hno data) | now split].
Qed.

(** X18.  [SaveSecrets] stores both keys or reports why not.  An empty
    key is refused before anything is stored, the tracking key being
    checked first; no item of the keyring other than the two keys is ever
    touched; after a success [LoadSecrets] returns the two keys that were
    saved.  The two writes are not atomic: when the admin key cannot be
    stored the tracking key already is, next to whatever admin key the
    keyring held. *)
Theorem SaveSecrets_outcomes
    (secrets_SetSecret_err : Keyring -> string -> string -> option error)
    (keyring : Keyring) (trackingKey adminKey : string) :
  let run := SaveSecrets secrets_SetSecret_err keyring trackingKey adminKey in
  (trackingKey = "" -> run = (Some errMissingTrackingKey, keyring))
  /\ (trackingKey <> "" -> adminKey = "" -> run = (Some errMissingAdminKey, keyring))
  /\ (forall key, key <> trackingKeySecretKey -> key <> adminKeySecretKey ->
        run.2 !! key = keyring !! key)
  /\ (run.1 = None ->
      trackingKey <> "" /\ adminKey <> "" /\ LoadSecrets run.2 = Ok (trackingKey, adminKey))
  /\ (forall err, run.1 = Some (Errorf "store admin key" err) ->
        run.2 !! trackingKeySecretKey = Some (Ok trackingKey)
        /\ run.2 !! adminKeySecretKey = keyring !! adminKeySecretKey).
Proof.
  intros run. subst run. split_and!.
  - intros ->. reflexivity.
  - intros Htk ->. unfold SaveSecrets. apply String.eqb_neq in Htk. now rewrite Htk.
  - intros key Htracking Hadmin. unfold SaveSecrets, secrets_SetSecret.
    destruct (String.eqb trackingKey ""); [reflexivity|].
    destruct (String.eqb adminKey ""); [reflexivity|].
    destruct (secrets_SetSecret_err keyring trackingKeySecretKey trackingKey);
      [reflexivity|].
    destruct (secrets_SetSecret_err _ adminKeySecretKey adminKey); simpl.
    + apply lookup_insert_ne. congruence.
    + etransitivity; [apply lookup_insert_ne; congruence|].
      apply lookup_insert_ne. congruence.
  - intros Hok.
    destruct (SaveSecrets secrets_SetSecret_err keyring trackingKey adminKey)
      as [err keyring'] eqn:Hsave.
    simpl in Hok. subst err.
    apply SaveSecrets_stored in Hsave as (Htk & Hak & ->).
    split_and!; [exact Htk | exact Hak | apply LoadSecrets_stored].
  - intros err. unfold SaveSecrets, secrets_SetSecret.
    destruct (String.eqb trackingKey ""); [discriminate|].
    destruct (String.eqb adminKey ""); [discriminate|].
    destruct (secrets_SetSecret_err keyring trackingKeySecretKey trackingKey);
      [discriminate|].
    destruct (secrets_SetSecret_err _ adminKeySecretKey adminKey); [|discriminate].
    simpl. intros _. split; [apply lookup_insert_eq|].
    apply lookup_insert_ne. apply secret_keys_differ.
Qed.

(** X19.  [LoadSecrets] returns both keys or none.  When it succeeds it
    returns the two keys as the keyring stores them, or two empty
    strings: a key whose companion is missing is not returned on its own,
    and a missing tracking key ends the lookup before the admin key is
    read, so that an unreadable admin key then goes unnoticed.  It fails
    only on an item that is there and cannot be read, the tracking key
    first. *)
Theorem LoadSecrets_all_or_nothing (keyring : Keyring) :
  (forall trackingKey adminKey,
     LoadSecrets keyring = Ok (trackingKey, adminKey) ->
     (keyring !! trackingKeySecretKey = Some (Ok trackingKey)
      /\ keyring !! adminKeySecretKey = Some (Ok adminKey))
     \/ (trackingKey = "" /\ adminKey = ""))
  /\ (keyring !! trackingKeySecretKey = None -> LoadSecrets keyring = Ok ("", ""))
  /\ (forall trackingKey,
        keyring !! trackingKeySecretKey = Some (Ok trackingKey) ->
        keyring !! adminKeySecretKey = None ->
        LoadSecrets keyring = Ok ("", ""))
  /\ (forall err,
        LoadSecrets keyring = Fail err ->
        exists cause,
          errors_Is cause ErrKeyNotFound = false
          /\ ((keyring !! trackingKeySecretKey = Some (Fail cause)
               /\ err = Errorf "read tracking key" cause)
              \/ (exists trackingKey,
                    keyring !! trackingKeySecretKey = Some (Ok trackingKey)
                    /\ keyring !! adminKeySecretKey = Some (Fail cause)
                    /\ err = Errorf "read admin key" cause))).
Proof.
  assert (Hself : errors_Is ErrKeyNotFound ErrKeyNotFound = true) by reflexivity.
  unfold LoadSecrets, secrets_GetSecret. split_and!.
  - intros trackingKey adminKey.
    destruct (keyring !! trackingKeySecretKey) as [[b|cause]|].
    + destruct (keyring !! adminKeySecretKey) as [[ab|cause]|].
      * intros [= <- <-]. now left.
      * destruct (errors_Is cause ErrKeyNotFound); [|discriminate].
        intros [= <- <-]. now right.
      * rewrite Hself. intros [= <- <-]. now right.
    + destruct (errors_Is cause ErrKeyNotFound); [|discriminate].
      intros [= <- <-]. now right.
    + rewrite Hself. intros [= <- <-]. now right.
  - intros ->. now rewrite Hself.
  - intros trackingKey -> ->. now rewrite Hself.
  - intros err.
    destruct (keyring !! trackingKeySecretKey) as [[b|cause]|].
    + destruct (keyring !! adminKeySecretKey) as [[ab|cause]|].
      * discriminate.
      * destruct (errors_Is cause ErrKeyNotFound) eqn:Hcause; [discriminate|].
        intros [= <-]. exists cause. split; [exact Hcause|]. right. now exists b.
      * rewrite Hself. discriminate.
    + destruct (errors_Is cause ErrKeyNotFound) eqn:Hcause; [discriminate|].
      intros [= <-]. exists cause. split; [exact Hcause|]. now left.
    + rewrite Hself. discriminate.
Qed.

(** X20.  Where the keys of a loaded configuration come from.  A key
    that is not blank in the file is the key loaded, whatever the keyring
    holds; a key that is blank in the file (empty or white space only)
    is replaced by the key [LoadSecrets] returns; the other fields are
    those of the file.  The keyring is consulted exactly when a key is
    blank or [secrets_in_keyring] is set, and then a keyring that cannot
    be read fails the load even if the file holds both keys; otherwise
    the load cannot fail on the keyring. *)
Theorem LoadConfig_key_sources (TrimSpace : string -> string)
    (filepath_Join : list string -> string)
    (config_Dir os_UserConfigDir : Result string)
    (json_Unmarshal : string -> Result Config) (disk : Disk) (keyring : Keyring)
    (path data : string) (cfg : Config) :
  ConfigPath filepath_Join config_Dir = Ok path ->
  disk !! path = Some (Ok data) ->
  json_Unmarshal data = Ok cfg ->
  let load := LoadConfig TrimSpace filepath_Join config_Dir os_UserConfigDir
                json_Unmarshal disk in
  let consulted := String.eqb (TrimSpace (Config_TrackingKey cfg)) ""
                   || String.eqb (TrimSpace (Config_AdminKey cfg)) ""
                   || Config_SecretsInKeyring cfg in
  (forall loaded, load keyring = Ok loaded ->
     Config_Enabled loaded = Config_Enabled cfg
     /\ Config_WorkerURL loaded = Config_WorkerURL cfg
     /\ Config_SecretsInKeyring loaded = Config_SecretsInKeyring cfg
     /\ (TrimSpace (Config_TrackingKey cfg) <> "" ->
         Config_TrackingKey loaded = Config_TrackingKey cfg)
     /\ (TrimSpace (Config_AdminKey cfg) <> "" ->
         Config_AdminKey loaded = Config_AdminKey cfg)
     /\ (TrimSpace (Config_TrackingKey cfg) = "" ->
         exists adminKey, LoadSecrets keyring = Ok (Config_TrackingKey loaded, adminKey))
     /\ (TrimSpace (Config_AdminKey cfg) = "" ->
         exists trackingKey, LoadSecrets keyring = Ok (trackingKey, Config_AdminKey loaded)))
  /\ (forall err, load keyring = Fail err <->
                  consulted = true /\ LoadSecrets keyring = Fail err)
  /\ (consulted = false -> forall keyring', load keyring' = Ok cfg).
Proof.
  intros Hpath Hdata Hparse load consulted.
  assert (Hload : forall k, load k
            = if consulted then
                match LoadSecrets k with
                | Fail secretErr => Fail secretErr
                | Ok (trackingKey, adminKey) =>
                    Ok (mkConfig (Config_Enabled cfg) (Config_WorkerURL cfg)
                          (Config_SecretsInKeyring cfg)
                          (if String.eqb (TrimSpace (Config_TrackingKey cfg)) ""
                           then trackingKey else Config_TrackingKey cfg)
                          (if String.eqb (TrimSpace (Config_AdminKey cfg)) ""
                           then adminKey else Config_AdminKey cfg))
                end
              else Ok cfg).
  { intros k. apply (LoadConfig_parsed _ _ _ _ _ _ _ path data); try assumption.
    now apply readConfigBytes_primary. }
  split_and!.
  - intros loaded. rewrite Hload. unfold consulted.
    destruct (String.eqb_spec (TrimSpace (Config_TrackingKey cfg)) "") as [Ht|Ht];
      destruct (String.eqb_spec (TrimSpace (Config_AdminKey cfg)) "") as [Ha|Ha];
      simpl orb; cbv iota;
      try (destruct (Config_SecretsInKeyring cfg) eqn:Hmode; cbv iota);
      try (destruct (LoadSecrets keyring) as [[trackingKey adminKey]|secretErr];
           [|discriminate]);
      intros [= <-]; simpl; split_and!;
        try reflexivity; try (intros; reflexivity); try (intros; congruence);
        try (intros _; eexists; reflexivity);
        try (symmetry; exact Hmode).
  - intros err. rewrite Hload. destruct consulted.
    + destruct (LoadSecrets keyring) as [[trackingKey adminKey]|secretErr].
      * split; [discriminate | now intros [_ [=]]].
      * split; [now intros [= ->] | now intros [_ [= ->]]].
    + split; [discriminate | now intros [[=] _]].
  - intros Hnot keyring'. rewrite Hload. now rewrite Hnot.
Qed.

Lemma LoadConfig_key_sources_witness :
  LoadConfig Ascii7.TrimSpace samplePathJoin sampleConfigDir sampleUserConfigDir
    (sampleUnmarshal [sampleFileConfig])
    {[ samplePrimaryPath := Ok "enabled=true worker_url=https://test.workers.dev secrets_in_keyring=false tracking_key=testkey123 admin_key=adminkey456" ]}
    {[ trackingKeySecretKey := Fail (ErrorString "keyring is locked") ]}
  = Ok sampleFileConfig.
Proof.
  exact (proj2 (proj2
    (LoadConfig_key_sources Ascii7.TrimSpace samplePathJoin sampleConfigDir
       sampleUserConfigDir (sampleUnmarshal [sampleFileConfig])
       {[ samplePrimaryPath := Ok "enabled=true worker_url=https://test.workers.dev secrets_in_keyring=false tracking_key=testkey123 admin_key=adminkey456" ]}
       ∅ samplePrimaryPath _ sampleFileConfig eq_refl eq_refl eq_refl)) eq_refl
    {[ trackingKeySecretKey := Fail (ErrorString "keyring is locked") ]}).
Defined.

(** * The update command from its first line *)

Section UpdateCommandFacts.
Context {MarkdownElement : Type}.
Variable ParseMarkdown : string -> list MarkdownElement.
Variable MarkdownToDocsRequests :
  list MarkdownElement -> Z -> list Request * string * list TableData.
Variable remote : Remote.
Variables TrimSpace ToLower : string -> string.
Variable usage : string -> error.
Variable isDocsNotFound : error -> bool.
Variable ReadFile : string -> Result string.

(** The command once its arguments have been accepted. *)
Lemma DocsUpdateCmd_Run_accepted
    (account c_DocID c_Content c_ContentFile c_Format content : string)
    (format : ContentFormat) (c_Append : bool) (report : option error) (h : History) :
  TrimSpace c_DocID <> "" ->
  updateContent usage ReadFile c_Content c_ContentFile = Ok content ->
  updateFormat TrimSpace ToLower usage c_Format = Ok format ->
  let id := TrimSpace c_DocID in
  let run := DocsUpdateCmd_Run ParseMarkdown MarkdownToDocsRequests remote TrimSpace
               ToLower usage isDocsNotFound ReadFile account c_DocID c_Content
               c_ContentFile c_Format c_Append report h in
  (exists e, run = (Some e, h ++ [EvNewDocsService account (Some e)]))
  \/ (exists e,
        run = (Some (if isDocsNotFound e
                     then ErrorString
                            ("doc not found or not a Google Doc (id=" +:+ id +:+ ")")
                     else e),
               h ++ [EvNewDocsService account None; EvDocumentsGet id (Fail e)]))
  \/ run = (Some (ErrorString "doc not found"),
            h ++ [EvNewDocsService account None; EvDocumentsGet id (Ok None)])
  \/ (exists doc requests batchErr calls,
        run = (run.1,
               h ++ [EvNewDocsService account None; EvDocumentsGet id (Ok (Some doc))]
                 ++ EvBatchUpdate id requests batchErr :: map (insertEvent id) calls)).
Proof.
  intros Hid Hcontent Hformat id run. subst run.
  unfold DocsUpdateCmd_Run. fold id.
  apply String.eqb_neq in Hid. fold id in Hid. rewrite Hid, Hcontent, Hformat.
  unfold mbind, M_bind, mret, M_ret, newDocsService, DocumentsGet, call.
  destruct (remote_NewDocsService remote h account) as [e|].
  { left. now exists e. }
  right.
  set (h1 := h ++ [EvNewDocsService account None]).
  destruct (remote_DocumentsGet remote h1 id) as [[doc|]|e] eqn:Hget.
  - right. right.
    destruct (compileContent ParseMarkdown MarkdownToDocsRequests format content
                (baseIndex c_Append doc)) as [[formatting text] tables] eqn:Hcompile.
    destruct (Run_run ParseMarkdown MarkdownToDocsRequests remote id c_Append format
                content doc report (h1 ++ [EvDocumentsGet id (Ok (Some doc))])
                formatting text tables Hcompile)
      as (batchErr & calls & result & Hrun & _).
    exists doc, (buildRequests c_Append format doc formatting text), batchErr, calls.
    rewrite Hrun. unfold h1. simpl. now rewrite <- !app_assoc.
  - right. left. unfold h1. now rewrite <- app_assoc.
  - left. exists e. unfold h1. rewrite <- app_assoc.
    now destruct (isDocsNotFound e).
Qed.
End UpdateCommandFacts.

(** X21.  The update command checks its arguments before it calls any
    service, in this order: a document id that is blank after trimming,
    then the content, then the format; a refused argument leaves the
    history as it was, and a run that made no call has failed.  When a
    content file is named the inline content is ignored, without notice:
    the run is the same whatever [--content] holds.  The format is read
    up to white space around it and up to case. *)
Theorem update_refuses_before_any_call {MarkdownElement : Type}
    (ParseMarkdown : string -> list MarkdownElement)
    (MarkdownToDocsRequests :
       list MarkdownElement -> Z -> list Request * string * list TableData)
    (remote : Remote) (TrimSpace ToLower : string -> string) (usage : string -> error)
    (isDocsNotFound : error -> bool) (ReadFile : string -> Result string)
    (account c_DocID c_Content c_ContentFile c_Format : string) (c_Append : bool)
    (report : option error) (h : History) :
  let command := DocsUpdateCmd_Run ParseMarkdown MarkdownToDocsRequests remote TrimSpace
                   ToLower usage isDocsNotFound ReadFile account c_DocID in
  let run := command c_Content c_ContentFile c_Format c_Append report h in
  let format := ToLower (TrimSpace c_Format) in
  (TrimSpace c_DocID = "" -> run = (Some (usage "empty docId"), h))
  /\ (TrimSpace c_DocID <> "" -> c_ContentFile = "" -> c_Content = "" ->
      run = (Some (usage "either --content or --content-file is required"), h))
  /\ (TrimSpace c_DocID <> "" -> c_ContentFile <> "" ->
      forall err, ReadFile c_ContentFile = Fail err ->
                  run = (Some (Errorf "read content file" err), h))
  /\ (TrimSpace c_DocID <> "" ->
      (exists content, updateContent usage ReadFile c_Content c_ContentFile = Ok content) ->
      format <> "" -> format <> "plain" -> format <> "markdown" ->
      run = (Some (usage "format must be plain or markdown"), h))
  /\ (c_ContentFile <> "" ->
      forall c_Content', command c_Content' c_ContentFile c_Format c_Append report h = run)
  /\ (forall c_Format', ToLower (TrimSpace c_Format') = format ->
        command c_Content c_ContentFile c_Format' c_Append report h = run)
  /\ (run.2 = h -> run.1 <> None).
Proof.
  intros command run format. subst command run. unfold DocsUpdateCmd_Run.
  split_and!.
  - intros ->. reflexivity.
  - intros Hid -> ->. apply String.eqb_neq in Hid. now rewrite Hid.
  - intros Hid Hfile err Herr. apply String.eqb_neq in Hid, Hfile.
    unfold updateContent. now rewrite Hid, Hfile, Herr.
  - intros Hid [content ->] H1 H2 H3. apply String.eqb_neq in Hid, H1, H2, H3.
    unfold updateFormat. fold format. now rewrite Hid, H1, H2, H3.
  - intros Hfile c_Content'. apply String.eqb_neq in Hfile.
    unfold updateContent. now rewrite Hfile.
  - intros c_Format' Hsame. unfold updateFormat. fold format. now rewrite Hsame.
  - destruct (String.eqb (TrimSpace c_DocID) ""); [discriminate|].
    destruct (updateContent usage ReadFile c_Content c_ContentFile) as [content|];
      [|discriminate].
    destruct (updateFormat TrimSpace ToLower usage c_Format) as [fmt|]; [|discriminate].
    unfold mbind, M_bind, mret, M_ret, newDocsService, call. intros Hsame. exfalso.
    assert (Hlen : forall (r : option error * History) (ev : Event),
              r.2 = h -> (exists tl, r.2 = h ++ ev :: tl) -> False).
    { intros r ev -> [tl Htl]. apply (f_equal length) in Htl.
      rewrite length_app in Htl. simpl in Htl. lia. }
    revert Hsame.
    destruct (remote_NewDocsService remote h account) as [e|].
    { intros Hsame. apply (Hlen _ (EvNewDocsService account (Some e)) Hsame).
      now exists []. }
    set (h1 := h ++ [EvNewDocsService account None]).
    unfold DocumentsGet, call.
    destruct (remote_DocumentsGet remote h1 (TrimSpace c_DocID)) as [[doc|]|e].
    + destruct (compileContent ParseMarkdown MarkdownToDocsRequests fmt content
                  (baseIndex c_Append doc)) as [[formatting text] tables] eqn:Hcompile.
      destruct (Run_run ParseMarkdown MarkdownToDocsRequests remote (TrimSpace c_DocID)
                  c_Append fmt content doc report
                  (h1 ++ [EvDocumentsGet (TrimSpace c_DocID) (Ok (Some doc))])
                  formatting text tables Hcompile)
        as (batchErr & calls & result & Hrun & _).
      rewrite Hrun. intros Hsame.
      apply (Hlen _ (EvNewDocsService account None) Hsame).
      eexists. simpl. unfold h1. rewrite <- !app_assoc. reflexivity.
    + intros Hsame. apply (Hlen _ (EvNewDocsService account None) Hsame).
      eexists. simpl. unfold h1. rewrite <- !app_assoc. reflexivity.
    + intros Hsame. apply (Hlen _ (EvNewDocsService account None) Hsame).
      destruct (isDocsNotFound e); eexists; simpl; unfold h1;
        rewrite <- !app_assoc; reflexivity.
Qed.

(** X22.  Every call of the update command is made for the account it
    was given or on the document id as trimmed: the service is created
    first, the document is fetched next, and a batch update is sent only
    as the third call, after a fetch that returned a document.  A fetch
    that fails ends the command with the error of the service, or with
    ["doc not found or not a Google Doc (id=...)"] when the error is a
    "not found"; a fetch that returns no document ends it with ["doc not
    found"]; in both cases nothing is sent. *)
Theorem update_calls_use_trimmed_id {MarkdownElement : Type}
    (ParseMarkdown : string -> list MarkdownElement)
    (MarkdownToDocsRequests :
       list MarkdownElement -> Z -> list Request * string * list TableData)
    (remote : Remote) (TrimSpace ToLower : string -> string) (usage : string -> error)
    (isDocsNotFound : error -> bool) (ReadFile : string -> Result string)
    (account c_DocID c_Content c_ContentFile c_Format : string) (c_Append : bool)
    (report : option error) (h : History) :
  let id := TrimSpace c_DocID in
  let run := DocsUpdateCmd_Run ParseMarkdown MarkdownToDocsRequests remote TrimSpace
               ToLower usage isDocsNotFound ReadFile account c_DocID c_Content
               c_ContentFile c_Format c_Append report h in
  (exists new, run.2 = h ++ new)
  /\ forall new, run.2 = h ++ new ->
     Forall (addressedTo account id) new
     /\ (forall i docID requests err,
           new !! i = Some (EvBatchUpdate docID requests err) ->
           i = 2%nat
           /\ new !! 0%nat = Some (EvNewDocsService account None)
           /\ exists doc, new !! 1%nat = Some (EvDocumentsGet id (Ok (Some doc))))
     /\ (forall e, new !! 1%nat = Some (EvDocumentsGet id (Fail e)) ->
           length new = 2%nat
           /\ run.1 = Some (if isDocsNotFound e
                            then ErrorString
                                   ("doc not found or not a Google Doc (id=" +:+ id +:+ ")")
                            else e))
     /\ (new !! 1%nat = Some (EvDocumentsGet id (Ok None)) ->
         length new = 2%nat /\ run.1 = Some (ErrorString "doc not found")).
Proof.
  intros id run.
  assert (Hrefused : run.2 = h ->
            (exists new, run.2 = h ++ new)
            /\ forall new, run.2 = h ++ new ->
               Forall (addressedTo account id) new
               /\ (forall i docID requests err,
                     new !! i = Some (EvBatchUpdate docID requests err) ->
                     i = 2%nat
                     /\ new !! 0%nat = Some (EvNewDocsService account None)
                     /\ exists doc,
                          new !! 1%nat = Some (EvDocumentsGet id (Ok (Some doc))))
               /\ (forall e, new !! 1%nat = Some (EvDocumentsGet id (Fail e)) ->
                     length new = 2%nat
                     /\ run.1 = Some (if isDocsNotFound e
                                      then ErrorString
                                             ("doc not found or not a Google Doc (id="
                                              +:+ id +:+ ")")
                                      else e))
               /\ (new !! 1%nat = Some (EvDocumentsGet id (Ok None)) ->
                   length new = 2%nat /\ run.1 = Some (ErrorString "doc not found"))).
  { intros Hsame. rewrite Hsame. split; [exists []; now rewrite app_nil_r|].
    intros new Hnew. rewrite <- (app_nil_r h) in Hnew at 1.
    apply app_inv_head in Hnew. subst new.
    split_and!; [constructor | discriminate | discriminate | discriminate]. }
  destruct (String.eqb_spec (TrimSpace c_DocID) "") as [Hid|Hid].
  { apply Hrefused. unfold run, DocsUpdateCmd_Run.
    apply String.eqb_eq in Hid. now rewrite Hid. }
  destruct (updateContent usage ReadFile c_Content c_ContentFile) as [content|err]
    eqn:Hcontent.
  2:{ apply Hrefused. unfold run, DocsUpdateCmd_Run.
      apply String.eqb_neq in Hid. now rewrite Hid, Hcontent. }
  destruct (updateFormat TrimSpace ToLower usage c_Format) as [format|err] eqn:Hformat.
  2:{ apply Hrefused. unfold run, DocsUpdateCmd_Run.
      apply String.eqb_neq in Hid. now rewrite Hid, Hcontent, Hformat. }
  clear Hrefused.
  destruct (DocsUpdateCmd_Run_accepted ParseMarkdown MarkdownToDocsRequests remote
              TrimSpace ToLower usage isDocsNotFound ReadFile account c_DocID c_Content
              c_ContentFile c_Format content format c_Append report h Hid Hcontent
              Hformat)
    as [(e & Hrun)|[(e & Hrun)|[Hrun|(doc & requests & batchErr & calls & Hrun)]]];
    fold id run in Hrun; rewrite Hrun; simpl fst; simpl snd;
    (split; [eexists; reflexivity|]); intros new Hnew; apply app_inv_head in Hnew;
    subst new.
  - split_and!; [repeat constructor | | discriminate | discriminate].
    intros [|[|i]] docID requests err Hi; discriminate Hi.
  - split_and!; [repeat constructor | | | discriminate].
    + intros [|[|[|i]]] docID requests err Hi; discriminate Hi.
    + intros e' [= <-]. now split.
  - split_and!; [repeat constructor | | discriminate | now split].
    intros [|[|[|i]]] docID requests err Hi; discriminate Hi.
  - split_and!.
    + repeat constructor. apply List.Forall_forall.
      intros ev (c & <- & _)%in_map_iff. now destruct c as [[? ?] ?].
    + intros [|[|[|i]]] docID requests' err Hi; try discriminate Hi.
      * split; [reflexivity|]. split; [reflexivity|]. now exists doc.
      * exfalso. simpl in Hi. rewrite list_lookup_fmap in Hi.
        destruct (calls !! i) as [[[? ?] ?]|]; discriminate Hi.
    + discriminate.
    + discriminate.
Qed.

Lemma update_calls_use_trimmed_id_witness :
  let run := DocsUpdateCmd_Run sampleParse sampleFormatter liveRemote Ascii7.TrimSpace
               Ascii7.ToLower sampleUsage (fun _ => false) sampleReadFile
               "me@example.com" " doc " "inline" "notes.md" " Markdown " true None [] in
  let new := [ EvNewDocsService "me@example.com" None;
               EvDocumentsGet "doc" (Ok (Some sampleLiveDocument));
               EvBatchUpdate "doc" [InsertText 11 "Hello"; UpdateTextStyle 11 16 "bold"]
                 None;
               EvInsertNativeTable "doc" 10 [["a"]] (Ok 15%Z);
               EvInsertNativeTable "doc" 24 [["b"]] (Ok 29%Z);
               EvInsertNativeTable "doc" 38 [["c"]] (Ok 43%Z) ] in
  run.2 = [] ++ new /\ Forall (addressedTo "me@example.com" "doc") new.
Proof.
  intros run new.
  assert (Hrun : run.2 = [] ++ new) by (vm_compute; reflexivity).
  split; [exact Hrun|].
  exact (proj1 (proj2
    (update_calls_use_trimmed_id sampleParse sampleFormatter liveRemote Ascii7.TrimSpace
       Ascii7.ToLower sampleUsage (fun _ => false) sampleReadFile
       "me@example.com" " doc " "inline" "notes.md" " Markdown " true None [])
    new Hrun)).
Defined.
